(** * HadroDB: the log engine and its two row codecs

    A shallow embedding of
    - [hadrodb/record.py]   (the self-describing row codec, MessagePack payload),
    - [R&D/row_class.py]    (the fixed-width, schema-typed row codec),
    - [hadrodb/engine.py]   (the append-only log engine; [hadro/engine.py] has
                             the same [append], [scan] and [_write]),
    together with the properties stated about them.

    Conventions.  Python [bytes] are [list byte]; Python [int] is [Z]; a
    Python [str] is the list of its code points; a Python [float] is its
    IEEE-754 binary64 bit pattern (a [Z] below [2^64]), so equality of floats
    is equality of bit patterns.  A call that may raise returns a [result]. *)

From Stdlib Require Import ZArith List Lia String Bool.
From Stdlib.Strings Require Import Byte.
From stdpp Require Import base list gmap strings.
Import ListNotations.
Local Open Scope Z_scope.

(** ** Exceptions and results *)

Inductive exn : Type :=
| StructError          (* struct.error *)
| ValueError
| TypeError
| AttributeError
| IndexError
| OverflowError
| NameError
| UnicodeEncodeError
| UnicodeDecodeError
| MsgpackEncodeError   (* ormsgpack.MsgpackEncodeError *)
| MsgpackDecodeError   (* ormsgpack.MsgpackDecodeError *)
| OutsideModel         (* behaviour of Python that this embedding does not describe *)
| KeyNotFound          (* the error kinds that the specification names *)
| SchemaMismatch
| CorruptRecord
| ShortRead.

Inductive result (A : Type) : Type :=
| Ok (a : A)
| Raise (e : exn).
Arguments Ok {A} a.
Arguments Raise {A} e.

#[global] Instance result_ret : MRet result := fun A a => Ok a.
#[global] Instance result_bind : MBind result := fun A B k r =>
  match r with
  | Ok a => k a
  | Raise e => Raise e
  end.

Definition is_ok {A : Type} (r : result A) : bool :=
  match r with Ok _ => true | Raise _ => false end.

(** ** Bytes and big-endian integers *)

Definition bytes : Type := list byte.

(** The byte with value [z mod 256]. *)
Definition b8 (z : Z) : byte :=
  match Byte.of_N (Z.to_N (z mod 256)) with
  | Some b => b
  | None => x00
  end.

(** The value of a byte, in [0, 255]. *)
Definition u8 (b : byte) : Z := Z.of_N (Byte.to_N b).

(** [len(bs)] as a Python int. *)
Definition len {A : Type} (l : list A) : Z := Z.of_nat (length l).

(** [z.to_bytes(n, "big")] without its range check: the [n] low-order
    base-256 digits of [z], most significant first. *)
Fixpoint be_bytes (n : nat) (z : Z) : bytes :=
  match n with
  | O => []
  | S k => b8 (z / 256 ^ Z.of_nat k) :: be_bytes k z
  end.

(** [int.from_bytes(bs, "big")]. *)
Definition be_int (bs : bytes) : Z :=
  fold_left (fun acc b => acc * 256 + u8 b) bs 0.

(** [n.to_bytes(4, "big")] for a Python int [n]: OverflowError when [n] does
    not fit in four bytes (or is negative). *)
Definition int_to_bytes4 (n : Z) : result bytes :=
  if (0 <=? n) && (n <? 2 ^ 32) then Ok (be_bytes 4 n) else Raise OverflowError.

(** ** Python values held by a row *)

Inductive value : Type :=
| VNone
| VBool (b : bool)
| VInt (z : Z)
| VFloat (bits : Z)      (* the binary64 bit pattern, [0 <= bits < 2^64] *)
| VStr (s : list Z).     (* the code points of the string *)

(** The values of Python: a float is one of the [2^64] bit patterns. *)
Definition value_ok (v : value) : Prop :=
  match v with
  | VFloat bits => 0 <= bits < 2 ^ 64
  | _ => True
  end.

(** ** UTF-8: [str.encode("utf-8")] and [bytes.decode("utf-8")] *)

Definition is_surrogate (c : Z) : bool := (0xD800 <=? c) && (c <=? 0xDFFF).

(** A code point outside [0, 0x10FFFF] cannot occur in a Python [str]. *)
Definition utf8_encode_cp (c : Z) : result bytes :=
  if c <? 0 then Raise OutsideModel
  else if c <? 0x80 then Ok [b8 c]
  else if c <? 0x800 then Ok [b8 (0xC0 + c / 64); b8 (0x80 + c mod 64)]
  else if c <? 0x10000 then
    if is_surrogate c then Raise UnicodeEncodeError
    else Ok [b8 (0xE0 + c / 4096); b8 (0x80 + (c / 64) mod 64); b8 (0x80 + c mod 64)]
  else if c <? 0x110000 then
    Ok [b8 (0xF0 + c / 262144); b8 (0x80 + (c / 4096) mod 64);
        b8 (0x80 + (c / 64) mod 64); b8 (0x80 + c mod 64)]
  else Raise OutsideModel.

Fixpoint utf8_encode (s : list Z) : result bytes :=
  match s with
  | [] => Ok []
  | c :: s' =>
      b ← utf8_encode_cp c;
      bs ← utf8_encode s';
      Ok (b ++ bs)
  end.

(** A continuation byte [10xxxxxx]. *)
Definition is_cont (b : byte) : bool := (0x80 <=? u8 b) && (u8 b <? 0xC0).

(** The six payload bits of a continuation byte. *)
Definition cont (b : byte) : Z := u8 b - 0x80.

(** The strict decoder: overlong forms, surrogates, code points above
    0x10FFFF and truncated sequences are errors. *)
Fixpoint utf8_decode (bs : bytes) : result (list Z) :=
  match bs with
  | [] => Ok []
  | b0 :: r0 =>
      let x0 := u8 b0 in
      if x0 <? 0x80 then
        s ← utf8_decode r0; Ok (x0 :: s)
      else if x0 <? 0xC2 then Raise UnicodeDecodeError
      else if x0 <? 0xE0 then
        match r0 with
        | b1 :: r1 =>
            if is_cont b1 then
              s ← utf8_decode r1; Ok (((x0 - 0xC0) * 64 + cont b1) :: s)
            else Raise UnicodeDecodeError
        | _ => Raise UnicodeDecodeError
        end
      else if x0 <? 0xF0 then
        match r0 with
        | b1 :: b2 :: r2 =>
            if is_cont b1 && is_cont b2 then
              let c := (x0 - 0xE0) * 4096 + cont b1 * 64 + cont b2 in
              if (c <? 0x800) || is_surrogate c then Raise UnicodeDecodeError
              else s ← utf8_decode r2; Ok (c :: s)
            else Raise UnicodeDecodeError
        | _ => Raise UnicodeDecodeError
        end
      else if x0 <? 0xF5 then
        match r0 with
        | b1 :: b2 :: b3 :: r3 =>
            if is_cont b1 && is_cont b2 && is_cont b3 then
              let c := (x0 - 0xF0) * 262144 + cont b1 * 4096 + cont b2 * 64 + cont b3 in
              if (c <? 0x10000) || (0x10FFFF <? c) then Raise UnicodeDecodeError
              else s ← utf8_decode r3; Ok (c :: s)
            else Raise UnicodeDecodeError
        | _ => Raise UnicodeDecodeError
        end
      else Raise UnicodeDecodeError
  end.

(** ** [ormsgpack.packb] and [ormsgpack.unpackb]

    The part of the MessagePack wire format that a tuple of [None], [bool],
    [int], [float] and [str] values uses.  Integers take the shortest
    encoding. *)

Definition pack_int (z : Z) : result bytes :=
  if z <? - 2 ^ 63 then Raise MsgpackEncodeError
  else if z <? - 2 ^ 31 then Ok (b8 0xd3 :: be_bytes 8 z)
  else if z <? - 2 ^ 15 then Ok (b8 0xd2 :: be_bytes 4 z)
  else if z <? - 2 ^ 7 then Ok (b8 0xd1 :: be_bytes 2 z)
  else if z <? - 32 then Ok (b8 0xd0 :: be_bytes 1 z)
  else if z <? 2 ^ 7 then Ok [b8 z]
  else if z <? 2 ^ 8 then Ok (b8 0xcc :: be_bytes 1 z)
  else if z <? 2 ^ 16 then Ok (b8 0xcd :: be_bytes 2 z)
  else if z <? 2 ^ 32 then Ok (b8 0xce :: be_bytes 4 z)
  else if z <? 2 ^ 64 then Ok (b8 0xcf :: be_bytes 8 z)
  else Raise MsgpackEncodeError.

Definition pack_str_header (n : Z) : result bytes :=
  if n <? 32 then Ok [b8 (0xa0 + n)]
  else if n <? 2 ^ 8 then Ok (b8 0xd9 :: be_bytes 1 n)
  else if n <? 2 ^ 16 then Ok (b8 0xda :: be_bytes 2 n)
  else if n <? 2 ^ 32 then Ok (b8 0xdb :: be_bytes 4 n)
  else Raise MsgpackEncodeError.

Definition pack_array_header (n : Z) : result bytes :=
  if n <? 16 then Ok [b8 (0x90 + n)]
  else if n <? 2 ^ 16 then Ok (b8 0xdc :: be_bytes 2 n)
  else if n <? 2 ^ 32 then Ok (b8 0xdd :: be_bytes 4 n)
  else Raise MsgpackEncodeError.

Definition pack_value (v : value) : result bytes :=
  match v with
  | VNone => Ok [b8 0xc0]
  | VBool false => Ok [b8 0xc2]
  | VBool true => Ok [b8 0xc3]
  | VInt z => pack_int z
  | VFloat bits => Ok (b8 0xcb :: be_bytes 8 bits)
  | VStr s =>
      match utf8_encode s with
      | Ok u => h ← pack_str_header (len u); Ok (h ++ u)
      | Raise _ => Raise MsgpackEncodeError
      end
  end.

Fixpoint pack_values (vs : list value) : result bytes :=
  match vs with
  | [] => Ok []
  | v :: vs' =>
      b ← pack_value v;
      bs ← pack_values vs';
      Ok (b ++ bs)
  end.

(** [packb(t)] for a tuple [t]. *)
Definition packb (t : list value) : result bytes :=
  h ← pack_array_header (len t);
  b ← pack_values t;
  Ok (h ++ b).

(** What [unpackb] returns: a scalar, or a list of scalars.  Maps, binary,
    extension types, float32 and arrays inside arrays are outside the
    model. *)
Inductive obj : Type :=
| OScalar (v : value)
| OArray (l : list value).

(** The next [n] bytes of the input. *)
Definition mp_take (n : Z) (bs : bytes) : result (bytes * bytes) :=
  if n <=? len bs then Ok (take (Z.to_nat n) bs, drop (Z.to_nat n) bs)
  else Raise MsgpackDecodeError.

(** A big-endian unsigned integer of [n] bytes. *)
Definition mp_uint (n : Z) (bs : bytes) : result (Z * bytes) :=
  '(d, r) ← mp_take n bs; Ok (be_int d, r).

(** A big-endian two's-complement integer of [n] bytes. *)
Definition mp_sint (n : Z) (bs : bytes) : result (Z * bytes) :=
  '(d, r) ← mp_take n bs;
  let u := be_int d in
  Ok (if u <? 2 ^ (8 * n - 1) then u else u - 2 ^ (8 * n), r).

Definition mp_str (n : Z) (bs : bytes) : result (value * bytes) :=
  '(d, r) ← mp_take n bs;
  match utf8_decode d with
  | Ok s => Ok (VStr s, r)
  | Raise _ => Raise MsgpackDecodeError
  end.

Definition unpack_value (bs : bytes) : result (value * bytes) :=
  match bs with
  | [] => Raise MsgpackDecodeError
  | t :: r =>
      let x := u8 t in
      if x <? 0x80 then Ok (VInt x, r)
      else if x <? 0xa0 then Raise OutsideModel            (* fixmap, fixarray *)
      else if x <? 0xc0 then mp_str (x - 0xa0) r
      else if x =? 0xc0 then Ok (VNone, r)
      else if x =? 0xc1 then Raise MsgpackDecodeError      (* never used *)
      else if x =? 0xc2 then Ok (VBool false, r)
      else if x =? 0xc3 then Ok (VBool true, r)
      else if x <? 0xcb then Raise OutsideModel            (* bin, ext, float32 *)
      else if x =? 0xcb then '(z, r') ← mp_uint 8 r; Ok (VFloat z, r')
      else if x =? 0xcc then '(z, r') ← mp_uint 1 r; Ok (VInt z, r')
      else if x =? 0xcd then '(z, r') ← mp_uint 2 r; Ok (VInt z, r')
      else if x =? 0xce then '(z, r') ← mp_uint 4 r; Ok (VInt z, r')
      else if x =? 0xcf then '(z, r') ← mp_uint 8 r; Ok (VInt z, r')
      else if x =? 0xd0 then '(z, r') ← mp_sint 1 r; Ok (VInt z, r')
      else if x =? 0xd1 then '(z, r') ← mp_sint 2 r; Ok (VInt z, r')
      else if x =? 0xd2 then '(z, r') ← mp_sint 4 r; Ok (VInt z, r')
      else if x =? 0xd3 then '(z, r') ← mp_sint 8 r; Ok (VInt z, r')
      else if x <? 0xd9 then Raise OutsideModel            (* fixext *)
      else if x =? 0xd9 then '(n, r') ← mp_uint 1 r; mp_str n r'
      else if x =? 0xda then '(n, r') ← mp_uint 2 r; mp_str n r'
      else if x =? 0xdb then '(n, r') ← mp_uint 4 r; mp_str n r'
      else if x <? 0xe0 then Raise OutsideModel            (* array, map *)
      else Ok (VInt (x - 256), r)
  end.

Fixpoint unpack_values (n : nat) (bs : bytes) : result (list value * bytes) :=
  match n with
  | O => Ok ([], bs)
  | S k =>
      '(v, r) ← unpack_value bs;
      '(vs, r') ← unpack_values k r;
      Ok (v :: vs, r')
  end.

Definition unpack_obj (bs : bytes) : result (obj * bytes) :=
  match bs with
  | [] => Raise MsgpackDecodeError
  | t :: r =>
      let x := u8 t in
      if (0x90 <=? x) && (x <? 0xa0) then
        '(vs, r') ← unpack_values (Z.to_nat (x - 0x90)) r; Ok (OArray vs, r')
      else if x =? 0xdc then
        '(n, r') ← mp_uint 2 r;
        '(vs, r'') ← unpack_values (Z.to_nat n) r'; Ok (OArray vs, r'')
      else if x =? 0xdd then
        '(n, r') ← mp_uint 4 r;
        '(vs, r'') ← unpack_values (Z.to_nat n) r'; Ok (OArray vs, r'')
      else
        '(v, r') ← unpack_value bs; Ok (OScalar v, r')
  end.

(** [unpackb(data)].  [strict] says whether bytes left over after the first
    object are an error; the properties below hold either way. *)
Definition unpackb (strict : bool) (data : bytes) : result obj :=
  '(o, r) ← unpack_obj data;
  match r with
  | [] => Ok o
  | _ :: _ => if strict then Raise MsgpackDecodeError else Ok o
  end.

(** ** [hadrodb/record.py]: the self-describing row *)

(** A row is a tuple of values. *)
Definition Row : Type := list value.

Module RecordPy.

(** [Row.__new__(cls, data)], that is [tuple(data)], for the object that
    [unpackb] returned: a list gives its elements, a string its
    characters, anything else is not iterable.  The schema check is
    commented out in the source. *)
Definition Row_new (data : obj) : result Row :=
  match data with
  | OArray l => Ok l
  | OScalar (VStr s) => Ok (map (fun c => VStr [c]) s)
  | OScalar _ => Raise TypeError
  end.

(** [Row.from_bytes(data)]. *)
Definition from_bytes (strict : bool) (data : bytes) : result Row :=
  fields ← unpackb strict data;
  Row_new fields.

(** [Row.to_bytes(self)]. *)
Definition to_bytes (self : Row) : result bytes :=
  record_bytes ← packb self;
  let record_size := len record_bytes in
  size_bytes ← int_to_bytes4 record_size;
  Ok ([x00] ++ size_bytes ++ record_bytes).

End RecordPy.

(** ** [R&D/row_class.py]: the fixed-width, schema-typed row *)

Record field_info : Type := { ftype : string; nullable : bool }.

(** The schema: a dict from field name to field description, in insertion
    order. *)
Definition schema : Type := list (string * field_info).

Module RowClassPy.

(** The struct formats of [TYPE_DICT]. *)
Inductive format : Type := Fbool | Fdouble | Fint64.

Definition TYPE_DICT (t : string) : option (format * Z) :=
  if String.eqb t "BOOLEAN" then Some (Fbool, 1)
  else if String.eqb t "FLOAT" then Some (Fdouble, 8)
  else if String.eqb t "INTEGER" then Some (Fint64, 8)
  else None.

(** [bool(v)]. *)
Definition truthy (v : value) : bool :=
  match v with
  | VNone => false
  | VBool b => b
  | VInt z => negb (z =? 0)
  | VFloat bits => negb (bits mod 2 ^ 63 =? 0)
  | VStr s => match s with [] => false | _ => true end
  end.

(** [struct.pack(form, value)] for [">?"], [">d"] and [">q"].  Packing an
    [int] as a double rounds it to the nearest float, which is not
    described here. *)
Definition struct_pack (form : format) (v : value) : result bytes :=
  match form with
  | Fbool => Ok [b8 (if truthy v then 1 else 0)]
  | Fdouble =>
      match v with
      | VFloat bits => Ok (be_bytes 8 bits)
      | VInt _ | VBool _ => Raise OutsideModel
      | _ => Raise StructError
      end
  | Fint64 =>
      let pack_q (z : Z) :=
        if (- 2 ^ 63 <=? z) && (z <? 2 ^ 63) then Ok (be_bytes 8 z)
        else Raise StructError in
      match v with
      | VInt z => pack_q z
      | VBool b => pack_q (if b then 1 else 0)
      | _ => Raise StructError
      end
  end.

(** [struct.pack(f">H{len(value_bytes)}s", len(value_bytes), value_bytes)]. *)
Definition struct_pack_H_s (value_bytes : bytes) : result bytes :=
  if len value_bytes <=? 65535 then Ok (be_bytes 2 (len value_bytes) ++ value_bytes)
  else Raise StructError.

(** The [size] bytes of [data] from [offset] on, as [struct.unpack_from]
    reads them. *)
Definition slice_from (size : Z) (data : bytes) (offset : Z) : result bytes :=
  if offset + size <=? len data then
    Ok (take (Z.to_nat size) (drop (Z.to_nat offset) data))
  else Raise StructError.

(** [struct.unpack_from(form, data, offset)[0]]. *)
Definition struct_unpack_from (form : format) (data : bytes) (offset : Z)
  : result value :=
  match form with
  | Fbool => d ← slice_from 1 data offset; Ok (VBool (negb (be_int d =? 0)))
  | Fdouble => d ← slice_from 8 data offset; Ok (VFloat (be_int d))
  | Fint64 =>
      d ← slice_from 8 data offset;
      let u := be_int d in
      Ok (VInt (if u <? 2 ^ 63 then u else u - 2 ^ 64))
  end.

(** [struct.unpack_from(">B", data, offset)[0]] and [">H"]. *)
Definition struct_unpack_uint (size : Z) (data : bytes) (offset : Z) : result Z :=
  d ← slice_from size data offset; Ok (be_int d).

(** The body of the loop of [Row.to_bytes] for one field: the byte strings
    appended to [values]. *)
Definition pack_field (field_type : field_info) (value : value)
  : result (list bytes) :=
  match value, nullable field_type with
  | VNone, true => Ok [ [b8 0] ]
  | _, _ =>
      let presence := if nullable field_type then [ [b8 1] ] else [] in
      if String.eqb (ftype field_type) "VARCHAR" then
        match value with
        | VStr s =>
            value_bytes ← utf8_encode s;
            packed ← struct_pack_H_s value_bytes;
            Ok (presence ++ [packed])
        | _ => Raise AttributeError
        end
      else
        match TYPE_DICT (ftype field_type) with
        | Some (form, size) =>
            packed ← struct_pack form value;
            Ok (presence ++ [packed])
        | None => Raise ValueError
        end
  end.

(** The loop of [Row.to_bytes]: field [i] of the schema takes [self[i]]. *)
Fixpoint to_bytes_loop (fields : schema) (self : Row) (i : nat)
  : result (list bytes) :=
  match fields with
  | [] => Ok []
  | (field_name, field_type) :: rest =>
      value ← match self !! i with
              | Some v => Ok v
              | None => Raise IndexError
              end;
      chunk ← pack_field field_type value;
      values ← to_bytes_loop rest self (S i);
      Ok (chunk ++ values)
  end.

(** [Row.to_bytes(self)] for the row class of schema [_schema]. *)
Definition to_bytes (_schema : schema) (self : Row) : result bytes :=
  values ← to_bytes_loop _schema self 0%nat;
  Ok (concat values).

(** The typed part of the loop body of [Row.from_bytes]: the value read at
    [offset] and the offset after it. *)
Definition read_value (field_type : field_info) (data : bytes) (offset : Z)
  : result (value * Z) :=
  if String.eqb (ftype field_type) "VARCHAR" then
    str_len ← struct_unpack_uint 2 data offset;
    let offset := offset + 2 in
    str_bytes ← slice_from str_len data offset;
    let offset := offset + str_len in
    match utf8_decode str_bytes with
    | Ok s => Ok (VStr s, offset)
    | Raise e => Raise e
    end
  else
    match TYPE_DICT (ftype field_type) with
    | Some (form, size) =>
        v ← struct_unpack_from form data offset;
        Ok (v, offset + size)
    | None => Raise ValueError
    end.

(** The loop body of [Row.from_bytes] for one field. *)
Definition read_field (field_type : field_info) (data : bytes) (offset : Z)
  : result (value * Z) :=
  if nullable field_type then
    has_value ← struct_unpack_uint 1 data offset;
    let offset := offset + 1 in
    if has_value =? 0 then Ok (VNone, offset) else read_value field_type data offset
  else read_value field_type data offset.

(** The loop of [Row.from_bytes], from [offset] on. *)
Fixpoint from_bytes_loop (fields : schema) (data : bytes) (offset : Z)
  : result (list value) :=
  match fields with
  | [] => Ok []
  | (field_name, field_type) :: rest =>
      '(v, offset') ← read_field field_type data offset;
      vs ← from_bytes_loop rest data offset';
      Ok (v :: vs)
  end.

(** [Row.from_bytes(data)] for the row class of schema [_schema]. *)
Definition from_bytes (_schema : schema) (data : bytes) : result Row :=
  from_bytes_loop _schema data 0.

(** [check_tuple_schema(data, schema)].  The schema names its types by
    strings, and [isinstance(x, "VARCHAR")] is a TypeError. *)
Fixpoint check_fields (fields : schema) (data : Row) (i : nat) : result unit :=
  match fields with
  | [] => Ok tt
  | (key, schema_info) :: rest =>
      match data !! i with
      | None => Raise IndexError
      | Some VNone =>
          if nullable schema_info then check_fields rest data (S i)
          else Raise ValueError
      | Some _ => Raise TypeError
      end
  end.

Definition check_tuple_schema (data : Row) (_schema : schema) : result unit :=
  if negb (len _schema =? len data) then Raise ValueError
  else check_fields _schema data 0%nat.

End RowClassPy.

(** ** Rows that conform to a schema *)

(** A value fits a field when it is [None] and the field is nullable, or it
    has the field's declared type: a bool for BOOLEAN, a 64-bit signed int
    for INTEGER, a float for FLOAT, and for VARCHAR a string whose UTF-8
    encoding exists and has at most 65,535 bytes. *)
Definition field_conforms (f : string * field_info) (v : value) : Prop :=
  match v with
  | VNone => nullable (snd f) = true
  | VBool _ => ftype (snd f) = "BOOLEAN"%string
  | VInt z => ftype (snd f) = "INTEGER"%string /\ - 2 ^ 63 <= z < 2 ^ 63
  | VFloat bits => ftype (snd f) = "FLOAT"%string /\ 0 <= bits < 2 ^ 64
  | VStr s =>
      ftype (snd f) = "VARCHAR"%string /\
      match utf8_encode s with
      | Ok u => len u <= 65535
      | Raise _ => False
      end
  end.

(** The row has the schema's arity and each value fits its field, in
    order. *)
Definition conforms (S : schema) (r : Row) : Prop := Forall2 field_conforms S r.

(** ** [hadrodb/engine.py]: the log engine *)

Module Engine.

Definition DELETED_FLAG : Z := 1.

(** The default read-buffer size of [scan]: [8 * 1024 * 1024]. *)
Definition BLOCK_SIZE : Z := 8 * 1024 * 1024.

(** Where a key's record lies in the file. *)
Record KeyEntry : Type := { position : Z; total_size : Z }.

(** The engine object.  [file] is the content of the data file, [synced]
    the length of the prefix that an [fsync] is known to have covered. *)
Record HadroDB : Type := {
  file : bytes;
  synced : Z;
  write_position : Z;
  key_dir : gmap string KeyEntry
}.

(** What the collection path names when the engine is opened: nothing, a
    regular file, or a folder, which may hold a data file already. *)
Inductive path_state : Type :=
| Absent
| RegularFile
| Folder (data_file : option bytes).

(** The schema that [__init__] builds its row class from
    ([self.rows = Row.create_class(schema)]).  The row class of
    [record.py] keeps it in [_schema] and never reads it. *)
Definition init_schema : schema :=
  [ ("id"%string, {| ftype := "SMALLINT"; nullable := false |});
    ("planetId"%string, {| ftype := "SMALLINT"; nullable := false |});
    ("name"%string, {| ftype := "VARCHAR"; nullable := false |});
    ("gm"%string, {| ftype := "FLOAT"; nullable := false |});
    ("radius"%string, {| ftype := "FLOAT"; nullable := false |});
    ("density"%string, {| ftype := "FLOAT"; nullable := true |});
    ("magnitude"%string, {| ftype := "FLOAT"; nullable := true |});
    ("albedo"%string, {| ftype := "FLOAT"; nullable := true |}) ].

(** The engine object over a data file of content [log], as [__init__]
    builds it. *)
Definition opened (log : bytes) : HadroDB :=
  {| file := log; synced := len log; write_position := 0; key_dir := ∅ |}.

(** [HadroDB.__init__(collection)].  The call of [_init_key_dir] is
    commented out in the source: [key_dir] starts empty and
    [write_position] at 0, whatever the data file holds.  With
    [collection = None] the string concatenation of the second statement
    fails before the check is reached. *)
Definition init (collection : option string) (fs : path_state) : result HadroDB :=
  match collection with
  | None => Raise TypeError
  | Some _ =>
      match fs with
      | RegularFile => Raise ValueError
      | Absent | Folder None =>
          Ok {| file := []; synced := 0; write_position := 0; key_dir := ∅ |}
      | Folder (Some log) => Ok (opened log)
      end
  end.

(** The engine just after [HadroDB("c")] on a path that does not exist. *)
Definition fresh : HadroDB :=
  {| file := []; synced := 0; write_position := 0; key_dir := ∅ |}.

(** A data file that ends in the middle of a header: the frame of the row
    [(1,)] and two more bytes. *)
Definition truncated_log : bytes :=
  [x00; x00; x00; x00; x02; b8 0x91; b8 1; x00; x00].

(** [HadroDB._init_key_dir]: its loop condition reads [HEADER_SIZE], a
    name that no module defines. *)
Definition _init_key_dir (self : HadroDB) : result HadroDB := Raise NameError.

(** [HadroDB._write(data)].  The file is open in append mode, so the bytes
    go to its end.  [aggressive] stands for
    [WRITE_CONSISTENCY == ConsistencyMode.AGGRESSIVE]. *)
Definition _write (aggressive : bool) (self : HadroDB) (data : bytes) : HadroDB :=
  let file' := file self ++ data in
  {| file := file';
     synced := if aggressive then len file' else synced self;
     write_position := write_position self;
     key_dir := key_dir self |}.

(** The argument of [append]: a dict, a sequence, or a mapping that is not
    a dict (a [types.MappingProxyType], a [collections.abc.Mapping] of
    one's own), given by its items in iteration order. *)
Inductive record : Type :=
| RDict (items : list (string * value))
| RSeq (items : list value)
| RMapping (items : list (value * value)).

(** The tuple that [append] makes of its argument: of [record.values()]
    for a dict, of the record itself otherwise.  Only [isinstance(record,
    dict)] takes the first branch; [tuple(...)] of any other mapping
    iterates it, which gives its keys. *)
Definition record_values (rec : record) : list value :=
  match rec with
  | RDict items => map snd items
  | RSeq items => items
  | RMapping items => map fst items
  end.

(** [HadroDB.append(record)]: the new engine state and the value
    returned, which is [None]. *)
Definition append (aggressive : bool) (self : HadroDB) (rec : record)
  : result (HadroDB * value) :=
  let _record := record_values rec in
  bytes_to_write ← RecordPy.to_bytes _record;
  let self := _write aggressive self bytes_to_write in
  Ok ({| file := file self;
         synced := synced self;
         write_position := write_position self + len bytes_to_write;
         key_dir := key_dir self |}, VNone).

(** [buffer.read(n)] on the unread rest of the file: the bytes read and
    what remains.  [n = -1] reads to the end, a smaller [n] is a
    ValueError. *)
Definition buffer_read (n : Z) (rest : bytes) : result (bytes * bytes) :=
  if n <? -1 then Raise ValueError
  else if n =? -1 then Ok (rest, [])
  else Ok (take (Z.to_nat n) rest, drop (Z.to_nat n) rest).

(** [struct.unpack(">BI", header_bytes)]. *)
Definition unpack_BI (header_bytes : bytes) : result (Z * Z) :=
  match header_bytes with
  | [f; s3; s2; s1; s0] => Ok (u8 f, be_int [s3; s2; s1; s0])
  | _ => Raise StructError
  end.

(** How a run of the generator ends: it returns, it raises, or the model
    ran out of [fuel] (the loop of the source may not end). *)
Inductive halt : Type :=
| Return
| Raises (e : exn)
| NoFuel.

(** The inner [while remaining_size > 0] loop. *)
Fixpoint read_spanning (fuel : nat) (block_size remaining_size : Z)
    (data_bytes buffer : bytes) (block_start : Z)
  : option (result (bytes * bytes * Z)) :=
  if remaining_size >? 0 then
    match fuel with
    | O => None
    | S fuel' =>
        match buffer_read (Z.min remaining_size block_size) buffer with
        | Raise e => Some (Raise e)
        | Ok (block_bytes, buffer') =>
            read_spanning fuel' block_size (remaining_size - len block_bytes)
              (data_bytes ++ block_bytes) buffer' (len block_bytes)
        end
    end
  else Some (Ok (data_bytes, buffer, block_start)).

(** The body of the outer loop up to the [yield]: the record's bytes, the
    rest of the file and the new [block_start]. *)
Definition read_record (fuel : nat) (block_size size : Z) (buffer : bytes)
    (block_start : Z) : option (result (bytes * bytes * Z)) :=
  if block_start + size >? block_size then
    let remaining_size := size - (block_size - block_start) in
    match buffer_read (block_size - block_start) buffer with
    | Raise e => Some (Raise e)
    | Ok (data_bytes, buffer') =>
        read_spanning fuel block_size remaining_size data_bytes buffer' block_start
    end
  else
    match buffer_read size buffer with
    | Raise e => Some (Raise e)
    | Ok (data_bytes, buffer') => Some (Ok (data_bytes, buffer', block_start + size))
    end.

(** The outer [while size > 0] loop: the rows yielded and how the run
    ends. *)
Fixpoint scan_loop (fuel : nat) (strict : bool) (block_size : Z)
    (flags size : Z) (buffer : bytes) (block_start : Z) : list Row * halt :=
  if size >? 0 then
    match fuel with
    | O => ([], NoFuel)
    | S fuel' =>
        match read_record fuel' block_size size buffer block_start with
        | None => ([], NoFuel)
        | Some (Raise e) => ([], Raises e)
        | Some (Ok (data_bytes, buffer', block_start')) =>
            let next : list Row * halt :=
              match buffer_read 5 buffer' with
              | Raise e => ([], Raises e)
              | Ok (header_bytes, buffer'') =>
                  if len header_bytes =? 0 then ([], Return)
                  else
                    match unpack_BI header_bytes with
                    | Raise e => ([], Raises e)
                    | Ok (flags', size') =>
                        scan_loop fuel' strict block_size flags' size' buffer''
                          (block_start' + 5)
                    end
              end in
            if Z.land flags DELETED_FLAG =? 0 then
              match RecordPy.from_bytes strict data_bytes with
              | Raise e => ([], Raises e)
              | Ok row => (row :: fst next, snd next)
              end
            else next
        end
    end
  else ([], Return).

(** [HadroDB.scan()] with the read-buffer size as a parameter. *)
Definition scan_with (block_size : Z) (fuel : nat) (strict : bool)
    (self : HadroDB) : list Row * halt :=
  match buffer_read 5 (file self) with
  | Raise e => ([], Raises e)
  | Ok (header_bytes, buffer) =>
      match unpack_BI header_bytes with
      | Raise e => ([], Raises e)
      | Ok (flags, size) => scan_loop fuel strict block_size flags size buffer 5
      end
  end.

(** [HadroDB.scan()]. *)
Definition scan (fuel : nat) (strict : bool) (self : HadroDB) : list Row * halt :=
  scan_with BLOCK_SIZE fuel strict self.

End Engine.

(** ** Logs as sequences of frames *)

(** A frame of the log: flags, payload length, payload. *)
Definition frame_bytes (fr : Z * bytes) : bytes :=
  b8 (fst fr) :: be_bytes 4 (len (snd fr)) ++ snd fr.

(** The log that holds the frames [frames], in order. *)
Definition log_of (frames : list (Z * bytes)) : bytes :=
  concat (map frame_bytes frames).

(** The frame is well formed, has a payload, and, when its deleted bit is
    clear, its payload decodes. *)
Definition frame_ok (strict : bool) (fr : Z * bytes) : Prop :=
  0 <= fst fr < 256 /\ 0 < len (snd fr) < 2 ^ 32 /\
  (Z.land (fst fr) Engine.DELETED_FLAG = 0 ->
   is_ok (RecordPy.from_bytes strict (snd fr)) = true).

(** The rows of the frames whose deleted bit is clear, in order. *)
Fixpoint live_rows (strict : bool) (frames : list (Z * bytes)) : list Row :=
  match frames with
  | [] => []
  | (flags, payload) :: rest =>
      if Z.land flags Engine.DELETED_FLAG =? 0 then
        match RecordPy.from_bytes strict payload with
        | Ok row => row :: live_rows strict rest
        | Raise _ => live_rows strict rest
        end
      else live_rows strict rest
  end.

(** The value of [block_start] after a record of [size] bytes has been read:
    past the end of the record when it fits the buffer, otherwise the length
    of the last block read. *)
Definition next_block_start (block_size block_start size : Z) : Z :=
  if block_start + size >? block_size then
    (size - (block_size - block_start) - 1) mod block_size + 1
  else block_start + size.

(** Every record of [frames] starts with [block_start] inside the read
    buffer, the first at [block_start]. *)
Fixpoint starts_inside (block_size block_start : Z) (frames : list (Z * bytes))
  : Prop :=
  match frames with
  | [] => True
  | fr :: rest =>
      0 <= block_start <= block_size /\
      starts_inside block_size
        (next_block_start block_size block_start (len (snd fr)) + 5) rest
  end.

(** ** Point operations: [set], [get], [delete]

    [HadroDB.__setitem__] and [HadroDB.__getitem__] call [self.set] and
    [self.get], which no file of the repository defines.  The definitions of
    this module follow the specification (sections 3, 4.2 and 4.4) over the
    engine state of the source. *)

Module SpecKV.

(** Modelled from the spec: the schema validation of [set] is missing from
    the repository.  A value fits a field when it is the absent value and the
    field is nullable, or has the declared type. *)
Definition field_check (f : field_info) (v : value) : bool :=
  match v with
  | VNone => nullable f
  | VBool _ => String.eqb (ftype f) "BOOLEAN"
  | VInt z => String.eqb (ftype f) "INTEGER" && (- 2 ^ 63 <=? z) && (z <? 2 ^ 63)
  | VFloat bits => String.eqb (ftype f) "FLOAT" && (0 <=? bits) && (bits <? 2 ^ 64)
  | VStr s =>
      String.eqb (ftype f) "VARCHAR" &&
      match utf8_encode s with
      | Ok u => len u <=? 65535
      | Raise _ => false
      end
  end.

(** Modelled from the spec: the arity and order check of [set] is missing
    from the repository. *)
Fixpoint schema_check (S : schema) (r : Row) : bool :=
  match S, r with
  | [], [] => true
  | (_, f) :: S', v :: r' => field_check f v && schema_check S' r'
  | _, _ => false
  end.

(** Modelled from the spec: the frame [flags:u8 | payload_size:u32 | payload]. *)
Definition frame (flags : Z) (payload : bytes) : result bytes :=
  size_bytes ← int_to_bytes4 (len payload);
  Ok ([b8 flags] ++ size_bytes ++ payload).

(** Modelled from the spec: [read_at(offset, size)] of the Log Segment is
    missing from the repository; exactly [size] bytes from [offset], or
    ShortRead. *)
Definition read_at (log : bytes) (offset size : Z) : result bytes :=
  if offset + size <=? len log then
    Ok (take (Z.to_nat size) (drop (Z.to_nat offset) log))
  else Raise ShortRead.

(** Modelled from the spec: [set(key, row)] is missing from the repository.
    It validates the row, encodes it, wraps it in a frame with flags 0,
    appends the frame, then points the KeyDir entry of the key at the offset
    where the write began. *)
Definition set (S : schema) (aggressive : bool) (self : Engine.HadroDB)
    (key : string) (row : Row) : result Engine.HadroDB :=
  if negb (schema_check S row) then Raise SchemaMismatch
  else
    payload ← match packb row with
              | Ok p => Ok p
              | Raise _ => Raise SchemaMismatch
              end;
    fr ← frame 0 payload;
    let offset := len (Engine.file self) in
    let self' := Engine._write aggressive self fr in
    Ok {| Engine.file := Engine.file self';
          Engine.synced := Engine.synced self';
          Engine.write_position := offset + len fr;
          Engine.key_dir :=
            <[key := {| Engine.position := offset; Engine.total_size := len payload |}]>
              (Engine.key_dir self') |}.

(** Modelled from the spec: [get(key)] is missing from the repository.  A
    KeyDir miss is KeyNotFound; on a hit the frame region is read and its
    payload decoded. *)
Definition get (self : Engine.HadroDB) (key : string) : result Row :=
  match Engine.key_dir self !! key with
  | None => Raise KeyNotFound
  | Some e =>
      fr ← read_at (Engine.file self) (Engine.position e) (5 + Engine.total_size e);
      match RecordPy.from_bytes true (drop 5 fr) with
      | Ok row => Ok row
      | Raise _ => Raise CorruptRecord
      end
  end.

(** Modelled from the spec: [delete(key)] is missing from the repository.
    It appends a tombstone frame that carries the key, then removes the
    KeyDir entry; for an absent key the tombstone is appended all the same. *)
Definition delete (aggressive : bool) (self : Engine.HadroDB) (key : string)
  : result Engine.HadroDB :=
  fr ← frame Engine.DELETED_FLAG (list_byte_of_string key);
  let offset := len (Engine.file self) in
  let self' := Engine._write aggressive self fr in
  Ok {| Engine.file := Engine.file self';
        Engine.synced := Engine.synced self';
        Engine.write_position := offset + len fr;
        Engine.key_dir := base.delete key (Engine.key_dir self') |}.

(** A mutating operation and the key it is about. *)
Inductive op : Type :=
| OSet (key : string) (row : Row)
| ODelete (key : string).

Definition op_key (o : op) : string :=
  match o with
  | OSet key _ => key
  | ODelete key => key
  end.

(** One operation; an operation that fails leaves the engine as it was. *)
Definition step (S : schema) (aggressive : bool) (self : Engine.HadroDB) (o : op)
  : Engine.HadroDB :=
  match (match o with
         | OSet key row => set S aggressive self key row
         | ODelete key => delete aggressive self key
         end) with
  | Ok self' => self'
  | Raise _ => self
  end.

(** A sequence of operations, in order. *)
Definition run (S : schema) (aggressive : bool) (self : Engine.HadroDB)
    (ops : list op) : Engine.HadroDB :=
  fold_left (step S aggressive) ops self.

(** What [get] needs of an engine to return [v] for [k]: the KeyDir entry
    of [k] points at a frame of the file whose payload decodes to [v]. *)
Definition holds (self : Engine.HadroDB) (k : string) (v : Row) : Prop :=
  exists e payload,
    Engine.key_dir self !! k = Some e /\
    0 <= Engine.position e /\
    Engine.total_size e = len payload /\
    read_at (Engine.file self) (Engine.position e) (5 + len payload)
    = Ok ([b8 0] ++ be_bytes 4 (len payload) ++ payload) /\
    RecordPy.from_bytes true payload = Ok v.

End SpecKV.

(** ** Sequences of engine calls *)

(** [append] called on each record of [recs] in turn; the first exception
    ends the sequence. *)
Fixpoint append_many (aggressive : bool) (self : Engine.HadroDB)
    (recs : list Engine.record) : result Engine.HadroDB :=
  match recs with
  | [] => Ok self
  | rec :: rest =>
      '(self', _) ← Engine.append aggressive self rec;
      append_many aggressive self' rest
  end.

(** [HadroDB.close()]: flush, [os.fsync], close the file. *)
Definition close (self : Engine.HadroDB) : Engine.HadroDB :=
  {| Engine.file := Engine.file self;
     Engine.synced := len (Engine.file self);
     Engine.write_position := Engine.write_position self;
     Engine.key_dir := Engine.key_dir self |}.

(** [HadroDB.__len__()]: [len(self.key_dir)]. *)
Definition __len__ (self : Engine.HadroDB) : Z := Z.of_nat (size (Engine.key_dir self)).

(** ** Sizes in the fixed-width codec *)

(** The bytes that a field without presence byte takes: the [size] of
    [TYPE_DICT], nothing for a type that has no entry. *)
Definition field_width (f : string * field_info) : Z :=
  match RowClassPy.TYPE_DICT (ftype (snd f)) with
  | Some (_, size) => size
  | None => 0
  end.

(** The sum of the field widths of a schema. *)
Definition schema_width (S : schema) : Z :=
  fold_right (fun f acc => field_width f + acc) 0 S.

(** The field is not nullable and is not a VARCHAR. *)
Definition fixed_field (f : string * field_info) : Prop :=
  nullable (snd f) = false /\ ftype (snd f) <> "VARCHAR"%string.

(** ** What the fixed-width codec stores *)

(** The value that [Row.from_bytes] reads back for a value that
    [Row.to_bytes] has written into a field: [">?"] keeps the truth value
    of whatever it was given, [">q"] turns a bool into 0 or 1. *)
Definition stored_value (field_type : field_info) (v : value) : value :=
  match v, nullable field_type with
  | VNone, true => VNone
  | _, _ =>
      if String.eqb (ftype field_type) "BOOLEAN" then VBool (RowClassPy.truthy v)
      else if String.eqb (ftype field_type) "INTEGER" then
        match v with
        | VBool b => VInt (if b then 1 else 0)
        | _ => v
        end
      else v
  end.

Definition stored_row (S : schema) (r : Row) : Row :=
  zip_with (fun f v => stored_value (snd f) v) S r.

(** A field that must hold a value of a type the codec has no format
    for. *)
Definition unsupported_field (f : string * field_info) : Prop :=
  nullable (snd f) = false /\
  ftype (snd f) <> "VARCHAR"%string /\
  RowClassPy.TYPE_DICT (ftype (snd f)) = None.


(** ** The end of the loop body of [scan] *)

(** What [scan] does after a record has been handled, with [buffer] the
    unread rest of the file: read the next header, end on an empty read,
    otherwise unpack it and run the loop on.  This is the [next] of
    [Engine.scan_loop] under a name. *)
Definition next_record (fuel : nat) (strict : bool) (block_size : Z)
    (buffer : bytes) (block_start : Z) : list Row * Engine.halt :=
  match Engine.buffer_read 5 buffer with
  | Raise e => ([], Engine.Raises e)
  | Ok (header_bytes, buffer'') =>
      if len header_bytes =? 0 then ([], Engine.Return)
      else
        match Engine.unpack_BI header_bytes with
        | Raise e => ([], Engine.Raises e)
        | Ok (flags', size') =>
            Engine.scan_loop fuel strict block_size flags' size' buffer''
              (block_start + 5)
        end
  end.


(** ** [R&D/row_class.py]: [check_dict_schema] *)

(** [check_dict_schema(input_dict, schema)].  As in [check_tuple_schema],
    the schema names its types by strings, so the [isinstance] test of a
    value that is not [None] is a TypeError. *)
Fixpoint check_dict_schema (input_dict : gmap string value) (_schema : schema)
  : result bool :=
  match _schema with
  | [] => Ok true
  | (key, schema_info) :: rest =>
      match input_dict !! key with
      | None =>
          if nullable schema_info then check_dict_schema input_dict rest
          else Ok false
      | Some VNone => check_dict_schema input_dict rest
      | Some _ => Raise TypeError
      end
  end.

(** ** [Row.as_dict] *)

(** [d[k] = v] on a dict kept as the list of its items in insertion order:
    a key that is there keeps its place. *)
Fixpoint dict_set (d : list (string * value)) (k : string) (v : value)
  : list (string * value) :=
  match d with
  | [] => [(k, v)]
  | (k', v') :: rest =>
      if String.eqb k' k then (k', v) :: rest else (k', v') :: dict_set rest k v
  end.

(** The dict comprehension [{k: v for k, v in zip(self._fields, self)}],
    from the dict [d] built so far. *)
Fixpoint as_dict_loop (d : list (string * value)) (_fields : list string)
    (self : Row) : list (string * value) :=
  match _fields, self with
  | k :: fields', v :: self' => as_dict_loop (dict_set d k v) fields' self'
  | _, _ => d
  end.

(** [Row.as_dict] for a row class with field names [_fields]. *)
Definition as_dict (_fields : list string) (self : Row) : list (string * value) :=
  as_dict_loop [] _fields self.

(** [Row.create_class(schema)._fields]: [[field for field in schema]]. *)
Definition create_class_fields (_schema : schema) : list string := map fst _schema.


(** ** Decoders that read a prefix of their input *)

(** The decoder [f] on input [p]: when it succeeds, it gives the same
    value on every extension of [p] and leaves the extension unread; when
    it fails, it ran out of input or met bad bytes (MsgpackDecodeError), or
    met a tag outside the model, which every extension shares. *)
Definition ext_stable {A : Type} (f : bytes -> result (A * bytes)) (p : bytes)
  : Prop :=
  match f p with
  | Ok (a, r) => forall ext, f (p ++ ext) = Ok (a, r ++ ext)
  | Raise e =>
      e = MsgpackDecodeError \/
      (e = OutsideModel /\ forall ext, f (p ++ ext) = Raise OutsideModel)
  end.


(** ** Python's [==] on the values of a row *)

(** A bool or an int as an integer: [True == 1] and [False == 0]. *)
Definition as_int (v : value) : option Z :=
  match v with
  | VBool b => Some (if b then 1 else 0)
  | VInt z => Some z
  | _ => None
  end.

(** The fields of a binary64 bit pattern: NaN has exponent field 2047 and
    a mantissa that is not 0; the two zeros have all bits clear below the
    sign. *)
Definition float_is_nan (bits : Z) : bool :=
  ((bits / 2 ^ 52) mod 2 ^ 11 =? 2047) && negb (bits mod 2 ^ 52 =? 0).

Definition float_is_zero (bits : Z) : bool := bits mod 2 ^ 63 =? 0.

(** The integer that a float is equal to, when there is one: the float is
    [M * 2^E], with the sign of bit 63, and Python compares it with an int
    exactly. *)
Definition float_as_int (bits : Z) : option Z :=
  let e := (bits / 2 ^ 52) mod 2 ^ 11 in
  let m := bits mod 2 ^ 52 in
  if e =? 2047 then None
  else
    let M := if e =? 0 then m else 2 ^ 52 + m in
    let E := (if e =? 0 then 1 else e) - 1075 in
    let magnitude :=
      if 0 <=? E then Some (M * 2 ^ E)
      else if M mod 2 ^ (- E) =? 0 then Some (M / 2 ^ (- E))
      else None in
    match magnitude with
    | Some a => Some (if bits / 2 ^ 63 =? 0 then a else - a)
    | None => None
    end.

(** [a == b] for two values: numbers compare by value across [bool], [int]
    and [float], so [1 == True] and [1 == 1.0]; [0.0 == -0.0]; NaN is equal
    to nothing; [None] and strings are equal to their like only. *)
Definition py_eq (a b : value) : bool :=
  match a, b with
  | VNone, VNone => true
  | VStr s, VStr t => bool_decide (s = t)
  | VFloat x, VFloat y =>
      negb (float_is_nan x) && negb (float_is_nan y) &&
      ((x =? y) || (float_is_zero x && float_is_zero y))
  | VFloat x, _ =>
      match float_as_int x, as_int b with
      | Some z, Some n => z =? n
      | _, _ => false
      end
  | _, VFloat y =>
      match as_int a, float_as_int y with
      | Some n, Some z => n =? z
      | _, _ => false
      end
  | _, _ =>
      match as_int a, as_int b with
      | Some m, Some n => m =? n
      | _, _ => false
      end
  end.

(** [tuple(a) == tuple(b)]: the same length and equal items, in order.
    (An item that is one and the same object on both sides is equal
    without being compared; the values here are compared as [==] does.) *)
Fixpoint tuple_eq (a b : list value) : bool :=
  match a, b with
  | [], [] => true
  | x :: a', y :: b' => py_eq x y && tuple_eq a' b'
  | _, _ => false
  end.

(** ** Basic facts on bytes *)

Lemma u8_range (b : byte) : 0 <= u8 b < 256.
Proof.
  unfold u8. pose proof (Byte.to_N_bounded b). lia.
Qed.

Lemma u8_b8 (z : Z) : u8 (b8 z) = z mod 256.
Proof.
  unfold u8, b8.
  assert (Hr : 0 <= z mod 256 < 256) by (apply Z.mod_pos_bound; lia).
  destruct (Byte.of_N (Z.to_N (z mod 256))) as [b|] eqn:E.
  - apply Byte.to_of_N in E. rewrite E. lia.
  - apply Byte.of_N_None_iff in E. lia.
Qed.

Lemma u8_b8_small (z : Z) : 0 <= z < 256 -> u8 (b8 z) = z.
Proof. intros H. rewrite u8_b8. apply Z.mod_small. exact H. Qed.

Lemma b8_u8 (b : byte) : b8 (u8 b) = b.
Proof.
  unfold b8, u8. pose proof (Byte.to_N_bounded b) as Hb.
  rewrite Z.mod_small by lia.
  rewrite N2Z.id, Byte.of_to_N. reflexivity.
Qed.

Lemma len_app {A : Type} (l k : list A) : len (l ++ k) = len l + len k.
Proof. unfold len. rewrite length_app. lia. Qed.

Lemma len_nonneg {A : Type} (l : list A) : 0 <= len l.
Proof. unfold len. lia. Qed.

Lemma length_be_bytes (n : nat) (z : Z) : length (be_bytes n z) = n.
Proof. induction n as [|k IH]; simpl; [reflexivity | now rewrite IH]. Qed.

Lemma len_be_bytes (n : nat) (z : Z) : len (be_bytes n z) = Z.of_nat n.
Proof. unfold len. now rewrite length_be_bytes. Qed.

Lemma len_cons {A : Type} (x : A) (l : list A) : len (x :: l) = 1 + len l.
Proof. unfold len. simpl length. lia. Qed.

Lemma len_nil {A : Type} : len (@nil A) = 0.
Proof. reflexivity. Qed.

Lemma be_int_app (bs : bytes) (b : byte) :
  be_int (bs ++ [b]) = be_int bs * 256 + u8 b.
Proof. unfold be_int. rewrite fold_left_app. reflexivity. Qed.

Lemma fold_be_acc (bs : bytes) (a : Z) :
  fold_left (fun acc b => acc * 256 + u8 b) bs a
  = a * 256 ^ len bs + be_int bs.
Proof.
  revert a. induction bs as [|b bs IH]; intros a.
  - unfold be_int, len. simpl. lia.
  - unfold be_int. simpl fold_left. rewrite IH, (IH (0 * 256 + u8 b)).
    unfold len. simpl length. rewrite Nat2Z.inj_succ, Z.pow_succ_r by lia. lia.
Qed.

Lemma be_int_cons (b : byte) (bs : bytes) :
  be_int (b :: bs) = u8 b * 256 ^ len bs + be_int bs.
Proof. unfold be_int at 1. simpl fold_left. rewrite fold_be_acc. lia. Qed.

Lemma be_int_range (bs : bytes) : 0 <= be_int bs < 256 ^ len bs.
Proof.
  induction bs as [|b bs IH].
  - unfold be_int, len. simpl. lia.
  - rewrite be_int_cons. pose proof (u8_range b).
    unfold len in *. simpl length. rewrite Nat2Z.inj_succ, Z.pow_succ_r by lia.
    nia.
Qed.

(** Reading back [n] big-endian digits gives [z mod 256^n]. *)
Lemma be_int_be_bytes_mod (n : nat) (z : Z) :
  be_int (be_bytes n z) = z mod 256 ^ Z.of_nat n.
Proof.
  induction n as [|k IH].
  - simpl. unfold be_int. simpl. now rewrite Z.mod_1_r.
  - simpl be_bytes. rewrite be_int_cons, u8_b8, IH.
    unfold len. rewrite length_be_bytes.
    rewrite Nat2Z.inj_succ, Z.pow_succ_r by lia.
    set (p := 256 ^ Z.of_nat k). assert (Hp : 0 < p) by (apply Z.pow_pos_nonneg; lia).
    rewrite (Z.mul_comm 256 p), Z.rem_mul_r by lia. lia.
Qed.

Lemma be_int_be_bytes (n : nat) (z : Z) :
  0 <= z < 256 ^ Z.of_nat n -> be_int (be_bytes n z) = z.
Proof. intros H. rewrite be_int_be_bytes_mod. now apply Z.mod_small. Qed.

(** * Properties *)

(** ** The frame header *)

Lemma unpack_BI_header (flags n : Z) :
  0 <= flags < 256 -> 0 <= n < 2 ^ 32 ->
  Engine.unpack_BI (b8 flags :: be_bytes 4 n) = Ok (flags, n).
Proof.
  intros Hf Hn.
  change (be_bytes 4 n) with
    [b8 (n / 256 ^ 3); b8 (n / 256 ^ 2); b8 (n / 256 ^ 1); b8 (n / 256 ^ 0)].
  unfold Engine.unpack_BI.
  rewrite u8_b8_small by exact Hf.
  change [b8 (n / 256 ^ 3); b8 (n / 256 ^ 2); b8 (n / 256 ^ 1); b8 (n / 256 ^ 0)]
    with (be_bytes 4 n).
  rewrite be_int_be_bytes; [reflexivity|].
  change (256 ^ Z.of_nat 4) with (2 ^ 32). exact Hn.
Qed.

Lemma buffer_read_app (h r : bytes) :
  Engine.buffer_read (len h) (h ++ r) = Ok (h, r).
Proof.
  unfold Engine.buffer_read, len.
  destruct (Z.ltb_spec (Z.of_nat (length h)) (-1)); [lia|].
  destruct (Z.eqb_spec (Z.of_nat (length h)) (-1)); [lia|].
  rewrite Nat2Z.id, take_app_length, drop_app_length. reflexivity.
Qed.

Lemma to_bytes_eq (r : Row) (payload : bytes) :
  packb r = Ok payload -> len payload < 2 ^ 32 ->
  RecordPy.to_bytes r = Ok (x00 :: be_bytes 4 (len payload) ++ payload).
Proof.
  intros Hp Hl. unfold RecordPy.to_bytes. rewrite Hp. simpl.
  unfold int_to_bytes4.
  pose proof (len_nonneg payload).
  destruct (Z.leb_spec 0 (len payload)); [|lia].
  destruct (Z.ltb_spec (len payload) (2 ^ 32)); [|lia].
  reflexivity.
Qed.



(** ** [append] *)

Lemma append_eq (aggressive : bool) (self : Engine.HadroDB) (rec : Engine.record)
    (frame : bytes) :
  RecordPy.to_bytes (Engine.record_values rec) = Ok frame ->
  Engine.append aggressive self rec
  = Ok ({| Engine.file := Engine.file self ++ frame;
           Engine.synced := if aggressive then len (Engine.file self ++ frame)
                            else Engine.synced self;
           Engine.write_position := Engine.write_position self + len frame;
           Engine.key_dir := Engine.key_dir self |}, VNone).
Proof.
  intros H. unfold Engine.append. rewrite H. reflexivity.
Qed.

(** C9, as stated, fails: on a new engine the first write begins at offset
    0, and [append] does not return 0; it returns [None]. *)
Lemma append_does_not_return_offset :
  Engine.init (Some "c"%string) Engine.Absent = Ok Engine.fresh /\
  len (Engine.file Engine.fresh) = 0 /\
  ~ (exists self', Engine.append false Engine.fresh (Engine.RSeq []) = Ok (self', VInt 0)).
Proof.
  split; [reflexivity|]. split; [reflexivity|].
  intros [self' H]. vm_compute in H. discriminate H.
Qed.

(** C9, amended.  For every record whose row encodes to a payload shorter
    than [2^32] bytes, [append] writes exactly the frame (5 header bytes and
    the payload) at the end of the file, returns [None], and advances
    [write_position] by the length of the frame. *)
Theorem append_writes_frame (aggressive : bool) (self : Engine.HadroDB)
    (rec : Engine.record) (payload : bytes) :
  packb (Engine.record_values rec) = Ok payload -> len payload < 2 ^ 32 ->
  exists self' frame,
    Engine.append aggressive self rec = Ok (self', VNone) /\
    RecordPy.to_bytes (Engine.record_values rec) = Ok frame /\
    Engine.file self' = Engine.file self ++ frame /\
    take (length (Engine.file self)) (Engine.file self') = Engine.file self /\
    drop (length (Engine.file self)) (Engine.file self') = frame /\
    len (Engine.file self') = len (Engine.file self) + len frame /\
    len frame = 5 + len payload /\
    Engine.write_position self' = Engine.write_position self + len frame /\
    Engine.key_dir self' = Engine.key_dir self.
Proof.
  intros Hp Hl.
  pose proof (to_bytes_eq _ _ Hp Hl) as Hf.
  eexists _, _. split; [apply append_eq; exact Hf|].
  cbn [Engine.file Engine.write_position Engine.key_dir].
  split; [exact Hf|]. split; [reflexivity|].
  split; [apply take_app_length|]. split; [apply drop_app_length|].
  split; [apply len_app|].
  split; [rewrite len_cons, len_app, len_be_bytes; lia|].
  split; reflexivity.
Qed.

Lemma append_writes_frame_witness :
  exists self' frame,
    Engine.append true Engine.fresh (Engine.RSeq [VInt 7]) = Ok (self', VNone) /\
    RecordPy.to_bytes [VInt 7] = Ok frame /\
    Engine.file self' = [] ++ frame /\
    take 0 (Engine.file self') = [] /\
    drop 0 (Engine.file self') = frame /\
    len (Engine.file self') = 0 + len frame /\
    len frame = 5 + len [b8 0x91; b8 7] /\
    Engine.write_position self' = 0 + len frame /\
    Engine.key_dir self' = ∅.
Proof.
  apply (append_writes_frame true Engine.fresh (Engine.RSeq [VInt 7]) [b8 0x91; b8 7]).
  - reflexivity.
  - vm_compute. reflexivity.
Defined.

(** C10, as amended.  [append] takes a dict or a sequence.  For a dict the
    row is the dict's values in insertion order, the keys dropped; a dict
    and a sequence that hold the very same values in the same order (the
    same type and the same value, floats bit for bit) make [append] write
    the same bytes (and end in the same state). *)
Theorem append_dict_as_values (aggressive : bool) (self : Engine.HadroDB)
    (d : list (string * value)) (s : list value) :
  map snd d = s ->
  Engine.record_values (Engine.RDict d) = map snd d /\
  Engine.append aggressive self (Engine.RDict d)
  = Engine.append aggressive self (Engine.RSeq s) /\
  (forall frame, RecordPy.to_bytes s = Ok frame ->
     exists sd ss,
       Engine.append aggressive self (Engine.RDict d) = Ok (sd, VNone) /\
       Engine.append aggressive self (Engine.RSeq s) = Ok (ss, VNone) /\
       Engine.file sd = Engine.file self ++ frame /\
       Engine.file ss = Engine.file self ++ frame).
Proof.
  intros <-. split; [reflexivity|]. split; [reflexivity|].
  intros frame Hf. eexists _, _.
  split; [apply append_eq; exact Hf|].
  split; [apply append_eq; exact Hf|].
  split; reflexivity.
Qed.

Lemma append_dict_as_values_witness :
  Engine.record_values (Engine.RDict [("id"%string, VInt 1); ("name"%string, VNone)])
  = map snd [("id"%string, VInt 1); ("name"%string, VNone)] /\
  Engine.append false Engine.fresh
    (Engine.RDict [("id"%string, VInt 1); ("name"%string, VNone)])
  = Engine.append false Engine.fresh (Engine.RSeq [VInt 1; VNone]) /\
  (forall frame, RecordPy.to_bytes [VInt 1; VNone] = Ok frame ->
     exists sd ss,
       Engine.append false Engine.fresh
         (Engine.RDict [("id"%string, VInt 1); ("name"%string, VNone)]) = Ok (sd, VNone) /\
       Engine.append false Engine.fresh (Engine.RSeq [VInt 1; VNone]) = Ok (ss, VNone) /\
       Engine.file sd = Engine.file Engine.fresh ++ frame /\
       Engine.file ss = Engine.file Engine.fresh ++ frame).
Proof.
  apply (append_dict_as_values false Engine.fresh
           [("id"%string, VInt 1); ("name"%string, VNone)] [VInt 1; VNone]).
  reflexivity.
Defined.

(** C10, at the failing inputs.  Python's [==] on tuples is not identity of
    the values.  For the dict [{"a": 1}] and the sequence [(True,)],
    [tuple(d.values()) == tuple(s)] holds, and [append] writes [91 01] for
    the one and [91 c3] for the other; the same for [{"a": 0.0}] and
    [(-0.0,)].  And a mapping that is not a dict is not replaced by its
    values: for the mapping with the one item ["a": 1], whose values equal
    [(1,)], [append] writes the key. *)
Lemma append_equal_tuples_differ :
  (tuple_eq (Engine.record_values (Engine.RDict [("a"%string, VInt 1)]))
     [VBool true] = true /\
   exists sd ss,
     Engine.append false Engine.fresh (Engine.RDict [("a"%string, VInt 1)])
     = Ok (sd, VNone) /\
     Engine.append false Engine.fresh (Engine.RSeq [VBool true]) = Ok (ss, VNone) /\
     Engine.file sd = [x00; x00; x00; x00; x02; b8 0x91; b8 0x01] /\
     Engine.file ss = [x00; x00; x00; x00; x02; b8 0x91; b8 0xc3] /\
     Engine.file sd <> Engine.file ss) /\
  (tuple_eq (Engine.record_values (Engine.RDict [("a"%string, VFloat 0)]))
     [VFloat (2 ^ 63)] = true /\
   exists sd ss,
     Engine.append false Engine.fresh (Engine.RDict [("a"%string, VFloat 0)])
     = Ok (sd, VNone) /\
     Engine.append false Engine.fresh (Engine.RSeq [VFloat (2 ^ 63)])
     = Ok (ss, VNone) /\
     Engine.file sd <> Engine.file ss) /\
  (tuple_eq (map snd [(VStr [97], VInt 1)]) [VInt 1] = true /\
   exists sm ss,
     Engine.append false Engine.fresh (Engine.RMapping [(VStr [97], VInt 1)])
     = Ok (sm, VNone) /\
     Engine.append false Engine.fresh (Engine.RSeq [VInt 1]) = Ok (ss, VNone) /\
     Engine.file sm = [x00; x00; x00; x00; x03; b8 0x91; b8 0xa1; b8 97] /\
     Engine.file ss = [x00; x00; x00; x00; x02; b8 0x91; b8 0x01] /\
     Engine.file sm <> Engine.file ss).
Proof.
  split; [|split].
  - split; [reflexivity|]. eexists _, _.
    split; [reflexivity|]. split; [reflexivity|].
    split; [reflexivity|]. split; [reflexivity|]. vm_compute. discriminate.
  - split; [vm_compute; reflexivity|]. eexists _, _.
    split; [reflexivity|]. split; [reflexivity|]. vm_compute. discriminate.
  - split; [reflexivity|]. eexists _, _.
    split; [reflexivity|]. split; [reflexivity|].
    split; [reflexivity|]. split; [reflexivity|]. vm_compute. discriminate.
Qed.

(** C7, at the failing input.  The row class of [record.py] checks nothing:
    the empty tuple (arity 0 against a schema of 8 fields), and a row with
    [None] in the non-nullable field [id] and a string in [planetId], are
    both encoded and written as frames, although [check_tuple_schema] rejects
    the first by its length. *)
Theorem append_writes_mismatched_rows :
  len (@nil value) <> len Engine.init_schema /\
  RowClassPy.check_tuple_schema [] Engine.init_schema = Raise ValueError /\
  (exists self',
     Engine.append false Engine.fresh (Engine.RSeq []) = Ok (self', VNone) /\
     Engine.file self' = [x00; x00; x00; x00; x01; b8 0x90]) /\
  (exists self',
     Engine.append false Engine.fresh (Engine.RSeq [VNone; VStr [120]]) = Ok (self', VNone) /\
     Engine.file self' = [x00; x00; x00; x00; x04; b8 0x92; b8 0xc0; b8 0xa1; b8 120]).
Proof.
  split; [vm_compute; discriminate|]. split; [reflexivity|].
  split; eexists; split; reflexivity.
Qed.

(** ** Opening a collection *)

(** C3, at the failing input.  Opening a folder whose data file already holds
    frames leaves [key_dir] empty and [write_position] at 0: no scan of the
    file is made. *)
Theorem init_leaves_key_dir_empty (c : string) (log : bytes) :
  exists self,
    Engine.init (Some c) (Engine.Folder (Some log)) = Ok self /\
    Engine.file self = log /\
    Engine.key_dir self = ∅ /\
    Engine.write_position self = 0 /\
    Engine._init_key_dir self = Raise NameError.
Proof.
  eexists. split; [reflexivity|]. repeat split.
Qed.

(** ** UTF-8 *)

Ltac zlia := Z.div_mod_to_equations; lia.

(** Decide the integer comparisons of the goal. *)
Ltac zbool :=
  repeat match goal with
  | |- context [?a <? ?b] => destruct (Z.ltb_spec a b); try zlia
  | |- context [?a <=? ?b] => destruct (Z.leb_spec a b); try zlia
  | |- context [?a =? ?b] => destruct (Z.eqb_spec a b); try zlia
  end.

Lemma utf8_decode_encode_cp (c : Z) (b rest : bytes) :
  utf8_encode_cp c = Ok b ->
  utf8_decode (b ++ rest) = (s ← utf8_decode rest; Ok (c :: s)).
Proof.
  unfold utf8_encode_cp. intros H.
  destruct (Z.ltb_spec c 0); [discriminate|].
  destruct (Z.ltb_spec c 0x80).
  { injection H as <-. cbn [app utf8_decode].
    rewrite u8_b8_small by lia. zbool. reflexivity. }
  destruct (Z.ltb_spec c 0x800).
  { injection H as <-. cbn [app utf8_decode]. unfold is_cont, cont.
    rewrite !u8_b8_small by zlia. zbool. cbn [andb orb].
    replace ((192 + c / 64 - 192) * 64 + (128 + c mod 64 - 128)) with c by zlia.
    reflexivity. }
  destruct (Z.ltb_spec c 0x10000).
  { destruct (is_surrogate c) eqn:Es; [discriminate|].
    injection H as <-. cbn [app utf8_decode]. unfold is_cont, cont.
    rewrite !u8_b8_small by zlia.
    replace ((224 + c / 4096 - 224) * 4096 + (128 + (c / 64) mod 64 - 128) * 64
             + (128 + c mod 64 - 128)) with c by zlia.
    rewrite Es. zbool. reflexivity. }
  destruct (Z.ltb_spec c 0x110000); [|discriminate].
  injection H as <-. cbn [app utf8_decode]. unfold is_cont, cont.
  rewrite !u8_b8_small by zlia.
  replace ((240 + c / 262144 - 240) * 262144 + (128 + (c / 4096) mod 64 - 128) * 4096
           + (128 + (c / 64) mod 64 - 128) * 64 + (128 + c mod 64 - 128)) with c by zlia.
  zbool. reflexivity.
Qed.

(** Decoding the UTF-8 encoding of a string gives the string back. *)
Lemma utf8_decode_encode (s : list Z) (bs : bytes) :
  utf8_encode s = Ok bs -> utf8_decode bs = Ok s.
Proof.
  revert bs. induction s as [|c s IH]; intros bs H.
  - injection H as <-. reflexivity.
  - cbn [utf8_encode] in H.
    destruct (utf8_encode_cp c) as [b|] eqn:Ec; [|discriminate].
    destruct (utf8_encode s) as [bs'|] eqn:Es; [|discriminate].
    injection H as <-.
    rewrite (utf8_decode_encode_cp _ _ _ Ec), (IH _ eq_refl). reflexivity.
Qed.

(** ** MessagePack: unpacking what was packed *)

Lemma mp_take_app (d r : bytes) : mp_take (len d) (d ++ r) = Ok (d, r).
Proof.
  unfold mp_take. rewrite len_app. pose proof (len_nonneg r).
  destruct (Z.leb_spec (len d) (len d + len r)); [|lia].
  unfold len. rewrite Nat2Z.id, take_app_length, drop_app_length. reflexivity.
Qed.

Lemma mp_take_be (n : nat) (z : Z) (rest : bytes) :
  mp_take (Z.of_nat n) (be_bytes n z ++ rest) = Ok (be_bytes n z, rest).
Proof. rewrite <- (len_be_bytes n z) at 1. apply mp_take_app. Qed.

Lemma mp_uint_be (n : nat) (k z : Z) (rest : bytes) :
  k = Z.of_nat n -> 0 <= z < 256 ^ k ->
  mp_uint k (be_bytes n z ++ rest) = Ok (z, rest).
Proof.
  intros -> Hz. unfold mp_uint.
  rewrite mp_take_be. cbn.
  rewrite be_int_be_bytes by exact Hz. reflexivity.
Qed.

Lemma mp_sint_be (n : nat) (k z : Z) (rest : bytes) :
  k = Z.of_nat n -> 0 < k -> - 2 ^ (8 * k - 1) <= z < 2 ^ (8 * k - 1) ->
  mp_sint k (be_bytes n z ++ rest) = Ok (z, rest).
Proof.
  intros -> Hk Hz. unfold mp_sint.
  rewrite mp_take_be. cbn -[Z.pow Z.mul].
  rewrite be_int_be_bytes_mod.
  assert (E : 256 ^ Z.of_nat n = 2 * 2 ^ (8 * Z.of_nat n - 1)).
  { change 256 with (2 ^ 8). rewrite <- Z.pow_mul_r by lia.
    rewrite <- Z.pow_succ_r by lia. f_equal. lia. }
  assert (E2 : 2 ^ (8 * Z.of_nat n) = 2 * 2 ^ (8 * Z.of_nat n - 1)).
  { rewrite <- Z.pow_succ_r by lia. f_equal. lia. }
  rewrite E, E2. set (h := 2 ^ (8 * Z.of_nat n - 1)) in *.
  destruct (Z.le_gt_cases 0 z).
  - rewrite Z.mod_small by lia. destruct (Z.ltb_spec z h); [reflexivity|lia].
  - replace (z mod (2 * h)) with (z + 2 * h).
    + destruct (Z.ltb_spec (z + 2 * h) h); [lia|]. do 2 f_equal. lia.
    + apply Z.mod_unique with (q := -1); lia.
Qed.

Lemma mp_str_app (s : list Z) (u rest : bytes) :
  utf8_encode s = Ok u -> mp_str (len u) (u ++ rest) = Ok (VStr s, rest).
Proof.
  intros H. unfold mp_str. rewrite mp_take_app. cbn.
  rewrite (utf8_decode_encode _ _ H). reflexivity.
Qed.

Lemma Ok_inj {A : Type} (a b : A) : Ok a = Ok b -> a = b.
Proof. intros H. inversion H. reflexivity. Qed.

Ltac ok_inj H := apply Ok_inj in H; subst.

Ltac tag_byte :=
  rewrite <- app_comm_cons; unfold unpack_value; cbv beta iota zeta;
  rewrite ?u8_b8_small by lia.

Lemma unpack_pack_int (z : Z) (b rest : bytes) :
  pack_int z = Ok b -> unpack_value (b ++ rest) = Ok (VInt z, rest).
Proof.
  unfold pack_int. intros H.
  repeat match type of H with
  | (if ?a <? ?c then _ else _) = _ => destruct (Z.ltb_spec a c)
  end; try discriminate; ok_inj H.
  - tag_byte. zbool. rewrite (mp_sint_be 8 8) by (reflexivity || lia). reflexivity.
  - tag_byte. zbool. rewrite (mp_sint_be 4 4) by (reflexivity || lia). reflexivity.
  - tag_byte. zbool. rewrite (mp_sint_be 2 2) by (reflexivity || lia). reflexivity.
  - tag_byte. zbool. rewrite (mp_sint_be 1 1) by (reflexivity || lia). reflexivity.
  - rewrite <- app_comm_cons, app_nil_l; unfold unpack_value; cbv beta iota zeta.
    rewrite u8_b8. destruct (Z.le_gt_cases 0 z).
    + rewrite Z.mod_small by lia. zbool. reflexivity.
    + replace (z mod 256) with (z + 256)
        by (apply Z.mod_unique with (q := -1); lia).
      zbool. replace (z + 256 - 256) with z by lia. reflexivity.
  - tag_byte. zbool. rewrite (mp_uint_be 1 1) by (reflexivity || lia). reflexivity.
  - tag_byte. zbool. rewrite (mp_uint_be 2 2) by (reflexivity || lia). reflexivity.
  - tag_byte. zbool. rewrite (mp_uint_be 4 4) by (reflexivity || lia). reflexivity.
  - tag_byte. zbool. rewrite (mp_uint_be 8 8) by (reflexivity || lia). reflexivity.
Qed.

Lemma unpack_pack_value (v : value) (b rest : bytes) :
  value_ok v -> pack_value v = Ok b -> unpack_value (b ++ rest) = Ok (v, rest).
Proof.
  intros Hv H. destruct v as [|[|]|z|bits|s]; cbn [pack_value] in H.
  - ok_inj H. tag_byte. zbool. reflexivity.
  - ok_inj H. tag_byte. zbool. reflexivity.
  - ok_inj H. tag_byte. zbool. reflexivity.
  - apply unpack_pack_int. exact H.
  - ok_inj H. tag_byte. zbool.
    rewrite (mp_uint_be 8 8) by (reflexivity || exact Hv). reflexivity.
  - destruct (utf8_encode s) as [u|] eqn:Eu; [|discriminate].
    pose proof (len_nonneg u) as Hn. unfold pack_str_header in H.
    repeat match type of H with
    | context [if ?a <? ?c then _ else _] => destruct (Z.ltb_spec a c)
    end; try discriminate; ok_inj H; rewrite <- app_assoc.
    + rewrite <- app_comm_cons, app_nil_l; unfold unpack_value; cbv beta iota zeta.
      rewrite u8_b8_small by lia. zbool.
      replace (160 + len u - 160) with (len u) by lia.
      apply mp_str_app. exact Eu.
    + tag_byte. zbool. rewrite (mp_uint_be 1 1) by (reflexivity || lia).
      apply mp_str_app. exact Eu.
    + tag_byte. zbool. rewrite (mp_uint_be 2 2) by (reflexivity || lia).
      apply mp_str_app. exact Eu.
    + tag_byte. zbool. rewrite (mp_uint_be 4 4) by (reflexivity || lia).
      apply mp_str_app. exact Eu.
Qed.

Lemma unpack_pack_values (vs : list value) (b rest : bytes) :
  Forall value_ok vs -> pack_values vs = Ok b ->
  unpack_values (length vs) (b ++ rest) = Ok (vs, rest).
Proof.
  intros Hv. revert b. induction Hv as [|v vs Hv1 Hvs IH]; intros b H.
  - ok_inj H. reflexivity.
  - cbn [pack_values] in H.
    destruct (pack_value v) as [bv|] eqn:Ev; [|discriminate].
    destruct (pack_values vs) as [bvs|] eqn:Evs; [|discriminate].
    ok_inj H. cbn [length unpack_values].
    rewrite <- app_assoc, (unpack_pack_value _ _ _ Hv1 Ev). cbn.
    rewrite (IH _ eq_refl). reflexivity.
Qed.

Lemma unpack_obj_packb (t : list value) (b rest : bytes) :
  Forall value_ok t -> packb t = Ok b -> unpack_obj (b ++ rest) = Ok (OArray t, rest).
Proof.
  intros Hv H. unfold packb in H.
  destruct (pack_array_header (len t)) as [h|] eqn:Eh; [|discriminate].
  destruct (pack_values t) as [bv|] eqn:Ev; [|discriminate].
  ok_inj H. pose proof (len_nonneg t) as Hn.
  pose proof (unpack_pack_values t bv rest Hv Ev) as Hu.
  unfold pack_array_header in Eh.
  repeat match type of Eh with
  | context [if ?a <? ?c then _ else _] => destruct (Z.ltb_spec a c)
  end; try discriminate; ok_inj Eh; rewrite <- app_assoc.
  - rewrite <- app_comm_cons, app_nil_l. unfold unpack_obj.
    rewrite u8_b8_small by lia. zbool. cbn [andb].
    replace (Z.to_nat (144 + len t - 144)) with (length t) by (unfold len; lia).
    rewrite Hu. reflexivity.
  - rewrite <- app_comm_cons. unfold unpack_obj.
    rewrite u8_b8_small by lia. zbool. cbn [andb].
    rewrite (mp_uint_be 2 2) by (reflexivity || lia). cbn [mbind result_bind].
    replace (Z.to_nat (len t)) with (length t) by (unfold len; lia).
    rewrite Hu. reflexivity.
  - rewrite <- app_comm_cons. unfold unpack_obj.
    rewrite u8_b8_small by lia. zbool. cbn [andb].
    rewrite (mp_uint_be 4 4) by (reflexivity || lia). cbn [mbind result_bind].
    replace (Z.to_nat (len t)) with (length t) by (unfold len; lia).
    rewrite Hu. reflexivity.
Qed.

(** Unpacking what [packb] made of a tuple gives the tuple back. *)
Lemma from_bytes_packb (strict : bool) (t : Row) (payload : bytes) :
  Forall value_ok t -> packb t = Ok payload ->
  RecordPy.from_bytes strict payload = Ok t.
Proof.
  intros Hv H. unfold RecordPy.from_bytes, unpackb.
  rewrite <- (app_nil_r payload), (unpack_obj_packb _ _ _ Hv H). reflexivity.
Qed.

(** ** The fixed-width codec: reading what was written *)

Section FixedWidth.
Import RowClassPy.

Lemma slice_from_eq (data a d c : bytes) (n off : Z) :
  data = a ++ d ++ c -> off = len a -> n = len d ->
  slice_from n data off = Ok d.
Proof.
  intros -> -> ->. unfold slice_from. rewrite !len_app.
  pose proof (len_nonneg c).
  destruct (Z.leb_spec (len a + len d) (len a + (len d + len c))); [|lia].
  unfold len. rewrite !Nat2Z.id, drop_app_length, take_app_length. reflexivity.
Qed.

Lemma be_int_byte (z : Z) : 0 <= z < 256 -> be_int [b8 z] = z.
Proof.
  intros H. unfold be_int. cbn [fold_left]. rewrite u8_b8_small by exact H. lia.
Qed.

Lemma read_value_pack (fi : field_info) (v : value) :
  v <> VNone ->
  field_conforms (""%string, fi) v ->
  exists packed,
    (if String.eqb (ftype fi) "VARCHAR" then
       match v with
       | VStr s => value_bytes ← utf8_encode s; struct_pack_H_s value_bytes
       | _ => Raise AttributeError
       end
     else
       match TYPE_DICT (ftype fi) with
       | Some (form, size) => struct_pack form v
       | None => Raise ValueError
       end) = Ok packed /\
    forall pre post,
      read_value fi (pre ++ packed ++ post) (len pre) = Ok (v, len pre + len packed).
Proof.
  intros Hn Hc. destruct fi as [ft nl]. unfold read_value. cbn [ftype nullable snd] in *.
  destruct v as [|b|z|bits|s]; cbn [field_conforms snd ftype] in Hc.
  - congruence.
  - subst ft. exists [b8 (if b then 1 else 0)]. split; [reflexivity|]. intros pre post.
    cbn [String.eqb Ascii.eqb Bool.eqb TYPE_DICT]. cbn -[slice_from len].
    rewrite (slice_from_eq _ pre [b8 (if b then 1 else 0)] post) by reflexivity.
    cbn [mbind result_bind]. destruct b; reflexivity.
  - destruct Hc as [-> Hz]. exists (be_bytes 8 z). split.
    { cbn -[be_bytes Z.pow]. destruct (Z.leb_spec (- 2 ^ 63) z); [|lia].
      destruct (Z.ltb_spec z (2 ^ 63)); [|lia]. reflexivity. }
    intros pre post. cbn -[slice_from len be_bytes Z.pow].
    rewrite (slice_from_eq _ pre (be_bytes 8 z) post) by
      (reflexivity || (rewrite len_be_bytes; reflexivity)).
    cbn [mbind result_bind]. rewrite be_int_be_bytes_mod, len_be_bytes.
    change (256 ^ Z.of_nat 8) with (2 ^ 64).
    destruct (Z.le_gt_cases 0 z).
    + rewrite Z.mod_small by lia. destruct (Z.ltb_spec z (2 ^ 63)); [|lia].
      reflexivity.
    + replace (z mod 2 ^ 64) with (z + 2 ^ 64)
        by (apply Z.mod_unique with (q := -1); lia).
      destruct (Z.ltb_spec (z + 2 ^ 64) (2 ^ 63)); [lia|].
      replace (z + 2 ^ 64 - 2 ^ 64) with z by lia. reflexivity.
  - destruct Hc as [-> Hz]. exists (be_bytes 8 bits). split; [reflexivity|].
    intros pre post. cbn -[slice_from len be_bytes Z.pow].
    rewrite (slice_from_eq _ pre (be_bytes 8 bits) post) by
      (reflexivity || (rewrite len_be_bytes; reflexivity)).
    cbn [mbind result_bind]. rewrite be_int_be_bytes, len_be_bytes by exact Hz.
    reflexivity.
  - destruct Hc as [-> Hs]. destruct (utf8_encode s) as [u|] eqn:Eu; [|contradiction].
    pose proof (len_nonneg u) as Hu.
    exists (be_bytes 2 (len u) ++ u). split.
    { cbn -[len be_bytes]. unfold struct_pack_H_s.
      destruct (Z.leb_spec (len u) 65535); [|lia]. reflexivity. }
    intros pre post. cbn -[slice_from len be_bytes Z.pow utf8_decode].
    unfold struct_unpack_uint.
    rewrite (slice_from_eq _ pre (be_bytes 2 (len u)) (u ++ post))
      by first [ now rewrite <- app_assoc | reflexivity
               | now rewrite len_be_bytes ].
    cbn [mbind result_bind].
    rewrite be_int_be_bytes by (change (256 ^ Z.of_nat 2) with 65536; lia).
    rewrite (slice_from_eq _ (pre ++ be_bytes 2 (len u)) u post)
      by first [ now rewrite <- !app_assoc | reflexivity
               | now rewrite len_app, len_be_bytes ].
    cbn [mbind result_bind]. rewrite (utf8_decode_encode _ _ Eu).
    rewrite len_app, len_be_bytes. do 2 f_equal. lia.
Qed.

Lemma read_field_pack (fi : field_info) (v : value) :
  field_conforms (""%string, fi) v ->
  exists chunk,
    pack_field fi v = Ok chunk /\
    forall pre post,
      read_field fi (pre ++ concat chunk ++ post) (len pre)
      = Ok (v, len pre + len (concat chunk)).
Proof.
  intros Hc.
  assert (Hdec : v = VNone \/ v <> VNone)
    by (destruct v; first [left; reflexivity | right; discriminate]).
  destruct Hdec as [->|Hn].
  - cbn [field_conforms snd] in Hc. exists [ [b8 0] ]. unfold pack_field, read_field.
    rewrite Hc. split; [reflexivity|]. intros pre post. unfold struct_unpack_uint.
    rewrite (slice_from_eq _ pre [b8 0] post) by reflexivity.
    cbn [mbind result_bind]. rewrite be_int_byte by lia. reflexivity.
  - destruct (read_value_pack fi v Hn Hc) as (packed & Hp & Hr).
    exists ((if nullable fi then [ [b8 1] ] else []) ++ [packed]). split.
    { unfold pack_field.
      destruct v; try congruence; destruct (nullable fi);
        destruct (String.eqb (ftype fi) "VARCHAR");
        try discriminate;
        try (destruct (utf8_encode s); cbn [mbind result_bind] in Hp |- *;
             try discriminate; rewrite Hp; reflexivity);
        destruct (TYPE_DICT (ftype fi)) as [[form size]|];
        try discriminate; rewrite Hp; reflexivity. }
    intros pre post. unfold read_field. destruct (nullable fi).
    + unfold struct_unpack_uint.
      rewrite (slice_from_eq _ pre [b8 1] (packed ++ post))
        by first [ now cbn; rewrite <- ?app_assoc | reflexivity ].
      cbn [mbind result_bind]. rewrite be_int_byte by lia.
      change (1 =? 0) with false. cbv beta iota.
      replace (pre ++ concat ([[b8 1]] ++ [packed]) ++ post)
        with ((pre ++ [b8 1]) ++ packed ++ post)
        by (cbn; rewrite app_nil_r, <- !app_assoc; reflexivity).
      replace (len pre + 1) with (len (pre ++ [b8 1]))
        by (rewrite len_app; reflexivity).
      rewrite Hr. do 2 f_equal. cbn [concat app]. rewrite app_nil_r, !len_app, !len_cons.
      unfold len at 2. simpl. lia.
    + cbn [app concat]. rewrite app_nil_r. apply Hr.
Qed.

Lemma to_from_loop (fields : schema) (r : Row) :
  conforms fields r ->
  forall (self : Row) (i : nat), drop i self = r ->
  exists chunks,
    to_bytes_loop fields self i = Ok chunks /\
    forall pre post,
      from_bytes_loop fields (pre ++ concat chunks ++ post) (len pre) = Ok r.
Proof.
  induction 1 as [|[name fi] v fields r Hv Hr IH]; intros self i Hd.
  - exists []. split; reflexivity.
  - assert (Hi : self !! i = Some v).
    { pose proof (lookup_drop self i 0) as Hl.
      rewrite Hd, Nat.add_0_r in Hl. symmetry. exact Hl. }
    assert (Hd' : drop (S i) self = r).
    { replace (S i) with (i + 1)%nat by lia. rewrite <- drop_drop, Hd. reflexivity. }
    destruct (read_field_pack fi v Hv) as (chunk & Hp & Hread).
    destruct (IH self (S i) Hd') as (chunks & Hl & Hfrom).
    exists (chunk ++ chunks). split.
    { cbn [to_bytes_loop]. rewrite Hi. cbn [mbind result_bind].
      rewrite Hp, Hl. reflexivity. }
    intros pre post. cbn [from_bytes_loop].
    rewrite concat_app, <- app_assoc, Hread. cbn [mbind result_bind].
    rewrite <- len_app, app_assoc, Hfrom. reflexivity.
Qed.

(** The fixed-width codec: decoding the encoding of a conforming row gives
    the row back. *)
Lemma from_bytes_to_bytes (S : schema) (r : Row) :
  conforms S r ->
  exists data, to_bytes S r = Ok data /\ from_bytes S data = Ok r.
Proof.
  intros Hc. destruct (to_from_loop S r Hc r 0%nat eq_refl) as (chunks & Hl & Hfrom).
  exists (concat chunks). split.
  - unfold to_bytes. rewrite Hl. reflexivity.
  - unfold from_bytes. specialize (Hfrom [] []).
    rewrite app_nil_l, app_nil_r in Hfrom. exact Hfrom.
Qed.

End FixedWidth.

(** ** Round trips *)

Lemma conforms_value_ok (S : schema) (r : Row) : conforms S r -> Forall value_ok r.
Proof.
  induction 1 as [|f v S r Hv _ IH]; constructor; [|exact IH].
  destruct v; cbn in *; tauto.
Qed.

Lemma pack_int_total (z : Z) :
  - 2 ^ 63 <= z < 2 ^ 64 -> exists b, pack_int z = Ok b.
Proof.
  intros Hz. unfold pack_int.
  repeat match goal with
  | |- context [if ?a <? ?c then _ else _] => destruct (Z.ltb_spec a c)
  end; try lia; eexists; reflexivity.
Qed.

Lemma pack_value_total (f : string * field_info) (v : value) :
  field_conforms f v -> exists b, pack_value v = Ok b.
Proof.
  destruct v as [|[|]|z|bits|s]; cbn [field_conforms pack_value]; intros H;
    try (eexists; reflexivity).
  - apply pack_int_total. lia.
  - destruct H as [_ H]. destruct (utf8_encode s) as [u|]; [|contradiction].
    pose proof (len_nonneg u). unfold pack_str_header.
    repeat match goal with
    | |- context [if ?a <? ?c then _ else _] => destruct (Z.ltb_spec a c)
    end; try lia; eexists; reflexivity.
Qed.

Lemma pack_values_total (S : schema) (r : Row) :
  conforms S r -> exists b, pack_values r = Ok b.
Proof.
  induction 1 as [|f v S r Hv _ [bs IH]].
  - exists []. reflexivity.
  - destruct (pack_value_total f v Hv) as [b Hb].
    exists (b ++ bs). cbn [pack_values]. rewrite Hb, IH. reflexivity.
Qed.

(** A conforming row of fewer than [2^32] values can be packed. *)
Lemma packb_total (S : schema) (r : Row) :
  conforms S r -> len r < 2 ^ 32 -> exists payload, packb r = Ok payload.
Proof.
  intros Hc Hl. destruct (pack_values_total S r Hc) as [bs Hbs].
  pose proof (len_nonneg r). unfold packb, pack_array_header.
  repeat match goal with
  | |- context [if ?a <? ?c then _ else _] => destruct (Z.ltb_spec a c)
  end; try lia; rewrite Hbs; eexists; reflexivity.
Qed.

Lemma drop_frame_header (payload : bytes) :
  drop 5 ([x00] ++ be_bytes 4 (len payload) ++ payload) = payload.
Proof. reflexivity. Qed.

(** C1, as stated, fails for the self-describing codec: [Row.to_bytes] puts
    the 5-byte frame header before the payload and [Row.from_bytes] expects
    the payload alone, so decoding the encoding of the row [(1,)] raises
    instead of giving the row back. *)
Lemma self_describing_decode_of_encode_fails :
  conforms [("id"%string, {| ftype := "INTEGER"; nullable := false |})] [VInt 1] /\
  RecordPy.to_bytes [VInt 1] = Ok [x00; x00; x00; x00; x02; b8 0x91; b8 1] /\
  RecordPy.from_bytes true [x00; x00; x00; x00; x02; b8 0x91; b8 1]
  = Raise MsgpackDecodeError /\
  RecordPy.from_bytes false [x00; x00; x00; x00; x02; b8 0x91; b8 1]
  = Raise TypeError.
Proof.
  split.
  { constructor; [|constructor]. cbn. split; [reflexivity|lia]. }
  repeat split; reflexivity.
Qed.

(** C1, amended.  For every row that conforms to the schema: the fixed-width
    codec decodes the encoding of the row to the row; the self-describing
    codec, for a row of fewer than [2^32] values, decodes the payload of the
    row to the row, and when the payload is shorter than [2^32] bytes
    [Row.to_bytes] gives the 5-byte header followed by that payload, so that
    decoding the bytes after the header gives the row. *)
Theorem row_round_trip (S : schema) (r : Row) (strict : bool) :
  conforms S r ->
  (exists data,
     RowClassPy.to_bytes S r = Ok data /\ RowClassPy.from_bytes S data = Ok r) /\
  (len r < 2 ^ 32 ->
   exists payload,
     packb r = Ok payload /\
     RecordPy.from_bytes strict payload = Ok r /\
     (len payload < 2 ^ 32 ->
      exists frame,
        RecordPy.to_bytes r = Ok frame /\
        frame = [x00] ++ be_bytes 4 (len payload) ++ payload /\
        RecordPy.from_bytes strict (drop 5 frame) = Ok r)).
Proof.
  intros Hc. split; [apply from_bytes_to_bytes; exact Hc|].
  intros Hl. destruct (packb_total S r Hc Hl) as [payload Hp].
  pose proof (from_bytes_packb strict r payload (conforms_value_ok S r Hc) Hp) as Hf.
  exists payload. split; [exact Hp|]. split; [exact Hf|].
  intros Hs. exists ([x00] ++ be_bytes 4 (len payload) ++ payload).
  split; [apply to_bytes_eq; assumption|]. split; [reflexivity|].
  rewrite drop_frame_header. exact Hf.
Qed.

Lemma row_round_trip_witness :
  (exists data,
     RowClassPy.to_bytes
       [("id"%string, {| ftype := "INTEGER"; nullable := false |});
        ("name"%string, {| ftype := "VARCHAR"; nullable := false |});
        ("score"%string, {| ftype := "FLOAT"; nullable := true |})]
       [VInt 1; VStr [97; 108; 105; 99; 101]; VNone] = Ok data /\
     RowClassPy.from_bytes
       [("id"%string, {| ftype := "INTEGER"; nullable := false |});
        ("name"%string, {| ftype := "VARCHAR"; nullable := false |});
        ("score"%string, {| ftype := "FLOAT"; nullable := true |})] data
     = Ok [VInt 1; VStr [97; 108; 105; 99; 101]; VNone]) /\
  (len [VInt 1; VStr [97; 108; 105; 99; 101]; VNone] < 2 ^ 32 ->
   exists payload,
     packb [VInt 1; VStr [97; 108; 105; 99; 101]; VNone] = Ok payload /\
     RecordPy.from_bytes true payload
     = Ok [VInt 1; VStr [97; 108; 105; 99; 101]; VNone] /\
     (len payload < 2 ^ 32 ->
      exists frame,
        RecordPy.to_bytes [VInt 1; VStr [97; 108; 105; 99; 101]; VNone] = Ok frame /\
        frame = [x00] ++ be_bytes 4 (len payload) ++ payload /\
        RecordPy.from_bytes true (drop 5 frame)
        = Ok [VInt 1; VStr [97; 108; 105; 99; 101]; VNone])).
Proof.
  apply (row_round_trip
           [("id"%string, {| ftype := "INTEGER"; nullable := false |});
            ("name"%string, {| ftype := "VARCHAR"; nullable := false |});
            ("score"%string, {| ftype := "FLOAT"; nullable := true |})]
           [VInt 1; VStr [97; 108; 105; 99; 101]; VNone] true).
  constructor; [cbn; split; [reflexivity|lia]|].
  constructor; [cbn; split; [reflexivity|vm_compute; discriminate]|].
  constructor; [reflexivity|]. constructor.
Defined.

(** Strings of ASCII characters, used for inputs of a given length. *)
Lemma utf8_encode_ascii_repeat (c : Z) (n : nat) :
  0 <= c < 128 -> utf8_encode (repeat c n) = Ok (repeat (b8 c) n).
Proof.
  intros Hc. induction n as [|n IH]; [reflexivity|].
  cbn [repeat utf8_encode]. rewrite IH. unfold utf8_encode_cp.
  destruct (Z.ltb_spec c 0); [lia|]. destruct (Z.ltb_spec c 128); [|lia].
  reflexivity.
Qed.

Lemma len_repeat {A : Type} (x : A) (n : Z) :
  0 <= n -> len (repeat x (Z.to_nat n)) = n.
Proof. intros H. unfold len. rewrite repeat_length. lia. Qed.

(** C8.  In the fixed-width codec a VARCHAR value of exactly 65,535 UTF-8
    bytes encodes and decodes back to the same string; a value of 65,536
    bytes makes [struct.pack] fail at encode time, so that [to_bytes]
    produces nothing. *)
Theorem varchar_boundary (name : string) (nl : bool) (s : list Z) (u : bytes) :
  utf8_encode s = Ok u ->
  (len u = 65535 ->
   exists data,
     RowClassPy.to_bytes [(name, {| ftype := "VARCHAR"; nullable := nl |})] [VStr s]
     = Ok data /\
     RowClassPy.from_bytes [(name, {| ftype := "VARCHAR"; nullable := nl |})] data
     = Ok [VStr s]) /\
  (len u = 65536 ->
   RowClassPy.to_bytes [(name, {| ftype := "VARCHAR"; nullable := nl |})] [VStr s]
   = Raise StructError).
Proof.
  intros Hu. split; intros Hl.
  - apply from_bytes_to_bytes. constructor; [|constructor].
    cbn [field_conforms snd ftype]. rewrite Hu. split; [reflexivity|lia].
  - unfold RowClassPy.to_bytes. cbn [RowClassPy.to_bytes_loop lookup list_lookup].
    cbn [mbind result_bind]. unfold RowClassPy.pack_field. cbn [nullable ftype].
    change (String.eqb "VARCHAR" "VARCHAR") with true. cbv beta iota.
    rewrite Hu. cbn [mbind result_bind]. unfold RowClassPy.struct_pack_H_s.
    destruct (Z.leb_spec (len u) 65535); [lia|]. destruct nl; reflexivity.
Qed.

Lemma varchar_boundary_witness :
  (exists data,
     RowClassPy.to_bytes [("name"%string, {| ftype := "VARCHAR"; nullable := false |})]
       [VStr (repeat 97 (Z.to_nat 65535))] = Ok data /\
     RowClassPy.from_bytes [("name"%string, {| ftype := "VARCHAR"; nullable := false |})]
       data = Ok [VStr (repeat 97 (Z.to_nat 65535))]) /\
  RowClassPy.to_bytes [("name"%string, {| ftype := "VARCHAR"; nullable := false |})]
    [VStr (repeat 97 (Z.to_nat 65536))] = Raise StructError.
Proof.
  assert (H97 : 0 <= 97 < 128) by lia.
  assert (L1 : len (repeat (b8 97) (Z.to_nat 65535)) = 65535) by (apply len_repeat; lia).
  assert (L2 : len (repeat (b8 97) (Z.to_nat 65536)) = 65536) by (apply len_repeat; lia).
  exact (conj
    (proj1 (varchar_boundary "name" false _ _
              (utf8_encode_ascii_repeat 97 (Z.to_nat 65535) H97)) L1)
    (proj2 (varchar_boundary "name" false _ _
              (utf8_encode_ascii_repeat 97 (Z.to_nat 65536) H97)) L2)).
Defined.

(** ** [scan]: how it ends *)

(** C5, as stated, fails: a header read that returns fewer than 5 bytes is
    not taken as the end of the file.  On a data file that ends two bytes
    into a header, [scan] yields the row before it and then raises
    [struct.error]; on the empty file of a new collection the first header
    read returns zero bytes and [scan] raises at once. *)
Lemma scan_raises_on_short_header :
  Engine.init (Some "c"%string) (Engine.Folder (Some Engine.truncated_log)) = Ok (Engine.opened Engine.truncated_log) /\
  Engine.scan 10 true (Engine.opened Engine.truncated_log) = ([[VInt 1]], Engine.Raises StructError) /\
  Engine.scan 10 true Engine.fresh = ([], Engine.Raises StructError).
Proof. repeat split; vm_compute; reflexivity. Qed.

Lemma scan_loop_unfold (fuel : nat) (strict : bool)
    (block_size flags size : Z) (buffer : bytes) (block_start : Z) :
  Engine.scan_loop (S fuel) strict block_size flags size buffer block_start =
  if size >? 0 then
    match Engine.read_record fuel block_size size buffer block_start with
    | None => ([], Engine.NoFuel)
    | Some (Raise e) => ([], Engine.Raises e)
    | Some (Ok (data_bytes, buffer', block_start')) =>
        let next : list Row * Engine.halt :=
          match Engine.buffer_read 5 buffer' with
          | Raise e => ([], Engine.Raises e)
          | Ok (header_bytes, buffer'') =>
              if len header_bytes =? 0 then ([], Engine.Return)
              else
                match Engine.unpack_BI header_bytes with
                | Raise e => ([], Engine.Raises e)
                | Ok (flags', size') =>
                    Engine.scan_loop fuel strict block_size flags' size' buffer''
                      (block_start' + 5)
                end
          end in
        if Z.land flags Engine.DELETED_FLAG =? 0 then
          match RecordPy.from_bytes strict data_bytes with
          | Raise e => ([], Engine.Raises e)
          | Ok row => (row :: fst next, snd next)
          end
        else next
    end
  else ([], Engine.Return).
Proof. reflexivity. Qed.

Lemma scan_loop_size_0 (fuel : nat) (strict : bool)
    (block_size flags : Z) (buffer : bytes) (block_start : Z) :
  Engine.scan_loop fuel strict block_size flags 0 buffer block_start = ([], Engine.Return).
Proof. destruct fuel; reflexivity. Qed.

Lemma unpack_BI_short (h : bytes) :
  length h <> 5%nat -> Engine.unpack_BI h = Raise StructError.
Proof.
  intros H. do 6 (destruct h as [|? h]; try reflexivity). simpl in H. lia.
Qed.

(** C5, amended.  [scan] ends as a finite sequence, without raising, when a
    header's size field is 0 (the first header or a later one), and when a
    header read inside the loop, after a record, returns zero bytes: the rows
    yielded so far are followed by the normal end of the generator. *)
Theorem scan_ends_cleanly (fuel : nat) (strict : bool) (block_size : Z) :
  (forall self flags rest,
     0 <= flags < 256 ->
     Engine.file self = b8 flags :: be_bytes 4 0 ++ rest ->
     Engine.scan_with block_size fuel strict self = ([], Engine.Return)) /\
  (forall flags buffer block_start,
     Engine.scan_loop fuel strict block_size flags 0 buffer block_start
     = ([], Engine.Return)) /\
  (forall flags size buffer block_start data_bytes block_start',
     0 < size ->
     Engine.read_record fuel block_size size buffer block_start
     = Some (Ok (data_bytes, [], block_start')) ->
     Engine.buffer_read 5 [] = Ok ([], []) /\
     Engine.scan_loop (S fuel) strict block_size flags size buffer block_start
     = if Z.land flags Engine.DELETED_FLAG =? 0 then
         match RecordPy.from_bytes strict data_bytes with
         | Ok row => ([row], Engine.Return)
         | Raise e => ([], Engine.Raises e)
         end
       else ([], Engine.Return)).
Proof.
  split; [|split].
  - intros self flags rest Hf Hfile. unfold Engine.scan_with. rewrite Hfile.
    change (b8 flags :: be_bytes 4 0 ++ rest)
      with ((b8 flags :: be_bytes 4 0) ++ rest).
    replace 5 with (len (b8 flags :: be_bytes 4 0)) at 1
      by (rewrite len_cons, len_be_bytes; reflexivity).
    rewrite buffer_read_app, unpack_BI_header by lia.
    apply scan_loop_size_0.
  - intros. apply scan_loop_size_0.
  - intros flags size buffer block_start data_bytes block_start' Hs Hr.
    split; [reflexivity|].
    rewrite scan_loop_unfold, Hr.
    destruct (Z.gtb_spec size 0); [|lia].
    cbv zeta. change (Engine.buffer_read 5 []) with (Ok (@nil byte, @nil byte)).
    cbv beta iota. change (len (@nil byte) =? 0) with true. cbv beta iota.
    destruct (Z.land flags Engine.DELETED_FLAG =? 0); [|reflexivity].
    destruct (RecordPy.from_bytes strict data_bytes); reflexivity.
Qed.

Lemma scan_ends_cleanly_witness :
  Engine.scan_with Engine.BLOCK_SIZE 5 true
    (Engine.opened (b8 0 :: be_bytes 4 0 ++ [b8 7])) = ([], Engine.Return) /\
  Engine.scan_loop 5 true Engine.BLOCK_SIZE 0 0 [b8 7] 5 = ([], Engine.Return) /\
  Engine.buffer_read 5 [] = Ok ([], []) /\
  Engine.scan_loop 6 true Engine.BLOCK_SIZE 0 2 [b8 0x91; b8 1] 5
  = ([[VInt 1]], Engine.Return).
Proof.
  destruct (scan_ends_cleanly 5 true Engine.BLOCK_SIZE) as (H1 & H2 & H3).
  split; [apply (H1 _ 0 [b8 7]); [lia | reflexivity]|].
  split; [apply H2|].
  apply (H3 0 2 [b8 0x91; b8 1] 5 [b8 0x91; b8 1] 7); [lia | reflexivity].
Defined.

(** ** [scan]: records and the read-buffer size *)

(** When the first record ends exactly at the read-buffer size, the header
    of the next record takes [block_start] to [block_size + 5]; the record
    is then taken to span blocks and [buffer.read] is called with the
    negative length [block_size - block_start]. *)
Lemma scan_after_full_block (strict : bool) (fuel : nat) (block_size : Z)
    (row1 : Row) (p1 : bytes) (self : Engine.HadroDB) :
  Forall value_ok row1 -> packb row1 = Ok p1 ->
  len p1 = block_size - 5 -> 5 < block_size <= 2 ^ 32 ->
  Engine.file self
  = (x00 :: be_bytes 4 (len p1) ++ p1) ++ [x00; x00; x00; x00; x01; b8 0x90] ->
  Engine.scan_with block_size (S (S fuel)) strict self
  = ([row1], Engine.Raises ValueError).
Proof.
  intros Hv Hp Hl Hb Hfile. unfold Engine.scan_with. rewrite Hfile.
  replace ((x00 :: be_bytes 4 (len p1) ++ p1) ++ [x00; x00; x00; x00; x01; b8 0x90])
    with ((b8 0 :: be_bytes 4 (len p1)) ++ p1 ++ [x00; x00; x00; x00; x01; b8 0x90])
    by (rewrite <- !app_comm_cons, <- app_assoc; reflexivity).
  replace 5 with (len (b8 0 :: be_bytes 4 (len p1))) at 1
    by (rewrite len_cons, len_be_bytes; reflexivity).
  rewrite buffer_read_app, unpack_BI_header by lia.
  rewrite scan_loop_unfold.
  destruct (Z.gtb_spec (len p1) 0); [|lia].
  unfold Engine.read_record at 1.
  destruct (Z.gtb_spec (5 + len p1) block_size); [lia|].
  rewrite buffer_read_app. cbv zeta beta iota.
  change (Z.land 0 Engine.DELETED_FLAG =? 0) with true. cbv beta iota.
  rewrite (from_bytes_packb strict row1 p1 Hv Hp).
  change (Engine.buffer_read 5 [x00; x00; x00; x00; x01; b8 0x90])
    with (Ok ([x00; x00; x00; x00; x01], [b8 0x90])).
  cbv beta iota.
  change (len [x00; x00; x00; x00; x01] =? 0) with false. cbv beta iota.
  change (Engine.unpack_BI [x00; x00; x00; x00; x01]) with (Ok (0, 1)).
  cbv beta iota. rewrite scan_loop_unfold.
  change (1 >? 0) with true. cbv beta iota.
  unfold Engine.read_record.
  destruct (Z.gtb_spec (5 + len p1 + 5 + 1) block_size); [|lia].
  unfold Engine.buffer_read.
  destruct (Z.ltb_spec (block_size - (5 + len p1 + 5)) (-1)); [|lia].
  reflexivity.
Qed.

Lemma packb_one_string (n : nat) :
  65536 <= Z.of_nat n < 2 ^ 32 ->
  exists p, packb [VStr (repeat 97 n)] = Ok p /\ len p = 6 + Z.of_nat n.
Proof.
  intros Hn. exists ([b8 0x91] ++ ((b8 0xdb :: be_bytes 4 (Z.of_nat n)) ++ repeat (b8 97) n) ++ []).
  assert (Hlen : len (repeat (b8 97) n) = Z.of_nat n)
    by (unfold len; rewrite repeat_length; reflexivity).
  split.
  - unfold packb. change (len [VStr (repeat 97 n)]) with 1.
    change (pack_array_header 1) with (Ok [b8 0x91]).
    cbn [mbind result_bind pack_values pack_value].
    rewrite utf8_encode_ascii_repeat by lia. rewrite Hlen.
    unfold pack_str_header.
    destruct (Z.ltb_spec (Z.of_nat n) 32); [lia|].
    destruct (Z.ltb_spec (Z.of_nat n) (2 ^ 8)); [lia|].
    destruct (Z.ltb_spec (Z.of_nat n) (2 ^ 16)); [lia|].
    destruct (Z.ltb_spec (Z.of_nat n) (2 ^ 32)); [|lia].
    reflexivity.
  - rewrite app_nil_r, len_app, len_cons, len_nil, len_app, len_cons, len_be_bytes, Hlen.
    lia.
Qed.

(** C4, at the failing input.  After [append] of a row holding one string
    of 8,388,597 characters (a payload of [8 MiB - 5] bytes) and [append] of
    the empty row, the log is two well-formed live frames; [scan] yields the
    first row and then raises ValueError instead of yielding the second. *)
Theorem scan_fails_after_block_sized_record (strict : bool) (fuel : nat) :
  exists db1 db2,
    Engine.append false Engine.fresh
      (Engine.RSeq [VStr (repeat 97 (Z.to_nat 8388597))]) = Ok (db1, VNone) /\
    Engine.append false db1 (Engine.RSeq []) = Ok (db2, VNone) /\
    len (Engine.file db2) = Engine.BLOCK_SIZE + 6 /\
    Engine.scan (S (S fuel)) strict db2
    = ([[VStr (repeat 97 (Z.to_nat 8388597))]], Engine.Raises ValueError).
Proof.
  assert (Hn : Z.of_nat (Z.to_nat 8388597) = 8388597) by (apply Z2Nat.id; lia).
  set (n := Z.to_nat 8388597) in *. clearbody n.
  destruct (packb_one_string n) as (p1 & Hp & Hl); [lia|].
  assert (Hv : Forall value_ok [VStr (repeat 97 n)]) by (repeat constructor).
  assert (Hf1 : RecordPy.to_bytes [VStr (repeat 97 n)]
                = Ok (x00 :: be_bytes 4 (len p1) ++ p1))
    by (apply to_bytes_eq; [exact Hp | lia]).
  assert (Hf2 : RecordPy.to_bytes [] = Ok [x00; x00; x00; x00; x01; b8 0x90])
    by reflexivity.
  eexists _, _. split; [apply append_eq; exact Hf1|].
  split; [apply append_eq; exact Hf2|].
  cbn [Engine.file]. split.
  - rewrite !len_app, len_cons, len_app, len_be_bytes, Hl, Hn.
    reflexivity.
  - apply (scan_after_full_block strict fuel Engine.BLOCK_SIZE [VStr (repeat 97 n)] p1);
      [exact Hv | exact Hp | rewrite Hl, Hn; reflexivity
      | unfold Engine.BLOCK_SIZE; lia | reflexivity].
Qed.

(** ** Point operations *)

Section PointOperations.
Import SpecKV.

Lemma field_check_value_ok (f : field_info) (v : value) :
  field_check f v = true -> value_ok v.
Proof.
  destruct v; cbn; try tauto. intros H.
  apply andb_prop in H as [H H2]. apply andb_prop in H as [_ H1]. lia.
Qed.

Lemma schema_check_value_ok (S : schema) (r : Row) :
  schema_check S r = true -> Forall value_ok r.
Proof.
  revert r. induction S as [|[name f] S IH]; intros [|v r] H; try discriminate.
  - constructor.
  - cbn in H. apply andb_prop in H as [H1 H2].
    constructor; [exact (field_check_value_ok f v H1) | exact (IH r H2)].
Qed.

Lemma get_holds (self : Engine.HadroDB) (k : string) (v : Row) :
  holds self k v -> get self k = Ok v.
Proof.
  intros (e & payload & He & _ & Hs & Hr & Hd). unfold get.
  rewrite He, Hs, Hr. cbn [mbind result_bind].
  rewrite drop_frame_header, Hd. reflexivity.
Qed.

Lemma read_at_app (log more fr : bytes) (offset size : Z) :
  0 <= offset -> 0 <= size ->
  read_at log offset size = Ok fr -> read_at (log ++ more) offset size = Ok fr.
Proof.
  unfold read_at. intros Ho Hs H. rewrite len_app. pose proof (len_nonneg more).
  destruct (Z.leb_spec (offset + size) (len log)); [|discriminate].
  destruct (Z.leb_spec (offset + size) (len log + len more)); [|lia].
  apply Ok_inj in H. rewrite <- H. f_equal.
  unfold len in *.
  rewrite drop_app_le by lia. rewrite take_app_le; [reflexivity|].
  rewrite length_drop. lia.
Qed.

Lemma read_at_end (log fr : bytes) :
  read_at (log ++ fr) (len log) (len fr) = Ok fr.
Proof.
  unfold read_at. rewrite len_app.
  destruct (Z.leb_spec (len log + len fr) (len log + len fr)); [|lia].
  unfold len. rewrite !Nat2Z.id, drop_app_length, firstn_all. reflexivity.
Qed.

Lemma set_inv (S : schema) (aggressive : bool) (self self' : Engine.HadroDB)
    (k : string) (v : Row) :
  set S aggressive self k v = Ok self' ->
  exists payload,
    packb v = Ok payload /\ len payload < 2 ^ 32 /\ Forall value_ok v /\
    Engine.file self' = Engine.file self ++ [b8 0] ++ be_bytes 4 (len payload) ++ payload /\
    Engine.key_dir self'
    = <[k := {| Engine.position := len (Engine.file self);
                Engine.total_size := len payload |}]> (Engine.key_dir self).
Proof.
  unfold set. intros H.
  destruct (schema_check S v) eqn:Ec; [|discriminate]. cbn [negb] in H.
  destruct (packb v) as [payload|] eqn:Ep; [|discriminate].
  cbn [mbind result_bind] in H. unfold frame, int_to_bytes4 in H.
  pose proof (len_nonneg payload).
  destruct (Z.leb_spec 0 (len payload)); [|lia].
  destruct (Z.ltb_spec (len payload) (2 ^ 32)); [|discriminate].
  cbn [andb mbind result_bind] in H. apply Ok_inj in H. subst self'.
  exists payload. cbn [Engine.file Engine.key_dir Engine._write].
  repeat split; try assumption. exact (schema_check_value_ok S v Ec).
Qed.

Lemma set_holds (S : schema) (aggressive : bool) (self self' : Engine.HadroDB)
    (k : string) (v : Row) :
  set S aggressive self k v = Ok self' -> holds self' k v.
Proof.
  intros H. destruct (set_inv _ _ _ _ _ _ H) as (payload & Hp & Hl & Hv & Hf & Hk).
  exists {| Engine.position := len (Engine.file self); Engine.total_size := len payload |},
    payload.
  rewrite Hk, Hf. cbn [Engine.position Engine.total_size].
  split; [apply lookup_insert_eq|]. split; [apply len_nonneg|]. split; [reflexivity|].
  split.
  - replace (5 + len payload) with (len ([b8 0] ++ be_bytes 4 (len payload) ++ payload))
      by (rewrite len_app, len_app, len_be_bytes, len_cons, len_nil; lia).
    apply read_at_end.
  - apply from_bytes_packb; assumption.
Qed.

Lemma step_file (S : schema) (aggressive : bool) (self : Engine.HadroDB) (o : op) :
  exists more, Engine.file (step S aggressive self o) = Engine.file self ++ more.
Proof.
  unfold step. destruct o as [key row|key].
  - destruct (set S aggressive self key row) as [self'|] eqn:E.
    + destruct (set_inv _ _ _ _ _ _ E) as (payload & _ & _ & _ & Hf & _).
      eexists. exact Hf.
    + exists []. now rewrite app_nil_r.
  - unfold delete. destruct (frame Engine.DELETED_FLAG (list_byte_of_string key)) as [fr|].
    + exists fr. reflexivity.
    + exists []. now rewrite app_nil_r.
Qed.

Lemma step_key_dir (S : schema) (aggressive : bool) (self : Engine.HadroDB) (o : op)
    (k : string) :
  op_key o <> k ->
  Engine.key_dir (step S aggressive self o) !! k = Engine.key_dir self !! k.
Proof.
  intros Hk. unfold step. destruct o as [key row|key]; cbn [op_key] in Hk.
  - destruct (set S aggressive self key row) as [self'|] eqn:E; [|reflexivity].
    destruct (set_inv _ _ _ _ _ _ E) as (payload & _ & _ & _ & _ & Hd).
    rewrite Hd. apply lookup_insert_ne. exact Hk.
  - unfold delete. destruct (frame Engine.DELETED_FLAG (list_byte_of_string key)) as [fr|];
      [|reflexivity].
    cbn [mbind result_bind Engine.key_dir Engine._write].
    apply lookup_delete_ne. exact Hk.
Qed.

Lemma step_holds (S : schema) (aggressive : bool) (self : Engine.HadroDB) (o : op)
    (k : string) (v : Row) :
  op_key o <> k -> holds self k v -> holds (step S aggressive self o) k v.
Proof.
  intros Hk (e & payload & He & Hpos & Hs & Hr & Hd).
  destruct (step_file S aggressive self o) as [more Hm].
  exists e, payload. rewrite step_key_dir by exact Hk. rewrite Hm.
  repeat split; try assumption.
  apply read_at_app; [exact Hpos | pose proof (len_nonneg payload); lia | exact Hr].
Qed.

Lemma run_holds (S : schema) (aggressive : bool) (ops : list op)
    (self : Engine.HadroDB) (k : string) (v : Row) :
  Forall (fun o => op_key o <> k) ops -> holds self k v ->
  holds (run S aggressive self ops) k v.
Proof.
  intros Hops. revert self. induction Hops as [|o ops Ho _ IH]; intros self H.
  - exact H.
  - cbn [run fold_left]. apply IH. apply step_holds; assumption.
Qed.

(** C2.  Over the point operations of the specification: a second [set] of
    a key wins over the first; after [set] then [delete] of a key, [get]
    signals KeyNotFound; and once [set(k, v)] has succeeded, [get(k)] returns
    [v] after any sequence of [set] and [delete] operations on other keys,
    that is, until the next [set] or [delete] of [k]. *)
Theorem last_writer_wins (S : schema) (aggressive : bool) (self : Engine.HadroDB)
    (k : string) :
  (forall v1 v2 s1 s2,
     set S aggressive self k v1 = Ok s1 ->
     set S aggressive s1 k v2 = Ok s2 ->
     get s2 k = Ok v2) /\
  (forall v s1 s2,
     set S aggressive self k v = Ok s1 ->
     delete aggressive s1 k = Ok s2 ->
     get s2 k = Raise KeyNotFound) /\
  (forall v s1 ops,
     set S aggressive self k v = Ok s1 ->
     Forall (fun o => op_key o <> k) ops ->
     get (run S aggressive s1 ops) k = Ok v).
Proof.
  split; [|split].
  - intros v1 v2 s1 s2 _ H2. apply get_holds. exact (set_holds _ _ _ _ _ _ H2).
  - intros v s1 s2 _ H2. unfold delete in H2.
    destruct (frame Engine.DELETED_FLAG (list_byte_of_string k)) as [fr|]; [|discriminate].
    apply Ok_inj in H2. subst s2. unfold get. cbn [Engine.key_dir Engine._write].
    rewrite lookup_delete_eq. reflexivity.
  - intros v s1 ops H1 Hops. apply get_holds, run_holds; [exact Hops|].
    exact (set_holds _ _ _ _ _ _ H1).
Qed.

Lemma last_writer_wins_witness :
  (exists s1 s2,
     set [("id"%string, {| ftype := "INTEGER"; nullable := false |})] false
       Engine.fresh "a" [VInt 1] = Ok s1 /\
     set [("id"%string, {| ftype := "INTEGER"; nullable := false |})] false
       s1 "a" [VInt 2] = Ok s2 /\
     get s2 "a" = Ok [VInt 2]) /\
  (exists s1 s2,
     set [("id"%string, {| ftype := "INTEGER"; nullable := false |})] false
       Engine.fresh "a" [VInt 1] = Ok s1 /\
     delete false s1 "a" = Ok s2 /\
     get s2 "a" = Raise KeyNotFound) /\
  (exists s1,
     set [("id"%string, {| ftype := "INTEGER"; nullable := false |})] false
       Engine.fresh "a" [VInt 1] = Ok s1 /\
     Forall (fun o => op_key o <> "a"%string) [OSet "b" [VInt 3]; ODelete "c"] /\
     get (run [("id"%string, {| ftype := "INTEGER"; nullable := false |})] false s1
            [OSet "b" [VInt 3]; ODelete "c"]) "a" = Ok [VInt 1]).
Proof.
  destruct (last_writer_wins [("id"%string, {| ftype := "INTEGER"; nullable := false |})]
              false Engine.fresh "a") as (H1 & H2 & H3).
  split; [|split].
  - eexists _, _. split; [reflexivity|]. split; [reflexivity|].
    eapply (H1 [VInt 1] [VInt 2]); reflexivity.
  - eexists _, _. split; [reflexivity|]. split; [reflexivity|].
    eapply (H2 [VInt 1]); reflexivity.
  - eexists. split; [reflexivity|].
    assert (Hops : Forall (fun o => op_key o <> "a"%string) [OSet "b" [VInt 3]; ODelete "c"])
      by (repeat constructor; discriminate).
    split; [exact Hops|].
    apply (H3 [VInt 1]); [reflexivity | exact Hops].
Defined.

End PointOperations.

(** ** [scan] on a log that fits the read buffer *)

Lemma buffer_read_header (h r : bytes) :
  len h = 5 -> Engine.buffer_read 5 (h ++ r) = Ok (h, r).
Proof. intros <-. apply buffer_read_app. Qed.

Lemma scan_loop_within_block (strict : bool) (block_size : Z)
    (frames : list (Z * bytes)) :
  Forall (frame_ok strict) frames ->
  forall (fuel : nat) (flags : Z) (payload : bytes) (block_start : Z),
    frame_ok strict (flags, payload) ->
    (length frames < fuel)%nat ->
    block_start + len payload + len (log_of frames) <= block_size ->
    Engine.scan_loop fuel strict block_size flags (len payload)
      (payload ++ log_of frames) block_start
    = (live_rows strict ((flags, payload) :: frames), Engine.Return).
Proof.
  induction 1 as [|[f2 p2] frames Hf2 Hfs IH];
    intros fuel flags payload block_start (Hfl & Hlen & Hdec) Hfuel Hfit;
    cbn [fst snd] in *.
  - destruct fuel as [|fuel]; [simpl in Hfuel; lia|].
    rewrite scan_loop_unfold. destruct (Z.gtb_spec (len payload) 0); [|lia].
    unfold Engine.read_record.
    change (log_of []) with (@nil byte) in *. rewrite len_nil in Hfit.
    destruct (Z.gtb_spec (block_start + len payload) block_size); [lia|].
    rewrite buffer_read_app. cbv zeta beta iota.
    change (Engine.buffer_read 5 []) with (Ok (@nil byte, @nil byte)).
    cbv beta iota. change (len (@nil byte) =? 0) with true. cbv beta iota.
    cbn [live_rows]. destruct (Z.land flags Engine.DELETED_FLAG =? 0) eqn:El; [|reflexivity].
    apply Z.eqb_eq in El. specialize (Hdec El).
    destruct (RecordPy.from_bytes strict payload); [reflexivity|discriminate].
  - destruct fuel as [|fuel]; [simpl in Hfuel; lia|].
    destruct Hf2 as (Hfl2 & Hlen2 & Hdec2). cbn [fst snd] in *.
    assert (Hlog : log_of ((f2, p2) :: frames)
                   = (b8 f2 :: be_bytes 4 (len p2)) ++ p2 ++ log_of frames).
    { unfold log_of. cbn [map concat]. unfold frame_bytes at 1. cbn [fst snd].
      rewrite <- app_comm_cons, <- app_assoc. reflexivity. }
    assert (Hh : len (b8 f2 :: be_bytes 4 (len p2)) = 5)
      by (rewrite len_cons, len_be_bytes; reflexivity).
    rewrite Hlog in *. rewrite !len_app, Hh in Hfit.
    pose proof (len_nonneg (log_of frames)) as Hnn.
    rewrite scan_loop_unfold. destruct (Z.gtb_spec (len payload) 0); [|lia].
    unfold Engine.read_record.
    destruct (Z.gtb_spec (block_start + len payload) block_size); [lia|].
    rewrite buffer_read_app. cbv zeta beta iota.
    rewrite (buffer_read_header _ _ Hh). cbv beta iota. rewrite Hh.
    change (5 =? 0) with false. cbv beta iota.
    rewrite unpack_BI_header by lia.
    rewrite (IH fuel f2 p2 (block_start + len payload + 5));
      [| unfold frame_ok; cbn [fst snd]; repeat split; assumption || lia | simpl in Hfuel; lia | lia].
    cbn [live_rows fst snd].
    destruct (Z.land flags Engine.DELETED_FLAG =? 0) eqn:El; [|reflexivity].
    apply Z.eqb_eq in El. specialize (Hdec El).
    destruct (RecordPy.from_bytes strict payload); [reflexivity|discriminate].
Qed.

Lemma scan_frames_fit (strict : bool) (block_size : Z) (fuel : nat)
    (frames : list (Z * bytes)) (self : Engine.HadroDB) :
  Engine.file self = log_of frames ->
  frames <> [] -> Forall (frame_ok strict) frames ->
  (length frames <= fuel)%nat ->
  len (log_of frames) <= block_size ->
  Engine.scan_with block_size fuel strict self
  = (live_rows strict frames, Engine.Return).
Proof.
  intros Hfile Hne Hok Hfuel Hfit.
  destruct frames as [|[flags payload] frames]; [congruence|].
  inversion Hok as [|? ? Hf Hfs]; subst.
  pose proof Hf as (Hfl & Hlen & Hdec). cbn [fst snd] in *.
  assert (Hlog : log_of ((flags, payload) :: frames)
                 = (b8 flags :: be_bytes 4 (len payload)) ++ payload ++ log_of frames).
  { unfold log_of. cbn [map concat]. unfold frame_bytes at 1. cbn [fst snd].
    rewrite <- app_comm_cons, <- app_assoc. reflexivity. }
  assert (Hh : len (b8 flags :: be_bytes 4 (len payload)) = 5)
    by (rewrite len_cons, len_be_bytes; reflexivity).
  rewrite Hlog in *. rewrite !len_app, Hh in Hfit.
  unfold Engine.scan_with. rewrite Hfile.
  rewrite (buffer_read_header _ _ Hh), unpack_BI_header by lia.
  apply scan_loop_within_block; [exact Hfs | exact Hf | simpl in Hfuel; lia | lia].
Qed.

(** X1.  On a log of well-formed frames that is no longer than the read
    buffer, [scan] yields exactly the rows of the live frames, in file
    order, and ends normally; the payload of a tombstoned frame is skipped
    without being decoded. *)
Theorem scan_within_block (strict : bool) (block_size : Z) (fuel : nat)
    (frames : list (Z * bytes)) (self : Engine.HadroDB) :
  Engine.file self = log_of frames ->
  frames <> [] -> Forall (frame_ok strict) frames ->
  (length frames <= fuel)%nat ->
  len (log_of frames) <= block_size ->
  Engine.scan_with block_size fuel strict self
  = (live_rows strict frames, Engine.Return).
Proof. apply scan_frames_fit. Qed.

Lemma scan_within_block_witness :
  Engine.scan_with 64 3 true
    (Engine.opened (log_of [(0, [b8 0x91; b8 1]); (1, [b8 0xc1]); (0, [b8 0x90])]))
  = ([[VInt 1]; []], Engine.Return).
Proof.
  apply (scan_within_block true 64 3
           [(0, [b8 0x91; b8 1]); (1, [b8 0xc1]); (0, [b8 0x90])]).
  - reflexivity.
  - discriminate.
  - repeat constructor; cbn; try lia; try discriminate; reflexivity.
  - simpl. lia.
  - vm_compute. discriminate.
Defined.

(** ** [scan]: records that span read buffers *)

Lemma buffer_read_prefix (k : Z) (payload rest : bytes) :
  0 <= k <= len payload ->
  Engine.buffer_read k (payload ++ rest)
  = Ok (take (Z.to_nat k) payload, drop (Z.to_nat k) payload ++ rest).
Proof.
  intros Hk. unfold Engine.buffer_read.
  destruct (Z.ltb_spec k (-1)); [lia|]. destruct (Z.eqb_spec k (-1)); [lia|].
  unfold len in Hk. rewrite take_app_le, drop_app_le by lia. reflexivity.
Qed.

Lemma read_spanning_ok (block_size : Z) (fuel : nat) :
  0 < block_size ->
  forall (remaining_size : Z) (data_bytes payload rest : bytes) (block_start : Z),
    len payload = remaining_size -> remaining_size <= Z.of_nat fuel ->
    Engine.read_spanning fuel block_size remaining_size data_bytes
      (payload ++ rest) block_start
    = Some (Ok (data_bytes ++ payload, rest,
                if remaining_size >? 0 then (remaining_size - 1) mod block_size + 1
                else block_start)).
Proof.
  intros Hb. induction fuel as [|fuel IH];
    intros remaining data payload rest bstart Hl Hf.
  - pose proof (len_nonneg payload). assert (remaining = 0) by lia. subst remaining.
    destruct payload; [|discriminate]. cbn. rewrite app_nil_r. reflexivity.
  - cbn [Engine.read_spanning]. destruct (Z.gtb_spec remaining 0).
    + set (k := Z.min remaining block_size).
      assert (Hk : 0 < k <= len payload) by (unfold k; lia).
      rewrite buffer_read_prefix by lia.
      assert (Hlt : len (take (Z.to_nat k) payload) = k)
        by (unfold len in *; rewrite length_take; lia).
      rewrite Hlt.
      rewrite (IH (remaining - k) (data ++ take (Z.to_nat k) payload)
                 (drop (Z.to_nat k) payload) rest k);
        [| unfold len in *; rewrite length_drop; lia | lia].
      rewrite <- app_assoc, take_drop. do 3 f_equal.
      destruct (Z.gtb_spec (remaining - k) 0).
      * assert (k = block_size) by (unfold k; lia).
        replace (remaining - 1) with (remaining - k - 1 + 1 * block_size) by lia.
        rewrite Z.mod_add by lia. reflexivity.
      * assert (k = remaining) by (unfold k; lia).
        rewrite Z.mod_small by lia. lia.
    + pose proof (len_nonneg payload). assert (remaining = 0) by lia. subst remaining.
      destruct payload; [|discriminate]. rewrite app_nil_r. reflexivity.
Qed.

(** A record that starts with [block_start] inside the read buffer is read
    whole, however many buffer boundaries it spans. *)
Lemma read_record_ok (block_size : Z) (fuel : nat) (payload rest : bytes)
    (block_start : Z) :
  0 < block_size -> 0 <= block_start <= block_size ->
  0 < len payload <= Z.of_nat fuel ->
  Engine.read_record fuel block_size (len payload) (payload ++ rest) block_start
  = Some (Ok (payload, rest, next_block_start block_size block_start (len payload))).
Proof.
  intros Hb Hs Hl. unfold Engine.read_record, next_block_start.
  destruct (Z.gtb_spec (block_start + len payload) block_size).
  - rewrite buffer_read_prefix by lia.
    set (k := block_size - block_start) in *.
    rewrite (read_spanning_ok block_size fuel Hb (len payload - k)
               (take (Z.to_nat k) payload) (drop (Z.to_nat k) payload) rest
               block_start);
      [| unfold len in *; rewrite length_drop; lia | lia].
    rewrite take_drop. destruct (Z.gtb_spec (len payload - k) 0); [|lia].
    reflexivity.
  - rewrite buffer_read_app. reflexivity.
Qed.

Lemma next_block_start_range (block_size block_start size : Z) :
  0 < block_size -> 0 <= block_start <= block_size -> 0 < size ->
  0 < next_block_start block_size block_start size <= block_size.
Proof.
  intros Hb Hs Hz. unfold next_block_start.
  destruct (Z.gtb_spec (block_start + size) block_size); [|lia].
  pose proof (Z.mod_pos_bound (size - (block_size - block_start) - 1) block_size Hb).
  lia.
Qed.

Lemma log_of_cons (flags : Z) (payload : bytes) (frames : list (Z * bytes)) :
  log_of ((flags, payload) :: frames)
  = (b8 flags :: be_bytes 4 (len payload)) ++ payload ++ log_of frames.
Proof.
  unfold log_of. cbn [map concat]. unfold frame_bytes at 1. cbn [fst snd].
  rewrite <- app_comm_cons, <- app_assoc. reflexivity.
Qed.

Lemma len_frame_header (flags n : Z) : len (b8 flags :: be_bytes 4 n) = 5.
Proof. rewrite len_cons, len_be_bytes. reflexivity. Qed.

Lemma scan_loop_frames (strict : bool) (block_size : Z)
    (frames : list (Z * bytes)) :
  0 < block_size ->
  Forall (frame_ok strict) frames ->
  forall (fuel : nat) (flags : Z) (payload : bytes) (block_start : Z),
    frame_ok strict (flags, payload) ->
    starts_inside block_size block_start ((flags, payload) :: frames) ->
    len payload + len (log_of frames) < Z.of_nat fuel ->
    Engine.scan_loop fuel strict block_size flags (len payload)
      (payload ++ log_of frames) block_start
    = (live_rows strict ((flags, payload) :: frames), Engine.Return).
Proof.
  intros Hb. induction 1 as [|[f2 p2] frames Hf2 Hfs IH];
    intros fuel flags payload block_start (Hfl & Hlen & Hdec) [Hs Hin] Hfuel;
    cbn [fst snd] in *.
  - change (log_of []) with (@nil byte) in *. rewrite len_nil in Hfuel.
    destruct fuel as [|fuel]; [lia|].
    rewrite scan_loop_unfold. destruct (Z.gtb_spec (len payload) 0); [|lia].
    rewrite read_record_ok by lia. cbv zeta beta iota.
    change (Engine.buffer_read 5 []) with (Ok (@nil byte, @nil byte)).
    cbv beta iota. change (len (@nil byte) =? 0) with true. cbv beta iota.
    cbn [live_rows].
    destruct (Z.land flags Engine.DELETED_FLAG =? 0) eqn:El; [|reflexivity].
    apply Z.eqb_eq in El. specialize (Hdec El).
    destruct (RecordPy.from_bytes strict payload); [reflexivity|discriminate].
  - destruct fuel as [|fuel]; [pose proof (len_nonneg (log_of ((f2, p2) :: frames))); lia|].
    destruct Hf2 as (Hfl2 & Hlen2 & Hdec2). cbn [fst snd] in *.
    rewrite log_of_cons in *.
    pose proof (len_frame_header f2 (len p2)) as Hh.
    rewrite !len_app, Hh in Hfuel.
    pose proof (len_nonneg (log_of frames)) as Hnn.
    rewrite scan_loop_unfold. destruct (Z.gtb_spec (len payload) 0); [|lia].
    rewrite read_record_ok by lia. cbv zeta beta iota.
    rewrite (buffer_read_header _ _ Hh). cbv beta iota. rewrite Hh.
    change (5 =? 0) with false. cbv beta iota.
    rewrite unpack_BI_header by lia.
    rewrite (IH fuel f2 p2 (next_block_start block_size block_start (len payload) + 5));
      [| unfold frame_ok; cbn [fst snd]; repeat split; assumption || lia
       | exact Hin | lia].
    cbn [live_rows fst snd].
    destruct (Z.land flags Engine.DELETED_FLAG =? 0) eqn:El; [|reflexivity].
    apply Z.eqb_eq in El. specialize (Hdec El).
    destruct (RecordPy.from_bytes strict payload); [reflexivity|discriminate].
Qed.

(** X2.  [scan] reads a log of well-formed frames completely, whatever the
    sizes of the records relative to the read buffer, provided the
    bookkeeping of [block_start] never passes the buffer size at the start
    of a record: every live row is yielded, in file order, and the scan ends
    normally.  A record larger than the buffer is reassembled from as many
    reads as it takes. *)
Theorem scan_records_across_blocks (strict : bool) (block_size : Z) (fuel : nat)
    (frames : list (Z * bytes)) (self : Engine.HadroDB) :
  Engine.file self = log_of frames ->
  frames <> [] -> Forall (frame_ok strict) frames ->
  0 < block_size -> starts_inside block_size 5 frames ->
  len (log_of frames) <= Z.of_nat fuel ->
  Engine.scan_with block_size fuel strict self
  = (live_rows strict frames, Engine.Return).
Proof.
  intros Hfile Hne Hok Hb Hin Hfuel.
  destruct frames as [|[flags payload] frames]; [congruence|].
  inversion Hok as [|? ? Hf Hfs]; subst.
  pose proof Hf as (Hfl & Hlen & Hdec). cbn [fst snd] in *.
  rewrite log_of_cons in *. pose proof (len_frame_header flags (len payload)) as Hh.
  rewrite !len_app, Hh in Hfuel.
  unfold Engine.scan_with. rewrite Hfile.
  rewrite (buffer_read_header _ _ Hh), unpack_BI_header by lia.
  apply scan_loop_frames; [exact Hb | exact Hfs | exact Hf | exact Hin | lia].
Qed.

Lemma scan_records_across_blocks_witness :
  Engine.scan_with 6 40 true
    (Engine.opened
       (log_of [(0, [b8 0x92; b8 0xa5; b8 97; b8 98; b8 99; b8 100; b8 101; b8 0xc0]);
                (0, [b8 0x90])]))
  = ([[VStr [97; 98; 99; 100; 101]; VNone]; []], Engine.Return).
Proof.
  apply (scan_records_across_blocks true 6 40
           [(0, [b8 0x92; b8 0xa5; b8 97; b8 98; b8 99; b8 100; b8 101; b8 0xc0]);
            (0, [b8 0x90])]).
  - reflexivity.
  - discriminate.
  - repeat constructor; cbn; try lia; try discriminate; reflexivity.
  - lia.
  - cbn [starts_inside snd]. unfold next_block_start. vm_compute. intuition discriminate.
  - vm_compute. discriminate.
Defined.

(** ** [scan]: a read that never ends *)

Lemma read_spanning_at_eof (block_size : Z) (fuel : nat) :
  0 < block_size ->
  forall (remaining_size : Z) (data_bytes : bytes) (block_start : Z),
    0 < remaining_size ->
    Engine.read_spanning fuel block_size remaining_size data_bytes [] block_start
    = None.
Proof.
  intros Hb. induction fuel as [|fuel IH]; intros remaining data bstart Hr;
    cbn [Engine.read_spanning]; destruct (Z.gtb_spec remaining 0); try lia;
    [reflexivity|].
  unfold Engine.buffer_read.
  destruct (Z.ltb_spec (Z.min remaining block_size) (-1)); [lia|].
  destruct (Z.eqb_spec (Z.min remaining block_size) (-1)); [lia|].
  rewrite take_nil, drop_nil, len_nil, Z.sub_0_r. apply IH. exact Hr.
Qed.

Lemma read_record_fits (block_size : Z) (fuel : nat) (payload rest : bytes)
    (block_start : Z) :
  block_start + len payload <= block_size ->
  Engine.read_record fuel block_size (len payload) (payload ++ rest) block_start
  = Some (Ok (payload, rest, block_start + len payload)).
Proof.
  intros H. unfold Engine.read_record.
  destruct (Z.gtb_spec (block_start + len payload) block_size); [lia|].
  rewrite buffer_read_app. reflexivity.
Qed.

(** With [block_start] one past the buffer size, the record is read with
    [buffer.read(-1)], which takes the rest of the file, and the inner loop
    then waits for one more byte that never comes. *)
Lemma read_record_one_past (block_size : Z) (fuel : nat) (size : Z) (buffer : bytes) :
  0 < block_size -> 0 < size ->
  Engine.read_record fuel block_size size buffer (block_size + 1) = None.
Proof.
  intros Hb Hs. unfold Engine.read_record.
  destruct (Z.gtb_spec (block_size + 1 + size) block_size); [|lia].
  replace (block_size - (block_size + 1)) with (-1) by lia.
  change (Engine.buffer_read (-1) buffer) with (Ok (buffer, @nil byte)).
  cbv beta iota. apply read_spanning_at_eof; lia.
Qed.

(** X3.  When the first record ends four bytes before the read-buffer size
    (a payload of [block_size - 9] bytes), the header of the second record
    leaves [block_start] at [block_size + 1], and [scan] never terminates:
    whatever the fuel, the run does not end, and from fuel 1 on exactly the
    first live row has been yielded. *)
Theorem scan_hangs_one_past_block (strict : bool) (block_size : Z) (fuel : nat)
    (fr1 fr2 : Z * bytes) (self : Engine.HadroDB) :
  Engine.file self = log_of [fr1; fr2] ->
  frame_ok strict fr1 -> frame_ok strict fr2 ->
  len (snd fr1) = block_size - 9 ->
  snd (Engine.scan_with block_size fuel strict self) = Engine.NoFuel /\
  ((0 < fuel)%nat ->
   fst (Engine.scan_with block_size fuel strict self) = live_rows strict [fr1]).
Proof.
  destruct fr1 as [f1 p1], fr2 as [f2 p2].
  intros Hfile (Hfl1 & Hlen1 & Hdec1) (Hfl2 & Hlen2 & Hdec2) Hsz. cbn [fst snd] in *.
  unfold Engine.scan_with. rewrite Hfile, !log_of_cons.
  rewrite (buffer_read_header _ _ (len_frame_header f1 (len p1))).
  rewrite unpack_BI_header by lia.
  destruct fuel as [|fuel].
  { cbn [Engine.scan_loop]. destruct (Z.gtb_spec (len p1) 0); [|lia].
    split; [reflexivity | lia]. }
  rewrite scan_loop_unfold. destruct (Z.gtb_spec (len p1) 0); [|lia].
  rewrite read_record_fits by lia.
  replace (5 + len p1) with (block_size - 4) by lia.
  cbv zeta beta iota.
  rewrite (buffer_read_header _ _ (len_frame_header f2 (len p2))).
  cbv beta iota. rewrite len_frame_header.
  change (5 =? 0) with false. cbv beta iota.
  rewrite unpack_BI_header by lia.
  replace (block_size - 4 + 5) with (block_size + 1) by lia.
  assert (Hnext : Engine.scan_loop fuel strict block_size f2 (len p2)
                    (p2 ++ log_of []) (block_size + 1) = ([], Engine.NoFuel)).
  { destruct fuel as [|fuel].
    - cbn [Engine.scan_loop]. destruct (Z.gtb_spec (len p2) 0); [reflexivity|lia].
    - rewrite scan_loop_unfold. destruct (Z.gtb_spec (len p2) 0); [|lia].
      rewrite read_record_one_past by lia. reflexivity. }
  rewrite Hnext. cbn [fst snd live_rows].
  destruct (Z.land f1 Engine.DELETED_FLAG =? 0) eqn:El.
  - apply Z.eqb_eq in El. specialize (Hdec1 El).
    destruct (RecordPy.from_bytes strict p1); [|discriminate].
    split; reflexivity.
  - split; reflexivity.
Qed.

Lemma scan_hangs_one_past_block_witness :
  snd (Engine.scan_with 11 1000 true
         (Engine.opened (log_of [(0, [b8 0x91; b8 1]); (0, [b8 0x90])])))
  = Engine.NoFuel /\
  ((0 < 1000)%nat ->
   fst (Engine.scan_with 11 1000 true
          (Engine.opened (log_of [(0, [b8 0x91; b8 1]); (0, [b8 0x90])])))
   = live_rows true [(0, [b8 0x91; b8 1])]).
Proof.
  apply (scan_hangs_one_past_block true 11 1000 (0, [b8 0x91; b8 1]) (0, [b8 0x90])).
  - reflexivity.
  - repeat split; cbn; try lia; reflexivity.
  - repeat split; cbn; try lia; reflexivity.
  - reflexivity.
Defined.

(** ** Sequences of appends *)

Lemma packb_nonempty (t : Row) (payload : bytes) :
  packb t = Ok payload -> 0 < len payload.
Proof.
  unfold packb, pack_array_header. intros H.
  destruct (len t <? 16);
    [| destruct (len t <? 2 ^ 16); [| destruct (len t <? 2 ^ 32); [|discriminate]]];
    cbn [mbind result_bind] in H;
    (destruct (pack_values t) as [b|]; [|discriminate]);
    cbn [mbind result_bind] in H; apply Ok_inj in H; subst payload;
    rewrite <- app_comm_cons, len_cons; pose proof (len_nonneg (be_bytes 0 0));
    match goal with |- 0 < 1 + len ?l => pose proof (len_nonneg l) end; lia.
Qed.

(** What a successful [append] did, in terms of the payload of the row. *)
Lemma append_inv (aggressive : bool) (self self' : Engine.HadroDB)
    (rec : Engine.record) (v : value) :
  Engine.append aggressive self rec = Ok (self', v) ->
  exists payload,
    packb (Engine.record_values rec) = Ok payload /\
    0 < len payload < 2 ^ 32 /\
    v = VNone /\
    Engine.file self' = Engine.file self ++ frame_bytes (0, payload) /\
    Engine.write_position self'
    = Engine.write_position self + len (frame_bytes (0, payload)) /\
    Engine.key_dir self' = Engine.key_dir self /\
    Engine.synced self'
    = if aggressive then len (Engine.file self') else Engine.synced self.
Proof.
  unfold Engine.append, RecordPy.to_bytes. intros H.
  destruct (packb (Engine.record_values rec)) as [payload|] eqn:Ep; [|discriminate].
  cbn [mbind result_bind] in H. unfold int_to_bytes4 in H.
  pose proof (packb_nonempty _ _ Ep) as Hpos.
  destruct (Z.leb_spec 0 (len payload)); [|lia].
  destruct (Z.ltb_spec (len payload) (2 ^ 32)); [|discriminate].
  cbn [andb mbind result_bind] in H. apply Ok_inj in H.
  apply (f_equal fst) in H as Hs. apply (f_equal snd) in H as Hv.
  cbn [fst snd] in Hs, Hv. subst self' v.
  exists payload. cbn [Engine.file Engine.write_position Engine.key_dir
                        Engine.synced Engine._write].
  repeat split; try assumption; try lia.
Qed.

Lemma log_of_app (fs gs : list (Z * bytes)) :
  log_of (fs ++ gs) = log_of fs ++ log_of gs.
Proof. unfold log_of. rewrite map_app, concat_app. reflexivity. Qed.

(** What a successful sequence of appends did. *)
Lemma append_many_inv (aggressive : bool) (recs : list Engine.record) :
  forall (self self' : Engine.HadroDB),
    append_many aggressive self recs = Ok self' ->
    exists payloads,
      Forall2 (fun rec p => packb (Engine.record_values rec) = Ok p /\
                            0 < len p < 2 ^ 32) recs payloads /\
      Engine.file self' = Engine.file self ++ log_of (map (pair 0) payloads) /\
      Engine.write_position self'
      = Engine.write_position self + len (log_of (map (pair 0) payloads)) /\
      Engine.key_dir self' = Engine.key_dir self.
Proof.
  induction recs as [|rec recs IH]; intros self self' H.
  - apply Ok_inj in H. subst self'. exists [].
    split; [constructor|]. cbn. rewrite app_nil_r, len_nil.
    repeat split; lia.
  - cbn [append_many] in H.
    destruct (Engine.append aggressive self rec) as [[s1 v]|] eqn:E1; [|discriminate].
    cbn [mbind result_bind] in H.
    destruct (append_inv _ _ _ _ _ E1) as (p & Hp & Hl & _ & Hf & Hw & Hk & _).
    destruct (IH _ _ H) as (ps & Hps & Hf' & Hw' & Hk').
    exists (p :: ps). split; [constructor; [split; assumption | exact Hps]|].
    cbn [map]. change ((0, p) :: map (pair 0) ps) with ([(0, p)] ++ map (pair 0) ps).
    rewrite log_of_app.
    replace (log_of [(0, p)]) with (frame_bytes (0, p))
      by (unfold log_of; cbn; rewrite app_nil_r; reflexivity).
    rewrite Hf', Hw', Hk', Hf, Hw, Hk, len_app, <- app_assoc.
    repeat split; lia.
Qed.

Lemma append_many_synced (aggressive : bool) (recs : list Engine.record) :
  forall (self self' : Engine.HadroDB),
    append_many aggressive self recs = Ok self' ->
    Engine.synced self'
    = if aggressive && negb (length recs =? 0)%nat then len (Engine.file self')
      else Engine.synced self.
Proof.
  induction recs as [|rec recs IH]; intros self self' H.
  - apply Ok_inj in H. subst self'. cbn. rewrite andb_false_r. reflexivity.
  - cbn [append_many] in H.
    destruct (Engine.append aggressive self rec) as [[s1 v]|] eqn:E1; [|discriminate].
    cbn [mbind result_bind] in H.
    destruct (append_inv _ _ _ _ _ E1) as (p & _ & _ & _ & _ & _ & _ & Hy).
    rewrite (IH _ _ H). cbn [length Nat.eqb negb]. rewrite andb_true_r.
    destruct aggressive; cbn [andb]; [|exact Hy].
    destruct recs as [|rec2 recs]; cbn [length Nat.eqb negb]; [|reflexivity].
    apply Ok_inj in H. subst self'. exact Hy.
Qed.

Lemma appended_frames (strict : bool) (rows : list Row) (payloads : list bytes) :
  Forall2 (fun rec p => packb (Engine.record_values rec) = Ok p /\
                        0 < len p < 2 ^ 32) (map Engine.RSeq rows) payloads ->
  Forall (Forall value_ok) rows ->
  Forall (frame_ok strict) (map (pair 0) payloads) /\
  live_rows strict (map (pair 0) payloads) = rows /\
  length payloads = length rows.
Proof.
  revert payloads. induction rows as [|row rows IH]; intros payloads H2 Hv.
  - inversion H2; subst. repeat split. constructor.
  - cbn [map] in H2. inversion H2 as [|? p ? ps [Hp Hl] Hps]; subst.
    inversion Hv as [|? ? Hrow Hrows]; subst.
    destruct (IH ps Hps Hrows) as (Hok & Hlive & Hlen).
    cbn [Engine.record_values] in Hp.
    pose proof (from_bytes_packb strict row p Hrow Hp) as Hdec.
    split; [|split].
    + cbn [map]. constructor; [|exact Hok].
      unfold frame_ok. cbn [fst snd]. rewrite Hdec. repeat split; lia.
    + cbn [map live_rows]. change (Z.land 0 Engine.DELETED_FLAG =? 0) with true.
      cbv beta iota. rewrite Hdec, Hlive. reflexivity.
    + cbn [length]. rewrite Hlen. reflexivity.
Qed.

(** X4.  Rows appended to the engine of a new collection come back from
    [scan], all of them and in the order of the appends, as long as the data
    file is no longer than the read buffer; the same holds for the engine
    that a later [HadroDB(collection)] builds over the same data file. *)
Theorem append_then_scan (aggressive strict : bool) (rows : list Row)
    (self' : Engine.HadroDB) (fuel : nat) :
  append_many aggressive Engine.fresh (map Engine.RSeq rows) = Ok self' ->
  rows <> [] -> Forall (Forall value_ok) rows ->
  len (Engine.file self') <= Engine.BLOCK_SIZE -> (length rows <= fuel)%nat ->
  Engine.scan fuel strict self' = (rows, Engine.Return) /\
  (forall c, exists reopened,
     Engine.init (Some c) (Engine.Folder (Some (Engine.file self'))) = Ok reopened /\
     Engine.scan fuel strict reopened = (rows, Engine.Return)).
Proof.
  intros H Hne Hv Hfit Hfuel.
  destruct (append_many_inv _ _ _ _ H) as (payloads & H2 & Hf & _ & _).
  destruct (appended_frames strict rows payloads H2 Hv) as (Hok & Hlive & Hlen).
  cbn [Engine.file Engine.fresh app] in Hf. rewrite Hf in Hfit.
  assert (Hne' : map (pair 0) payloads <> []).
  { destruct payloads; [|discriminate]. destruct rows; [congruence|discriminate]. }
  assert (Hfuel' : (length (map (pair 0%Z) payloads) <= fuel)%nat)
    by (rewrite length_map, Hlen; exact Hfuel).
  split.
  - unfold Engine.scan. rewrite <- Hlive.
    apply scan_frames_fit; assumption.
  - intros c. exists (Engine.opened (Engine.file self')). split; [reflexivity|].
    unfold Engine.scan. rewrite <- Hlive.
    apply scan_frames_fit; assumption.
Qed.

Lemma append_then_scan_witness :
  exists self',
    append_many false Engine.fresh
      (map Engine.RSeq [[VInt 1; VStr [97]]; []; [VNone; VBool true]]) = Ok self' /\
    Engine.scan 3 true self'
    = ([[VInt 1; VStr [97]]; []; [VNone; VBool true]], Engine.Return) /\
    (forall c, exists reopened,
       Engine.init (Some c) (Engine.Folder (Some (Engine.file self'))) = Ok reopened /\
       Engine.scan 3 true reopened
       = ([[VInt 1; VStr [97]]; []; [VNone; VBool true]], Engine.Return)).
Proof.
  eexists. split; [reflexivity|].
  apply (append_then_scan false true [[VInt 1; VStr [97]]; []; [VNone; VBool true]]).
  - reflexivity.
  - discriminate.
  - repeat constructor.
  - vm_compute. discriminate.
  - simpl. lia.
Defined.

(** X5.  A sequence of successful appends only adds bytes at the end of the
    data file; [write_position] advances by exactly the number of bytes
    added; the key directory is left as it was, so [len(db)] does not
    change; in AGGRESSIVE mode the whole file has been synced after the last
    append, in the default mode the appends sync nothing. *)
Theorem append_many_bookkeeping (aggressive : bool) (self self' : Engine.HadroDB)
    (recs : list Engine.record) :
  append_many aggressive self recs = Ok self' ->
  (exists written,
     Engine.file self' = Engine.file self ++ written /\
     Engine.write_position self' = Engine.write_position self + len written) /\
  Engine.write_position self' - Engine.write_position self
  = len (Engine.file self') - len (Engine.file self) /\
  Engine.key_dir self' = Engine.key_dir self /\
  __len__ self' = __len__ self /\
  Engine.synced self'
  = if aggressive && negb (length recs =? 0)%nat then len (Engine.file self')
    else Engine.synced self.
Proof.
  intros H. destruct (append_many_inv _ _ _ _ H) as (payloads & _ & Hf & Hw & Hk).
  split; [eexists; split; [exact Hf | exact Hw]|].
  split; [rewrite Hf, Hw, len_app; lia|].
  split; [exact Hk|]. split; [unfold __len__; rewrite Hk; reflexivity|].
  apply append_many_synced. exact H.
Qed.

Lemma append_many_bookkeeping_witness :
  exists self',
    append_many true (Engine.opened [x00; x00; x00; x00; x01; b8 0x90])
      [Engine.RSeq [VInt 7]; Engine.RDict [("k"%string, VNone)]] = Ok self' /\
    (exists written,
       Engine.file self' = [x00; x00; x00; x00; x01; b8 0x90] ++ written /\
       Engine.write_position self' = 0 + len written) /\
    Engine.write_position self' - 0 = len (Engine.file self') - 6 /\
    Engine.key_dir self' = ∅ /\
    __len__ self' = 0 /\
    Engine.synced self' = len (Engine.file self').
Proof.
  eexists. split; [reflexivity|].
  apply (append_many_bookkeeping true (Engine.opened [x00; x00; x00; x00; x01; b8 0x90]) _
           [Engine.RSeq [VInt 7]; Engine.RDict [("k"%string, VNone)]]).
  reflexivity.
Defined.

(** ** The fixed-width codec: trailing bytes, truncated input, sizes *)

Section FixedWidthEdges.
Import RowClassPy.

Lemma to_bytes_chunks (S : schema) (r : Row) (data : bytes) :
  conforms S r -> to_bytes S r = Ok data ->
  exists chunks, to_bytes_loop S r 0%nat = Ok chunks /\ data = concat chunks /\
    forall pre post, from_bytes_loop S (pre ++ concat chunks ++ post) (len pre) = Ok r.
Proof.
  intros Hc Hd. destruct (to_from_loop S r Hc r 0%nat eq_refl) as (chunks & Hl & Hf).
  exists chunks. unfold to_bytes in Hd. rewrite Hl in Hd. apply Ok_inj in Hd.
  repeat split; [exact Hl | symmetry; exact Hd | exact Hf].
Qed.

(** X6.  [Row.from_bytes] of the fixed-width codec reads the fields of the
    schema and never looks at what follows: bytes after the encoding of a
    conforming row are ignored. *)
Theorem from_bytes_ignores_trailing (S : schema) (r : Row) (data extra : bytes) :
  conforms S r -> to_bytes S r = Ok data ->
  from_bytes S (data ++ extra) = Ok r.
Proof.
  intros Hc Hd. destruct (to_bytes_chunks S r data Hc Hd) as (chunks & _ & -> & Hf).
  unfold from_bytes. exact (Hf [] extra).
Qed.

Lemma from_bytes_ignores_trailing_witness :
  from_bytes [("id"%string, {| ftype := "INTEGER"; nullable := true |})]
    ([b8 1; b8 0; b8 0; b8 0; b8 0; b8 0; b8 0; b8 0; b8 5] ++ [b8 9; b8 9])
  = Ok [VInt 5].
Proof.
  apply (from_bytes_ignores_trailing
           [("id"%string, {| ftype := "INTEGER"; nullable := true |})] [VInt 5]).
  - constructor; [cbn; split; [reflexivity|lia]|constructor].
  - reflexivity.
Defined.

Lemma slice_from_short (size : Z) (data : bytes) (offset : Z) :
  len data < offset + size -> slice_from size data offset = Raise StructError.
Proof.
  intros H. unfold slice_from.
  destruct (Z.leb_spec (offset + size) (len data)); [lia|reflexivity].
Qed.

Lemma len_take_lt {A : Type} (n : nat) (l : list A) :
  (n < length l)%nat -> len (take n l) = Z.of_nat n.
Proof. intros H. unfold len. rewrite length_take. lia. Qed.

Lemma read_fixed_truncated (ft : string) (nl : bool) (form : format) (size : Z)
    (packed pre : bytes) (n : nat) :
  String.eqb ft "VARCHAR" = false -> TYPE_DICT ft = Some (form, size) ->
  len packed = size -> (n < length packed)%nat ->
  read_value {| ftype := ft; nullable := nl |} (pre ++ take n packed) (len pre)
  = Raise StructError.
Proof.
  intros Hv Ht Hl Hn. unfold read_value. cbn [ftype]. rewrite Hv, Ht.
  assert (Hs : slice_from size (pre ++ take n packed) (len pre) = Raise StructError).
  { apply slice_from_short. rewrite len_app, len_take_lt by exact Hn.
    unfold len in *. lia. }
  unfold TYPE_DICT in Ht.
  destruct (String.eqb ft "BOOLEAN");
    [| destruct (String.eqb ft "FLOAT"); [| destruct (String.eqb ft "INTEGER");
       [|discriminate]]];
    apply (f_equal (fun o => match o with Some p => p | None => (form, size) end)) in Ht;
    apply (f_equal fst) in Ht as Hf; apply (f_equal snd) in Ht as Hz;
    cbn [fst snd] in Hf, Hz; rewrite <- Hf, <- Hz in *;
    unfold struct_unpack_from; rewrite Hs; reflexivity.
Qed.

Lemma read_varchar_truncated (nl : bool) (u pre : bytes) (n : nat) :
  len u <= 65535 -> (n < length (be_bytes 2 (len u) ++ u))%nat ->
  read_value {| ftype := "VARCHAR"; nullable := nl |}
    (pre ++ take n (be_bytes 2 (len u) ++ u)) (len pre)
  = Raise StructError.
Proof.
  intros Hu Hn. unfold read_value. cbn [ftype].
  change (String.eqb "VARCHAR" "VARCHAR") with true. cbv beta iota.
  pose proof (len_take_lt n _ Hn) as Ht. pose proof (len_nonneg u) as Hnn.
  rewrite length_app, length_be_bytes in Hn. unfold struct_unpack_uint.
  destruct (Nat.lt_ge_cases n 2) as [Hlt|Hge].
  - rewrite slice_from_short; [reflexivity|]. rewrite len_app, Ht. lia.
  - rewrite take_app_ge by (rewrite length_be_bytes; exact Hge).
    rewrite length_be_bytes.
    rewrite (slice_from_eq _ pre (be_bytes 2 (len u)) (take (n - 2) u))
      by first [reflexivity | now rewrite len_be_bytes].
    cbn [mbind result_bind].
    rewrite be_int_be_bytes by (change (256 ^ Z.of_nat 2) with 65536; lia).
    rewrite slice_from_short; [reflexivity|].
    rewrite !len_app, len_be_bytes.
    assert (len (take (n - 2) u) = Z.of_nat (n - 2)) by (apply len_take_lt; lia).
    unfold len in *. lia.
Qed.

Lemma read_field_truncated (fi : field_info) (v : value) (chunk : list bytes) :
  field_conforms (""%string, fi) v -> pack_field fi v = Ok chunk ->
  forall (pre : bytes) (n : nat), (n < length (concat chunk))%nat ->
    read_field fi (pre ++ take n (concat chunk)) (len pre) = Raise StructError.
Proof.
  intros Hc Hp pre n Hn. destruct fi as [ft nl].
  assert (Hpres : forall packed : bytes,
            (n < length ([b8 1] ++ packed))%nat ->
            (forall m, (m < length packed)%nat ->
               read_value {| ftype := ft; nullable := true |}
                 ((pre ++ [b8 1]) ++ take m packed) (len (pre ++ [b8 1]))
               = Raise StructError) ->
            read_field {| ftype := ft; nullable := true |}
              (pre ++ take n ([b8 1] ++ packed)) (len pre) = Raise StructError).
  { intros packed Hlt Hv. unfold read_field. cbn [nullable]. unfold struct_unpack_uint.
    destruct n as [|m].
    - rewrite slice_from_short; [reflexivity|]. cbn [take]. rewrite app_nil_r. lia.
    - cbn [app take].
      rewrite (slice_from_eq _ pre [b8 1] (take m packed)) by reflexivity.
      cbn [mbind result_bind]. rewrite be_int_byte by lia.
      change (1 =? 0) with false. cbv beta iota.
      replace (pre ++ b8 1 :: take m packed) with ((pre ++ [b8 1]) ++ take m packed)
        by (rewrite <- app_assoc; reflexivity).
      replace (len pre + 1) with (len (pre ++ [b8 1]))
        by (rewrite len_app; reflexivity).
      apply Hv. cbn [app length] in Hlt. lia. }
  destruct v as [|b|z|bits|s]; cbn [field_conforms snd ftype nullable] in Hc.
  - cbn in Hc. subst nl. unfold pack_field in Hp. cbn [nullable] in Hp.
    apply Ok_inj in Hp. subst chunk. cbn in Hn.
    assert (n = 0%nat) by lia. subst n. unfold read_field. cbn [nullable].
    unfold struct_unpack_uint. rewrite slice_from_short; [reflexivity|].
    cbn [concat take app]. rewrite app_nil_r. lia.
  - subst ft. unfold pack_field in Hp. cbn -[b8] in Hp.
    destruct nl; apply Ok_inj in Hp; subst chunk; cbn [concat app] in *.
    + apply (Hpres [b8 (if b then 1 else 0)]); [exact Hn|]. intros m Hm.
      apply (read_fixed_truncated "BOOLEAN" true Fbool 1); try reflexivity. exact Hm.
    + unfold read_field. cbn [nullable].
      apply (read_fixed_truncated "BOOLEAN" false Fbool 1); try reflexivity. exact Hn.
  - destruct Hc as [-> Hz]. unfold pack_field in Hp.
    cbn -[be_bytes Z.pow] in Hp.
    destruct (Z.leb_spec (- 2 ^ 63) z); [|lia].
    destruct (Z.ltb_spec z (2 ^ 63)); [|lia]. cbn -[be_bytes] in Hp.
    destruct nl; apply Ok_inj in Hp; subst chunk; cbn [concat] in *;
      rewrite ?app_nil_r in *.
    + apply (Hpres (be_bytes 8 z)); [exact Hn|]. intros m Hm.
      apply (read_fixed_truncated "INTEGER" true Fint64 8); try reflexivity; try apply len_be_bytes; exact Hm.
    + cbn [app] in *. unfold read_field. cbn [nullable].
      apply (read_fixed_truncated "INTEGER" false Fint64 8); try reflexivity; try apply len_be_bytes; exact Hn.
  - destruct Hc as [-> Hz]. unfold pack_field in Hp.
    cbn -[be_bytes Z.pow] in Hp.
    destruct nl; apply Ok_inj in Hp; subst chunk; cbn [concat] in *;
      rewrite ?app_nil_r in *.
    + apply (Hpres (be_bytes 8 bits)); [exact Hn|]. intros m Hm.
      apply (read_fixed_truncated "FLOAT" true Fdouble 8); try reflexivity; try apply len_be_bytes; exact Hm.
    + cbn [app] in *. unfold read_field. cbn [nullable].
      apply (read_fixed_truncated "FLOAT" false Fdouble 8); try reflexivity; try apply len_be_bytes; exact Hn.
  - destruct Hc as [-> Hs]. unfold pack_field in Hp.
    cbn -[be_bytes Z.pow utf8_encode len] in Hp.
    destruct (utf8_encode s) as [u|]; [|contradiction].
    cbn [mbind result_bind] in Hp. unfold struct_pack_H_s in Hp.
    destruct (Z.leb_spec (len u) 65535); [|lia]. cbn [mbind result_bind] in Hp.
    destruct nl; apply Ok_inj in Hp; subst chunk; cbn [concat app] in *;
      rewrite ?app_nil_r in *.
    + apply (Hpres (be_bytes 2 (len u) ++ u)); [exact Hn|]. intros m Hm.
      apply read_varchar_truncated; assumption.
    + cbn [app] in *. unfold read_field. cbn [nullable].
      apply read_varchar_truncated; assumption.
Qed.

Lemma from_bytes_loop_truncated (fields : schema) (r : Row) :
  conforms fields r ->
  forall (self : Row) (i : nat) (chunks : list bytes),
    drop i self = r -> to_bytes_loop fields self i = Ok chunks ->
    forall (pre : bytes) (n : nat), (n < length (concat chunks))%nat ->
      from_bytes_loop fields (pre ++ take n (concat chunks)) (len pre)
      = Raise StructError.
Proof.
  induction 1 as [|[name fi] v fields r Hv Hr IH]; intros self i chunks Hd Hl pre n Hn.
  - apply Ok_inj in Hl. subst chunks. cbn in Hn. lia.
  - assert (Hi : self !! i = Some v).
    { pose proof (lookup_drop self i 0) as Hlk.
      rewrite Hd, Nat.add_0_r in Hlk. symmetry. exact Hlk. }
    assert (Hd' : drop (S i) self = r).
    { replace (S i) with (i + 1)%nat by lia. rewrite <- drop_drop, Hd. reflexivity. }
    destruct (read_field_pack fi v Hv) as (chunk & Hp & Hread).
    cbn [to_bytes_loop] in Hl. rewrite Hi in Hl. cbn [mbind result_bind] in Hl.
    rewrite Hp in Hl. cbn [mbind result_bind] in Hl.
    destruct (to_bytes_loop fields self (S i)) as [chunks'|] eqn:El; [|discriminate].
    apply Ok_inj in Hl. subst chunks. rewrite concat_app in *.
    cbn [from_bytes_loop].
    destruct (Nat.lt_ge_cases n (length (concat chunk))) as [Hlt|Hge].
    + rewrite take_app_le by lia.
      rewrite (read_field_truncated fi v chunk Hv Hp pre n Hlt). reflexivity.
    + rewrite take_app_ge by exact Hge. rewrite Hread. cbn [mbind result_bind].
      rewrite <- len_app, app_assoc.
      rewrite (IH self (S i) chunks' Hd' El);
        [reflexivity | rewrite length_app in Hn; lia].
Qed.

(** X7.  [Row.from_bytes] of the fixed-width codec raises [struct.error] on
    every proper prefix of the encoding of a conforming row: input that ends
    in the middle of a field, or before a field, is never decoded to a
    shorter or different row. *)
Theorem from_bytes_truncated (S : schema) (r : Row) (data : bytes) (n : nat) :
  conforms S r -> to_bytes S r = Ok data -> (n < length data)%nat ->
  from_bytes S (take n data) = Raise StructError.
Proof.
  intros Hc Hd Hn. destruct (to_bytes_chunks S r data Hc Hd) as (chunks & Hl & -> & _).
  unfold from_bytes.
  exact (from_bytes_loop_truncated S r Hc r 0%nat chunks eq_refl Hl [] n Hn).
Qed.

Lemma from_bytes_truncated_witness :
  from_bytes [("name"%string, {| ftype := "VARCHAR"; nullable := true |});
              ("ok"%string, {| ftype := "BOOLEAN"; nullable := false |})]
    (take 4 [b8 1; b8 0; b8 2; b8 104; b8 105; b8 1])
  = Raise StructError.
Proof.
  apply (from_bytes_truncated
           [("name"%string, {| ftype := "VARCHAR"; nullable := true |});
            ("ok"%string, {| ftype := "BOOLEAN"; nullable := false |})]
           [VStr [104; 105]; VBool true]).
  - constructor; [cbn; split; [reflexivity | vm_compute; discriminate]|].
    constructor; [reflexivity | constructor].
  - reflexivity.
  - simpl. lia.
Defined.

Lemma pack_field_fixed_width (name : string) (fi : field_info) (v : value)
    (chunk : list bytes) :
  fixed_field (name, fi) -> field_conforms (name, fi) v ->
  pack_field fi v = Ok chunk -> len (concat chunk) = field_width (name, fi).
Proof.
  intros [Hnl Hvc] Hc Hp. destruct fi as [ft nl]. cbn [snd nullable ftype] in *.
  subst nl. unfold field_width. cbn [snd ftype].
  destruct v as [|b|z|bits|s]; cbn [field_conforms snd ftype nullable] in Hc.
  - discriminate.
  - subst ft. unfold pack_field in Hp. cbn -[b8] in Hp. apply Ok_inj in Hp.
    subst chunk. reflexivity.
  - destruct Hc as [-> Hz]. unfold pack_field in Hp. cbn -[be_bytes Z.pow] in Hp.
    destruct (Z.leb_spec (- 2 ^ 63) z); [|lia].
    destruct (Z.ltb_spec z (2 ^ 63)); [|lia]. cbn -[be_bytes] in Hp.
    apply Ok_inj in Hp. subst chunk. reflexivity.
  - destruct Hc as [-> Hz]. unfold pack_field in Hp. cbn -[be_bytes Z.pow] in Hp.
    apply Ok_inj in Hp. subst chunk. reflexivity.
  - destruct Hc as [-> _]. congruence.
Qed.

Lemma to_bytes_loop_fixed_width (fields : schema) (r : Row) :
  conforms fields r -> Forall fixed_field fields ->
  forall (self : Row) (i : nat) (chunks : list bytes),
    drop i self = r -> to_bytes_loop fields self i = Ok chunks ->
    len (concat chunks) = schema_width fields.
Proof.
  induction 1 as [|[name fi] v fields r Hv Hr IH]; intros Hfx self i chunks Hd Hl.
  - apply Ok_inj in Hl. subst chunks. reflexivity.
  - inversion Hfx as [|? ? Hf Hfs]; subst.
    assert (Hi : self !! i = Some v).
    { pose proof (lookup_drop self i 0) as Hlk.
      rewrite Hd, Nat.add_0_r in Hlk. symmetry. exact Hlk. }
    assert (Hd' : drop (S i) self = r).
    { replace (S i) with (i + 1)%nat by lia. rewrite <- drop_drop, Hd. reflexivity. }
    cbn [to_bytes_loop] in Hl. rewrite Hi in Hl. cbn [mbind result_bind] in Hl.
    destruct (pack_field fi v) as [chunk|] eqn:Hp; [|discriminate].
    cbn [mbind result_bind] in Hl.
    destruct (to_bytes_loop fields self (S i)) as [chunks'|] eqn:El; [|discriminate].
    apply Ok_inj in Hl. subst chunks. rewrite concat_app, len_app.
    rewrite (pack_field_fixed_width name fi v chunk Hf Hv Hp).
    rewrite (IH Hfs self (S i) chunks' Hd' El). reflexivity.
Qed.

(** X8.  For a schema without nullable fields and without VARCHAR fields the
    encoding has a fixed width: every conforming row encodes to exactly the
    sum of the [TYPE_DICT] sizes of the fields (1 for BOOLEAN, 8 for FLOAT
    and INTEGER). *)
Theorem to_bytes_fixed_width (S : schema) (r : Row) (data : bytes) :
  Forall fixed_field S -> conforms S r -> to_bytes S r = Ok data ->
  len data = schema_width S.
Proof.
  intros Hfx Hc Hd. destruct (to_bytes_chunks S r data Hc Hd) as (chunks & Hl & -> & _).
  exact (to_bytes_loop_fixed_width S r Hc Hfx r 0%nat chunks eq_refl Hl).
Qed.

Lemma to_bytes_fixed_width_witness :
  len (be_bytes 8 (-3) ++ [b8 1] ++ be_bytes 8 77) = 17.
Proof.
  apply (to_bytes_fixed_width
           [("id"%string, {| ftype := "INTEGER"; nullable := false |});
            ("ok"%string, {| ftype := "BOOLEAN"; nullable := false |});
            ("x"%string, {| ftype := "FLOAT"; nullable := false |})]
           [VInt (-3); VBool true; VFloat 77]).
  - repeat constructor; discriminate.
  - constructor; [cbn; split; [reflexivity|lia]|].
    constructor; [reflexivity|].
    constructor; [cbn; split; [reflexivity|lia]|constructor].
  - reflexivity.
Defined.

End FixedWidthEdges.

(** ** The fixed-width codec: what is stored, arity, unsupported types *)

Section FixedWidthStored.
Import RowClassPy.

Lemma to_bytes_loop_drop (fields : schema) :
  forall (self : Row) (i : nat),
    to_bytes_loop fields self i = to_bytes_loop fields (drop i self) 0%nat.
Proof.
  induction fields as [|[name fi] fields IH]; intros self i; [reflexivity|].
  cbn [to_bytes_loop]. unfold Row in *. rewrite lookup_drop, Nat.add_0_r.
  rewrite (IH self (S i)), (IH (drop i self) 1%nat), drop_drop.
  replace (i + 1)%nat with (S i) by lia. reflexivity.
Qed.

Lemma to_bytes_loop_cons (name : string) (fi : field_info) (fields : schema)
    (v : value) (r : Row) :
  to_bytes_loop ((name, fi) :: fields) (v :: r) 0%nat
  = (chunk ← pack_field fi v; values ← to_bytes_loop fields r 0%nat;
     Ok (chunk ++ values)).
Proof.
  cbn [to_bytes_loop lookup list_lookup mbind result_bind].
  rewrite (to_bytes_loop_drop fields (v :: r) 1%nat). reflexivity.
Qed.

Lemma stored_value_conforms (fi : field_info) (v : value) (chunk : list bytes) :
  value_ok v -> pack_field fi v = Ok chunk ->
  field_conforms (""%string, fi) (stored_value fi v) /\
  pack_field fi (stored_value fi v) = Ok chunk.
Proof.
  intros Hv Hp. destruct fi as [ft nl]. unfold stored_value, pack_field in *.
  cbn [ftype nullable] in *.
  destruct (String.eqb_spec ft "VARCHAR") as [->|Hvc].
  - destruct v as [|b|z|bits|s], nl; try discriminate; cbn in Hp |- *;
      try (split; [reflexivity | exact Hp]);
      (destruct (utf8_encode s) as [u|] eqn:Eu; [|discriminate]);
      cbn [mbind result_bind] in Hp; unfold struct_pack_H_s in Hp;
      (destruct (Z.leb_spec (len u) 65535); [|discriminate]);
      (split; [split; [reflexivity | assumption] |]);
      cbn [mbind result_bind]; unfold struct_pack_H_s;
      (destruct (Z.leb_spec (len u) 65535); [exact Hp | lia]).
  - unfold TYPE_DICT in *.
    destruct (String.eqb_spec ft "BOOLEAN") as [->|Hb].
    + destruct v as [|b|z|bits|s], nl; cbn in Hp |- *;
        (split; [reflexivity | exact Hp]).
    + destruct (String.eqb_spec ft "FLOAT") as [->|Hf].
      * destruct v as [|b|z|bits|s], nl; try discriminate; cbn in Hp |- *;
          try (split; [reflexivity | exact Hp]);
          (split; [split; [reflexivity | exact Hv] | exact Hp]).
      * destruct (String.eqb_spec ft "INTEGER") as [->|Hi].
        -- destruct v as [|b|z|bits|s], nl; try discriminate;
             cbn -[be_bytes Z.pow] in Hp |- *;
             try (split; [reflexivity | exact Hp]);
             try (destruct b; (split; [split; [reflexivity | lia] | exact Hp]));
             (destruct (Z.leb_spec (- 2 ^ 63) z); [|discriminate]);
             (destruct (Z.ltb_spec z (2 ^ 63)); [|discriminate]);
             (split; [split; [reflexivity | lia] | exact Hp]).
        -- destruct v as [|b|z|bits|s], nl; try discriminate;
             cbn in Hp |- *; split; easy.
Qed.

Lemma stored_loop (fields : schema) :
  forall (r : Row) (chunks : list bytes),
    Forall value_ok r -> to_bytes_loop fields r 0%nat = Ok chunks ->
    conforms fields (stored_row fields r) /\
    to_bytes_loop fields (stored_row fields r) 0%nat = Ok chunks.
Proof.
  induction fields as [|[name fi] fields IH]; intros r chunks Hv Hl.
  - split; [constructor | exact Hl].
  - destruct r as [|v r]; [discriminate|].
    rewrite to_bytes_loop_cons in Hl. inversion Hv as [|? ? Hv1 Hv2]; subst.
    destruct (pack_field fi v) as [chunk|] eqn:Hp; [|discriminate].
    cbn [mbind result_bind] in Hl.
    destruct (to_bytes_loop fields r 0%nat) as [chunks'|] eqn:El; [|discriminate].
    cbn [mbind result_bind] in Hl.
    destruct (stored_value_conforms fi v chunk Hv1 Hp) as [Hc Hp'].
    destruct (IH r chunks' Hv2 El) as [Hcs Hl'].
    unfold stored_row in *. cbn [zip_with snd]. split.
    + constructor; [exact Hc | exact Hcs].
    + rewrite to_bytes_loop_cons, Hp'. cbn [mbind result_bind].
      rewrite Hl'. exact Hl.
Qed.

(** X9.  Whatever row [Row.to_bytes] accepts, [Row.from_bytes] decodes the
    result without error, to the row of the stored values: each value as
    it was, except that a BOOLEAN field holds the truth value of what was
    given (also of [None], a number or a string) and an INTEGER field holds
    0 or 1 for a bool; values beyond the schema's fields are gone.  The
    decoded row conforms to the schema and encodes to the same bytes. *)
Theorem from_bytes_of_to_bytes_stored (S : schema) (r : Row) (data : bytes) :
  Forall value_ok r -> to_bytes S r = Ok data ->
  from_bytes S data = Ok (stored_row S r) /\
  conforms S (stored_row S r) /\
  to_bytes S (stored_row S r) = Ok data.
Proof.
  intros Hv Hd. unfold to_bytes in Hd.
  destruct (to_bytes_loop S r 0%nat) as [chunks|] eqn:Hl; [|discriminate].
  apply Ok_inj in Hd. subst data.
  destruct (stored_loop S r chunks Hv Hl) as [Hc Hl'].
  destruct (to_from_loop S (stored_row S r) Hc (stored_row S r) 0%nat eq_refl)
    as (chunks' & Hl2 & Hfrom).
  rewrite Hl' in Hl2. apply Ok_inj in Hl2. subst chunks'.
  split; [|split].
  - unfold from_bytes. specialize (Hfrom [] []).
    rewrite app_nil_l, app_nil_r in Hfrom. exact Hfrom.
  - exact Hc.
  - unfold to_bytes. rewrite Hl'. reflexivity.
Qed.

Lemma from_bytes_of_to_bytes_stored_witness :
  from_bytes [("ok"%string, {| ftype := "BOOLEAN"; nullable := false |});
              ("n"%string, {| ftype := "INTEGER"; nullable := true |})]
    [b8 1; b8 1; b8 0; b8 0; b8 0; b8 0; b8 0; b8 0; b8 0; b8 1]
  = Ok [VBool true; VInt 1].
Proof.
  apply (from_bytes_of_to_bytes_stored
           [("ok"%string, {| ftype := "BOOLEAN"; nullable := false |});
            ("n"%string, {| ftype := "INTEGER"; nullable := true |})]
           [VStr [104]; VBool true; VNone]).
  - repeat constructor.
  - reflexivity.
Defined.

Lemma to_bytes_loop_arity (fields : schema) :
  forall (r : Row) (chunks : list bytes),
    to_bytes_loop fields r 0%nat = Ok chunks ->
    (length fields <= length r)%nat /\
    forall extra, to_bytes_loop fields (take (length fields) r ++ extra) 0%nat
                  = Ok chunks.
Proof.
  induction fields as [|[name fi] fields IH]; intros r chunks Hl.
  - split; [cbn; lia | intros extra; exact Hl].
  - destruct r as [|v r]; [discriminate|].
    rewrite to_bytes_loop_cons in Hl.
    destruct (pack_field fi v) as [chunk|] eqn:Hp; [|discriminate].
    cbn [mbind result_bind] in Hl.
    destruct (to_bytes_loop fields r 0%nat) as [chunks'|] eqn:El; [|discriminate].
    cbn [mbind result_bind] in Hl.
    destruct (IH r chunks' El) as [Hn Hx]. split; [cbn; lia|].
    intros extra. cbn [length take app]. rewrite to_bytes_loop_cons, Hp.
    cbn [mbind result_bind]. rewrite Hx. exact Hl.
Qed.

(** X10.  [Row.to_bytes] takes the value of field [i] from position [i] of
    the row and nothing else: it succeeds only on rows with at least as
    many values as the schema has fields, and the values beyond them do not
    reach the encoding (they can be dropped or replaced by any others). *)
Theorem to_bytes_arity (S : schema) (r : Row) (data : bytes) :
  to_bytes S r = Ok data ->
  (length S <= length r)%nat /\
  forall extra, to_bytes S (take (length S) r ++ extra) = Ok data.
Proof.
  intros Hd. unfold to_bytes in *.
  destruct (to_bytes_loop S r 0%nat) as [chunks|] eqn:Hl; [|discriminate].
  destruct (to_bytes_loop_arity S r chunks Hl) as [Hn Hx]. split; [exact Hn|].
  intros extra. rewrite Hx. exact Hd.
Qed.

Lemma to_bytes_arity_witness :
  (1 <= 2)%nat /\
  forall extra,
    to_bytes [("ok"%string, {| ftype := "BOOLEAN"; nullable := false |})]
      (take 1 [VBool true; VInt 7] ++ extra) = Ok [b8 1].
Proof.
  apply (to_bytes_arity
           [("ok"%string, {| ftype := "BOOLEAN"; nullable := false |})]
           [VBool true; VInt 7]).
  reflexivity.
Defined.

Lemma pack_field_unsupported (f : string * field_info) (v : value) :
  unsupported_field f -> pack_field (snd f) v = Raise ValueError.
Proof.
  intros (Hn & Hvc & Ht). unfold pack_field. rewrite Hn, Ht.
  apply String.eqb_neq in Hvc. rewrite Hvc. destruct v; reflexivity.
Qed.

Lemma read_field_unsupported (f : string * field_info) (data : bytes) (offset : Z) :
  unsupported_field f -> read_field (snd f) data offset = Raise ValueError.
Proof.
  intros (Hn & Hvc & Ht). unfold read_field, read_value. rewrite Hn, Ht.
  apply String.eqb_neq in Hvc. rewrite Hvc. reflexivity.
Qed.

Lemma to_bytes_loop_unsupported (fields : schema) :
  Exists unsupported_field fields ->
  forall (self : Row) (i : nat), ~ is_ok (to_bytes_loop fields self i).
Proof.
  induction 1 as [[name fi] fields Hu|[name fi] fields Hu IH]; intros self i;
    cbn [to_bytes_loop]; destruct (self !! i) as [v|]; cbn [mbind result_bind];
    try (intros []).
  - pose proof (pack_field_unsupported (name, fi) v Hu) as Hp.
    cbn [snd] in Hp. rewrite Hp. intros [].
  - destruct (pack_field fi v); cbn [mbind result_bind]; [|intros []].
    specialize (IH self (S i)).
    destruct (to_bytes_loop fields self (S i)); [exact IH | intros []].
Qed.

Lemma from_bytes_loop_unsupported (fields : schema) :
  Exists unsupported_field fields ->
  forall (data : bytes) (offset : Z), ~ is_ok (from_bytes_loop fields data offset).
Proof.
  induction 1 as [[name fi] fields Hu|[name fi] fields Hu IH]; intros data offset;
    cbn [from_bytes_loop].
  - pose proof (read_field_unsupported (name, fi) data offset Hu) as Hr.
    cbn [snd] in Hr. rewrite Hr. intros [].
  - destruct (read_field fi data offset) as [[v offset']|]; cbn [mbind result_bind];
      [|intros []].
    specialize (IH data offset').
    destruct (from_bytes_loop fields data offset'); [exact IH | intros []].
Qed.

(** X11.  A schema with a non-nullable field of a type other than VARCHAR,
    BOOLEAN, FLOAT and INTEGER is unusable: [Row.to_bytes] raises on every
    row and [Row.from_bytes] raises on every input.  The schema that the
    engine's [__init__] builds its row class from is of that kind (its
    first fields are SMALLINT). *)
Theorem unsupported_type_unusable (S : schema) (r : Row) (data : bytes) :
  Exists unsupported_field S ->
  ~ is_ok (to_bytes S r) /\ ~ is_ok (from_bytes S data).
Proof.
  intros Hu. split.
  - unfold to_bytes. pose proof (to_bytes_loop_unsupported S Hu r 0%nat) as H.
    destruct (to_bytes_loop S r 0%nat); [exact H | intros []].
  - exact (from_bytes_loop_unsupported S Hu data 0).
Qed.

Lemma unsupported_type_unusable_witness :
  ~ is_ok (to_bytes Engine.init_schema
             [VInt 1; VInt 3; VStr [73; 111]; VFloat 0; VFloat 0;
              VNone; VNone; VNone]) /\
  ~ is_ok (from_bytes Engine.init_schema [b8 0; b8 1]).
Proof.
  apply unsupported_type_unusable. left. repeat split; discriminate.
Defined.

(** X12.  The encodings of conforming rows form a prefix code: if two of
    them, each followed by arbitrary bytes, give the same byte string, the
    rows, their encodings and the bytes that follow are the same.  In
    particular [Row.to_bytes] is injective on conforming rows. *)
Theorem to_bytes_prefix_free (S : schema) (r1 r2 : Row) (d1 d2 x y : bytes) :
  conforms S r1 -> conforms S r2 ->
  to_bytes S r1 = Ok d1 -> to_bytes S r2 = Ok d2 ->
  d1 ++ x = d2 ++ y ->
  r1 = r2 /\ d1 = d2 /\ x = y.
Proof.
  intros Hc1 Hc2 H1 H2 He.
  destruct (to_from_loop S r1 Hc1 r1 0%nat eq_refl) as (c1 & Hl1 & Hf1).
  destruct (to_from_loop S r2 Hc2 r2 0%nat eq_refl) as (c2 & Hl2 & Hf2).
  pose proof H1 as H1'. pose proof H2 as H2'. unfold to_bytes in H1', H2'.
  rewrite Hl1 in H1'. rewrite Hl2 in H2'.
  apply Ok_inj in H1'. apply Ok_inj in H2'. subst d1 d2.
  specialize (Hf1 [] x). specialize (Hf2 [] y). cbn [app] in Hf1, Hf2.
  rewrite He in Hf1. rewrite Hf1 in Hf2. apply Ok_inj in Hf2. subst r2.
  assert (concat c1 = concat c2) as Hcc by congruence.
  split; [reflexivity|]. split; [exact Hcc|].
  rewrite Hcc in He. exact (app_inv_head _ _ _ He).
Qed.

Lemma to_bytes_prefix_free_witness :
  [VBool true] = [VBool true] /\ [b8 1] = [b8 1] /\ [b8 7] = [b8 7].
Proof.
  apply (to_bytes_prefix_free
           [("ok"%string, {| ftype := "BOOLEAN"; nullable := false |})]
           [VBool true] [VBool true] [b8 1] [b8 1] [b8 7] [b8 7]).
  - repeat constructor.
  - repeat constructor.
  - reflexivity.
  - reflexivity.
  - reflexivity.
Defined.

End FixedWidthStored.

(** ** [scan] on a log whose tail is not a sequence of well-formed frames *)

Lemma scan_loop_next (fuel : nat) (strict : bool) (block_size flags : Z)
    (payload rest : bytes) (block_start : Z) :
  0 < len payload -> block_start + len payload <= block_size ->
  Engine.scan_loop (S fuel) strict block_size flags (len payload)
    (payload ++ rest) block_start
  = let next := next_record fuel strict block_size rest
                  (block_start + len payload) in
    if Z.land flags Engine.DELETED_FLAG =? 0 then
      match RecordPy.from_bytes strict payload with
      | Raise e => ([], Engine.Raises e)
      | Ok row => (row :: fst next, snd next)
      end
    else next.
Proof.
  intros Hpos Hfit. rewrite scan_loop_unfold.
  destruct (Z.gtb_spec (len payload) 0); [|lia].
  rewrite read_record_fits by exact Hfit. reflexivity.
Qed.

Lemma scan_loop_then (strict : bool) (block_size : Z) (tail : bytes)
    (frames : list (Z * bytes)) :
  Forall (frame_ok strict) frames ->
  forall (k : nat) (flags : Z) (payload : bytes) (block_start : Z),
    frame_ok strict (flags, payload) ->
    block_start + len payload + len (log_of frames) <= block_size ->
    Engine.scan_loop (S (length frames + k)) strict block_size flags (len payload)
      (payload ++ log_of frames ++ tail) block_start
    = (live_rows strict ((flags, payload) :: frames)
       ++ fst (next_record k strict block_size tail
                 (block_start + len payload + len (log_of frames))),
       snd (next_record k strict block_size tail
              (block_start + len payload + len (log_of frames)))).
Proof.
  induction 1 as [|[f2 p2] frames Hf2 Hfs IH];
    intros k flags payload block_start (Hfl & Hlen & Hdec) Hfit;
    cbn [fst snd] in *.
  - change (log_of []) with (@nil byte) in *. rewrite len_nil in *.
    cbn [length Nat.add app]. rewrite Z.add_0_r in *.
    rewrite scan_loop_next by lia. cbv zeta. cbn [live_rows].
    destruct (Z.land flags Engine.DELETED_FLAG =? 0) eqn:El.
    + apply Z.eqb_eq in El. specialize (Hdec El).
      destruct (RecordPy.from_bytes strict payload); [reflexivity|discriminate].
    + destruct (next_record k strict block_size tail (block_start + len payload));
        reflexivity.
  - destruct Hf2 as (Hfl2 & Hlen2 & Hdec2). cbn [fst snd] in *.
    pose proof (len_nonneg (log_of frames)) as Hnn.
    rewrite log_of_cons in *. rewrite !len_app, len_frame_header in *.
    cbn [length Nat.add].
    rewrite <- !app_assoc.
    assert (Hnext :
      next_record (S (length frames + k)) strict block_size
        ((b8 f2 :: be_bytes 4 (len p2)) ++ p2 ++ log_of frames ++ tail)
        (block_start + len payload)
      = (live_rows strict ((f2, p2) :: frames)
         ++ fst (next_record k strict block_size tail
                   (block_start + len payload
                    + (5 + (len p2 + len (log_of frames))))),
         snd (next_record k strict block_size tail
                (block_start + len payload
                 + (5 + (len p2 + len (log_of frames))))))).
    { unfold next_record at 1.
      rewrite (buffer_read_header _ _ (len_frame_header f2 (len p2))).
      rewrite len_frame_header. change (5 =? 0) with false. cbv beta iota.
      rewrite unpack_BI_header by lia.
      rewrite (IH k f2 p2 (block_start + len payload + 5));
        [| unfold frame_ok; cbn [fst snd]; repeat split; assumption || lia | lia].
      replace (block_start + len payload + 5 + len p2 + len (log_of frames))
        with (block_start + len payload + (5 + (len p2 + len (log_of frames))))
        by lia.
      reflexivity. }
    rewrite scan_loop_next by lia. cbv zeta. rewrite Hnext.
    cbn [live_rows fst snd].
    destruct (Z.land flags Engine.DELETED_FLAG =? 0) eqn:El; [|reflexivity].
    apply Z.eqb_eq in El. specialize (Hdec El).
    destruct (RecordPy.from_bytes strict payload); [reflexivity|discriminate].
Qed.

Lemma scan_with_next (strict : bool) (block_size : Z) (tail : bytes) (k : nat)
    (self : Engine.HadroDB) :
  Engine.file self = tail -> tail <> [] ->
  Engine.scan_with block_size k strict self
  = next_record k strict block_size tail 0.
Proof.
  intros Hfile Hne. unfold Engine.scan_with, next_record. rewrite Hfile.
  unfold Engine.buffer_read. change (5 <? -1) with false.
  change (5 =? -1) with false. cbv beta iota.
  destruct tail as [|b tail]; [congruence|].
  change (Z.to_nat 5) with 5%nat. cbn [take]. rewrite len_cons.
  pose proof (len_nonneg (take 4 tail)).
  destruct (Z.eqb_spec (1 + len (take 4 tail)) 0); [lia|]. reflexivity.
Qed.

Lemma scan_with_then (strict : bool) (block_size : Z) (tail : bytes)
    (frames : list (Z * bytes)) (k : nat) (self : Engine.HadroDB) :
  Engine.file self = log_of frames ++ tail ->
  frames <> [] \/ tail <> [] -> Forall (frame_ok strict) frames ->
  len (log_of frames) <= block_size ->
  Engine.scan_with block_size (length frames + k) strict self
  = (live_rows strict frames
     ++ fst (next_record k strict block_size tail (len (log_of frames))),
     snd (next_record k strict block_size tail (len (log_of frames)))).
Proof.
  intros Hfile Hne Hok Hfit.
  destruct frames as [|[flags payload] frames].
  { destruct Hne as [Hne|Hne]; [congruence|].
    change (log_of []) with (@nil byte) in *. cbn [app length Nat.add live_rows].
    rewrite len_nil, (scan_with_next strict block_size tail k self Hfile Hne).
    destruct (next_record k strict block_size tail 0); reflexivity. }
  clear Hne. inversion Hok as [|? ? Hf Hfs]; subst.
  pose proof Hf as (Hfl & Hlen & Hdec). cbn [fst snd] in *.
  rewrite log_of_cons in *. rewrite !len_app, len_frame_header in *.
  unfold Engine.scan_with. rewrite Hfile, <- !app_assoc.
  rewrite (buffer_read_header _ _ (len_frame_header flags (len payload))).
  rewrite unpack_BI_header by lia.
  cbn [length Nat.add].
  rewrite (scan_loop_then strict block_size tail frames Hfs k flags payload 5 Hf)
    by lia.
  replace (5 + (len payload + len (log_of frames)))
    with (5 + len payload + len (log_of frames)) by lia.
  reflexivity.
Qed.

Lemma fuel_split (n fuel : nat) :
  (n <= fuel)%nat -> exists k, fuel = (n + k)%nat.
Proof. intros H. exists (fuel - n)%nat. lia. Qed.

Lemma buffer_read_all (n : Z) (l : bytes) :
  len l <= n -> Engine.buffer_read n l = Ok (l, []).
Proof.
  intros H. pose proof (len_nonneg l). unfold Engine.buffer_read.
  destruct (Z.ltb_spec n (-1)); [lia|]. destruct (Z.eqb_spec n (-1)); [lia|].
  rewrite take_ge, drop_ge by (unfold len in *; lia). reflexivity.
Qed.

(** X13.  A header with size 0 ends [scan] silently: the rows of the frames
    before it are yielded, the run ends normally, and whatever the file
    holds after that header, further records included, is never read. *)
Theorem scan_stops_at_empty_record (strict : bool) (block_size : Z) (fuel : nat)
    (frames : list (Z * bytes)) (flags : Z) (rest : bytes)
    (self : Engine.HadroDB) :
  Engine.file self = log_of frames ++ (b8 flags :: be_bytes 4 0) ++ rest ->
  Forall (frame_ok strict) frames -> 0 <= flags < 256 ->
  (length frames <= fuel)%nat ->
  len (log_of frames) <= block_size ->
  Engine.scan_with block_size fuel strict self
  = (live_rows strict frames, Engine.Return).
Proof.
  intros Hfile Hok Hfl Hfuel Hfit.
  destruct (fuel_split _ _ Hfuel) as [k ->].
  rewrite (scan_with_then strict block_size _ frames k self Hfile);
    [| right; discriminate | exact Hok | exact Hfit].
  unfold next_record.
  rewrite (buffer_read_header _ _ (len_frame_header flags 0)).
  rewrite len_frame_header. change (5 =? 0) with false. cbv beta iota.
  rewrite unpack_BI_header by lia. rewrite scan_loop_size_0.
  cbn [fst snd]. rewrite app_nil_r. reflexivity.
Qed.

Lemma scan_stops_at_empty_record_witness :
  Engine.scan_with 64 1 true
    (Engine.opened (log_of [(0, [b8 0x91; b8 1])]
                    ++ (b8 0 :: be_bytes 4 0) ++ log_of [(0, [b8 0x91; b8 2])]))
  = ([[VInt 1]], Engine.Return).
Proof.
  apply (scan_stops_at_empty_record true 64 1 [(0, [b8 0x91; b8 1])] 0
           (log_of [(0, [b8 0x91; b8 2])])).
  - reflexivity.
  - repeat constructor; cbn; try lia; try discriminate; reflexivity.
  - lia.
  - simpl. lia.
  - vm_compute. discriminate.
Defined.

(** X14.  [scan] decodes each live record as it reaches it.  On a log whose
    frames up to that record fit the read buffer, at the first live record
    whose payload [Row.from_bytes] rejects, the exception of the decoder
    leaves the generator, after the rows of the records before it have been
    yielded; nothing after that record is read.  A payload of a MessagePack
    type outside the model ([OutsideModel]) is not a rejected one: the
    decoder of the source reads it. *)
Theorem scan_raises_at_undecodable_record (strict : bool) (block_size : Z)
    (fuel : nat) (frames : list (Z * bytes)) (flags : Z) (payload rest : bytes)
    (e : exn) (self : Engine.HadroDB) :
  Engine.file self = log_of frames ++ frame_bytes (flags, payload) ++ rest ->
  Forall (frame_ok strict) frames ->
  0 <= flags < 256 -> Z.land flags Engine.DELETED_FLAG = 0 ->
  0 < len payload < 2 ^ 32 ->
  RecordPy.from_bytes strict payload = Raise e -> e <> OutsideModel ->
  (length frames < fuel)%nat ->
  len (log_of frames) + 5 + len payload <= block_size ->
  Engine.scan_with block_size fuel strict self
  = (live_rows strict frames, Engine.Raises e).
Proof.
  intros Hfile Hok Hfl Hlive Hlen Hbad _ Hfuel Hfit.
  assert (Hfuel' : (length frames <= fuel - 1)%nat) by lia.
  destruct (fuel_split _ _ Hfuel') as [k Hk].
  replace fuel with (length frames + S k)%nat by lia.
  pose proof (len_nonneg (log_of frames)) as Hnn.
  unfold frame_bytes in Hfile. cbn [fst snd] in Hfile.
  rewrite (scan_with_then strict block_size _ frames (S k) self Hfile);
    [| right; discriminate | exact Hok | lia].
  unfold next_record. rewrite app_comm_cons, <- app_assoc.
  rewrite (buffer_read_header _ _ (len_frame_header flags (len payload))).
  rewrite len_frame_header. change (5 =? 0) with false. cbv beta iota.
  rewrite unpack_BI_header by lia.
  rewrite scan_loop_next by lia. cbv zeta.
  apply Z.eqb_eq in Hlive. rewrite Hlive, Hbad. cbn [fst snd].
  rewrite app_nil_r. reflexivity.
Qed.

Lemma scan_raises_at_undecodable_record_witness :
  Engine.scan_with 64 2 true
    (Engine.opened (log_of [(0, [b8 0x91; b8 1])]
                    ++ frame_bytes (0, [b8 0xc1]) ++ log_of [(0, [b8 0x91; b8 2])]))
  = ([[VInt 1]], Engine.Raises MsgpackDecodeError).
Proof.
  apply (scan_raises_at_undecodable_record true 64 2 [(0, [b8 0x91; b8 1])] 0
           [b8 0xc1] (log_of [(0, [b8 0x91; b8 2])])).
  - reflexivity.
  - repeat constructor; cbn; try lia; try discriminate; reflexivity.
  - lia.
  - reflexivity.
  - vm_compute. split; reflexivity.
  - reflexivity.
  - discriminate.
  - simpl. lia.
  - vm_compute. discriminate.
Defined.

(** X15.  When well-formed frames that fit the read buffer are followed by
    one to four stray bytes, [scan] yields the rows of all the frames and
    then raises [struct.error]: the next header is unpacked without a check
    of its length.  With no frame before them the stray bytes make the
    first header, and [scan] raises at once. *)
Theorem scan_raises_on_partial_header (strict : bool) (block_size : Z)
    (fuel : nat) (frames : list (Z * bytes)) (stray : bytes)
    (self : Engine.HadroDB) :
  Engine.file self = log_of frames ++ stray ->
  Forall (frame_ok strict) frames ->
  0 < len stray < 5 ->
  (length frames <= fuel)%nat ->
  len (log_of frames) <= block_size ->
  Engine.scan_with block_size fuel strict self
  = (live_rows strict frames, Engine.Raises StructError).
Proof.
  intros Hfile Hok Hstray Hfuel Hfit.
  destruct (fuel_split _ _ Hfuel) as [k ->].
  rewrite (scan_with_then strict block_size stray frames k self Hfile);
    [| right; intros ->; unfold len in Hstray; simpl in Hstray; lia | exact Hok | exact Hfit].
  unfold next_record. rewrite buffer_read_all by lia.
  destruct (Z.eqb_spec (len stray) 0); [lia|].
  rewrite unpack_BI_short by (unfold len in Hstray; lia).
  cbn [fst snd]. rewrite app_nil_r. reflexivity.
Qed.

Lemma scan_raises_on_partial_header_witness :
  Engine.scan_with 64 1 true
    (Engine.opened (log_of [(0, [b8 0x91; b8 1])] ++ [b8 0; b8 0; b8 0]))
  = ([[VInt 1]], Engine.Raises StructError).
Proof.
  apply (scan_raises_on_partial_header true 64 1 [(0, [b8 0x91; b8 1])]
           [b8 0; b8 0; b8 0]).
  - reflexivity.
  - repeat constructor; cbn; try lia; try discriminate; reflexivity.
  - vm_compute. split; reflexivity.
  - simpl. lia.
  - vm_compute. discriminate.
Defined.

(** X16.  [scan] does not compare the number of bytes it read with the size
    in the header.  When the frames before the last record and the size
    that its header announces fit the read buffer, and the file ends inside
    the payload of that record, the bytes that are there go to
    [Row.from_bytes] as if they were the record: its exception leaves the
    generator, or, should they decode, their row is yielded; a tombstoned
    record cut short goes unnoticed.  Bytes of a MessagePack type outside
    the model are left out: the decoder of the source reads them. *)
Theorem scan_reads_short_last_record (strict : bool) (block_size : Z)
    (fuel : nat) (frames : list (Z * bytes)) (flags size : Z) (partial : bytes)
    (self : Engine.HadroDB) :
  Engine.file self
  = log_of frames ++ (b8 flags :: be_bytes 4 size) ++ partial ->
  Forall (frame_ok strict) frames ->
  0 <= flags < 256 -> len partial < size < 2 ^ 32 ->
  RecordPy.from_bytes strict partial <> Raise OutsideModel ->
  (length frames < fuel)%nat ->
  len (log_of frames) + 5 + size <= block_size ->
  Engine.scan_with block_size fuel strict self
  = if Z.land flags Engine.DELETED_FLAG =? 0 then
      match RecordPy.from_bytes strict partial with
      | Ok row => (live_rows strict frames ++ [row], Engine.Return)
      | Raise e => (live_rows strict frames, Engine.Raises e)
      end
    else (live_rows strict frames, Engine.Return).
Proof.
  intros Hfile Hok Hfl Hsize _ Hfuel Hfit.
  assert (Hfuel' : (length frames <= fuel - 1)%nat) by lia.
  destruct (fuel_split _ _ Hfuel') as [k Hk].
  replace fuel with (length frames + S k)%nat by lia.
  pose proof (len_nonneg (log_of frames)) as Hnn.
  pose proof (len_nonneg partial) as Hpn.
  rewrite (scan_with_then strict block_size _ frames (S k) self Hfile);
    [| right; discriminate | exact Hok | lia].
  unfold next_record.
  rewrite (buffer_read_header _ _ (len_frame_header flags size)).
  rewrite len_frame_header. change (5 =? 0) with false. cbv beta iota.
  rewrite unpack_BI_header by lia.
  rewrite scan_loop_unfold. destruct (Z.gtb_spec size 0); [|lia].
  unfold Engine.read_record.
  destruct (Z.gtb_spec (len (log_of frames) + 5 + size) block_size); [lia|].
  rewrite buffer_read_all by lia. cbv zeta beta iota.
  change (Engine.buffer_read 5 []) with (Ok (@nil byte, @nil byte)).
  cbv beta iota. change (len (@nil byte) =? 0) with true. cbv beta iota.
  destruct (Z.land flags Engine.DELETED_FLAG =? 0).
  - destruct (RecordPy.from_bytes strict partial); cbn [fst snd];
      [reflexivity | rewrite app_nil_r; reflexivity].
  - cbn [fst snd]. rewrite app_nil_r. reflexivity.
Qed.

Lemma scan_reads_short_last_record_witness :
  Engine.scan_with 64 2 true
    (Engine.opened (log_of [(0, [b8 0x91; b8 1])]
                    ++ (b8 0 :: be_bytes 4 3) ++ [b8 0x91; b8 2]))
  = ([[VInt 1]; [VInt 2]], Engine.Return).
Proof.
  apply (scan_reads_short_last_record true 64 2 [(0, [b8 0x91; b8 1])] 0 3
           [b8 0x91; b8 2]).
  - reflexivity.
  - repeat constructor; cbn; try lia; try discriminate; reflexivity.
  - lia.
  - vm_compute. split; reflexivity.
  - vm_compute. discriminate.
  - simpl. lia.
  - vm_compute. discriminate.
Defined.

(** ** The schema checks of [R&D/row_class.py] *)

Section SchemaChecks.
Import RowClassPy.

Lemma check_fields_drop (fields : schema) :
  forall (data : Row) (i : nat),
    check_fields fields data i = check_fields fields (drop i data) 0%nat.
Proof.
  induction fields as [|[key fi] fields IH]; intros data i; [reflexivity|].
  cbn [check_fields]. unfold Row in *. rewrite lookup_drop, Nat.add_0_r.
  rewrite (IH data (S i)), (IH (drop i data) 1%nat), drop_drop.
  replace (i + 1)%nat with (S i) by lia. reflexivity.
Qed.

Lemma check_fields_ok (fields : schema) :
  forall data : Row,
    length data = length fields ->
    (check_fields fields data 0%nat = Ok tt <->
     Forall (fun v => v = VNone) data /\
     Forall (fun f => nullable (snd f) = true) fields).
Proof.
  induction fields as [|[key fi] fields IH]; intros data Hlen.
  - destruct data; [|discriminate]. split; [intros _; split; constructor | reflexivity].
  - destruct data as [|v data]; [discriminate|]. injection Hlen as Hlen.
    cbn [check_fields lookup list_lookup].
    rewrite (check_fields_drop fields (v :: data) 1%nat). cbn [drop].
    specialize (IH data Hlen). destruct v.
    + destruct (nullable fi) eqn:Hn.
      * rewrite IH. split.
        -- intros [Hd Hf]. split; constructor; assumption || reflexivity.
        -- intros [Hd Hf]. inversion Hd; inversion Hf; subst. split; assumption.
      * split; [discriminate|]. intros [_ Hf]. inversion Hf; subst.
        cbn [snd] in *. congruence.
    + split; [discriminate|]. intros [Hd _]. inversion Hd; discriminate.
    + split; [discriminate|]. intros [Hd _]. inversion Hd; discriminate.
    + split; [discriminate|]. intros [Hd _]. inversion Hd; discriminate.
    + split; [discriminate|]. intros [Hd _]. inversion Hd; discriminate.
Qed.

Lemma check_tuple_schema_ok (data : Row) (S : schema) :
  check_tuple_schema data S = Ok tt <->
  length data = length S /\
  Forall (fun v => v = VNone) data /\
  Forall (fun f => nullable (snd f) = true) S.
Proof.
  unfold check_tuple_schema, len.
  destruct (Z.eqb_spec (Z.of_nat (length S)) (Z.of_nat (length data))) as [He|Hne];
    cbn [negb].
  - assert (Hlen : length data = length S) by lia.
    rewrite (check_fields_ok S data Hlen). tauto.
  - split; [discriminate|]. intros [Hlen _]. lia.
Qed.

(** X17.  [check_tuple_schema] passes a tuple only when it has the schema's
    length, all its values are [None] and all the fields are nullable:
    with the type names of the schemas (strings), the [isinstance] test of
    any actual value raises, so no row that carries data passes. *)
Theorem check_tuple_schema_passes_only_none (data : Row) (S : schema) :
  check_tuple_schema data S = Ok tt <->
  length data = length S /\
  Forall (fun v => v = VNone) data /\
  Forall (fun f => nullable (snd f) = true) S.
Proof. apply check_tuple_schema_ok. Qed.

Lemma check_dict_schema_ok (d : gmap string value) (S : schema) :
  check_dict_schema d S = Ok true <->
  Forall (fun f => d !! fst f = Some VNone \/
                   (d !! fst f = None /\ nullable (snd f) = true)) S.
Proof.
  induction S as [|[key fi] S IH]; [split; [constructor | reflexivity]|].
  cbn [check_dict_schema]. destruct (d !! key) as [v|] eqn:Hk.
  - destruct v; try (split; [discriminate|]; intros Hf; inversion Hf as [|? ? H1 H2];
                     subst; cbn [fst snd] in H1; destruct H1 as [H1|[H1 _]];
                     congruence).
    rewrite IH. split.
    + intros Hf. constructor; [left; exact Hk | exact Hf].
    + intros Hf. inversion Hf; assumption.
  - destruct (nullable fi) eqn:Hn.
    + rewrite IH. split.
      * intros Hf. constructor; [right; split; assumption | exact Hf].
      * intros Hf. inversion Hf; assumption.
    + split; [discriminate|]. intros Hf. inversion Hf as [|? ? H1 H2]; subst.
      cbn [fst snd] in H1. destruct H1 as [H1|[_ H1]]; congruence.
Qed.

(** X18.  [check_dict_schema] returns [True] exactly for the dicts in which
    every key of the schema is either mapped to [None] (in a nullable field
    or not) or missing from a nullable field; a key outside the schema
    changes nothing.  So it never accepts a dict that holds a value for a
    field, and [None] in a non-nullable field, which [check_tuple_schema]
    rejects, passes. *)
Theorem check_dict_schema_true (d : gmap string value) (S : schema) :
  (check_dict_schema d S = Ok true <->
   Forall (fun f => d !! fst f = Some VNone \/
                    (d !! fst f = None /\ nullable (snd f) = true)) S) /\
  (forall k v, k ∉ map fst S ->
     check_dict_schema (<[k := v]> d) S = check_dict_schema d S) /\
  (forall f v, f ∈ S -> d !! fst f = Some v -> v <> VNone ->
     check_dict_schema d S <> Ok true) /\
  (Forall (fun f => d !! fst f = Some VNone) S ->
   check_dict_schema d S = Ok true /\
   (Exists (fun f => nullable (snd f) = false) S ->
    check_tuple_schema (map (fun _ => VNone) S) S <> Ok tt)).
Proof.
  split; [apply check_dict_schema_ok|]. split; [|split].
  - intros k v. induction S as [|[key fi] S IH]; intros Hk; [reflexivity|].
    cbn [map fst] in Hk. apply not_elem_of_cons in Hk as [Hne Hk].
    cbn [check_dict_schema]. rewrite lookup_insert_ne by congruence.
    rewrite (IH Hk). reflexivity.
  - intros f v Hin Hv Hnn Hok. apply check_dict_schema_ok in Hok.
    rewrite Forall_forall in Hok. destruct (Hok f Hin) as [H|[H _]]; congruence.
  - intros Hall. split.
    + apply check_dict_schema_ok. eapply Forall_impl; [exact Hall|].
      intros f Hf. left. exact Hf.
    + intros Hex Hok. apply check_tuple_schema_ok in Hok.
      destruct Hok as (_ & _ & Hn). rewrite Exists_exists in Hex.
      destruct Hex as (f & Hin & Hf). rewrite Forall_forall in Hn.
      specialize (Hn f Hin). congruence.
Qed.

End SchemaChecks.

(** ** [Row.as_dict] and [append] *)

Lemma dict_set_new (d : list (string * value)) (k : string) (v : value) :
  k ∉ map fst d -> dict_set d k v = d ++ [(k, v)].
Proof.
  induction d as [|[k' v'] d IH]; intros Hk; [reflexivity|].
  cbn [map fst] in Hk. apply not_elem_of_cons in Hk as [Hne Hk].
  cbn [dict_set]. destruct (String.eqb_spec k' k); [congruence|].
  rewrite (IH Hk). reflexivity.
Qed.

Lemma as_dict_loop_zip (_fields : list string) :
  forall (self : Row) (d : list (string * value)),
    NoDup _fields -> (forall k, k ∈ _fields -> k ∉ map fst d) ->
    as_dict_loop d _fields self = d ++ zip _fields self.
Proof.
  induction _fields as [|k fields IH]; intros self d Hnd Hdis.
  - cbn. rewrite app_nil_r. reflexivity.
  - destruct self as [|v self]; [cbn; rewrite app_nil_r; reflexivity|].
    apply NoDup_cons in Hnd as [Hk Hnd]. cbn [as_dict_loop zip zip_with].
    rewrite dict_set_new by (apply Hdis; apply list_elem_of_here).
    rewrite IH; [rewrite <- app_assoc; reflexivity | exact Hnd |].
    intros k' Hk'. rewrite map_app. cbn [map fst].
    rewrite elem_of_app, list_elem_of_singleton.
    intros [Hin|Heq]; [exact (Hdis k' (list_elem_of_further _ _ _ Hk') Hin)|].
    congruence.
Qed.

Lemma as_dict_zip (_fields : list string) (self : Row) :
  NoDup _fields -> as_dict _fields self = zip _fields self.
Proof.
  intros Hnd. unfold as_dict. rewrite as_dict_loop_zip; [reflexivity | exact Hnd |].
  intros k _. cbn. apply not_elem_of_nil.
Qed.

Lemma snd_zip_take (l : list string) :
  forall k : list value, map snd (zip l k) = take (length l) k.
Proof.
  induction l as [|x l IH]; intros [|v k]; try reflexivity.
  cbn [zip zip_with map snd length take]. rewrite <- IH. reflexivity.
Qed.

(** X19.  For a row class made by [create_class] (its field names are the
    keys of a dict, so distinct), [as_dict] pairs the field names with the
    values in order and stops at the shorter of the two: values beyond the
    last field are not in the dict.  Passing [row.as_dict] to [append]
    therefore writes what appending the first [len(_fields)] values of the
    row writes. *)
Theorem append_as_dict (aggressive : bool) (self : Engine.HadroDB)
    (_schema : schema) (row : Row) :
  NoDup (create_class_fields _schema) ->
  as_dict (create_class_fields _schema) row
  = zip (create_class_fields _schema) row /\
  Engine.record_values (Engine.RDict (as_dict (create_class_fields _schema) row))
  = take (length _schema) row /\
  Engine.append aggressive self
    (Engine.RDict (as_dict (create_class_fields _schema) row))
  = Engine.append aggressive self (Engine.RSeq (take (length _schema) row)).
Proof.
  intros Hnd. rewrite (as_dict_zip _ row Hnd).
  assert (Hv : map snd (zip (create_class_fields _schema) row)
               = take (length _schema) row).
  { unfold create_class_fields. rewrite snd_zip_take, length_map. reflexivity. }
  split; [reflexivity|]. split; [exact Hv|].
  unfold Engine.append. cbn [Engine.record_values]. rewrite Hv. reflexivity.
Qed.

Lemma append_as_dict_witness :
  as_dict (create_class_fields Engine.init_schema)
    [VInt 1; VInt 3; VStr [73; 111]; VFloat 0; VFloat 0; VNone; VNone; VNone;
     VStr [120]]
  = zip (create_class_fields Engine.init_schema)
      [VInt 1; VInt 3; VStr [73; 111]; VFloat 0; VFloat 0; VNone; VNone; VNone;
       VStr [120]] /\
  Engine.record_values
    (Engine.RDict
       (as_dict (create_class_fields Engine.init_schema)
          [VInt 1; VInt 3; VStr [73; 111]; VFloat 0; VFloat 0; VNone; VNone;
           VNone; VStr [120]]))
  = take (length Engine.init_schema)
      [VInt 1; VInt 3; VStr [73; 111]; VFloat 0; VFloat 0; VNone; VNone; VNone;
       VStr [120]] /\
  Engine.append false Engine.fresh
    (Engine.RDict
       (as_dict (create_class_fields Engine.init_schema)
          [VInt 1; VInt 3; VStr [73; 111]; VFloat 0; VFloat 0; VNone; VNone;
           VNone; VStr [120]]))
  = Engine.append false Engine.fresh
      (Engine.RSeq
         (take (length Engine.init_schema)
            [VInt 1; VInt 3; VStr [73; 111]; VFloat 0; VFloat 0; VNone; VNone;
             VNone; VStr [120]])).
Proof.
  apply (append_as_dict false Engine.fresh Engine.init_schema).
  apply (bool_decide_unpack _). vm_compute. exact I.
Defined.

(** ** The self-describing codec: payloads that are not arrays, frames *)

Lemma unpack_obj_scalar (bs : bytes) (v : value) (r : bytes) :
  unpack_value bs = Ok (v, r) -> unpack_obj bs = Ok (OScalar v, r).
Proof.
  destruct bs as [|t bs]; [discriminate|]. intros H.
  unfold unpack_obj. rewrite H. cbn [mbind result_bind].
  unfold unpack_value in H. cbv zeta in H.
  destruct (Z.leb_spec 0x90 (u8 t)); destruct (Z.ltb_spec (u8 t) 0xa0);
    cbn [andb].
  - destruct (Z.ltb_spec (u8 t) 0x80); [lia|]. discriminate.
  - destruct (Z.eqb_spec (u8 t) 0xdc) as [E|].
    { rewrite E in H. discriminate. }
    destruct (Z.eqb_spec (u8 t) 0xdd) as [E|]; [|reflexivity].
    rewrite E in H. discriminate.
  - destruct (Z.eqb_spec (u8 t) 0xdc); [lia|].
    destruct (Z.eqb_spec (u8 t) 0xdd); [lia|]. reflexivity.
  - lia.
Qed.

(** X20.  [Row.from_bytes] takes whatever object the payload holds and makes
    a tuple of it.  A payload that is one packed string gives the row of
    its characters, with no error; a payload that is one packed number,
    bool or [None] raises TypeError, the error of [tuple(...)], not a
    decoding error. *)
Theorem from_bytes_of_scalar_payload (strict : bool) (v : value) (payload : bytes) :
  value_ok v -> pack_value v = Ok payload ->
  RecordPy.from_bytes strict payload
  = match v with
    | VStr s => Ok (map (fun c => VStr [c]) s)
    | _ => Raise TypeError
    end.
Proof.
  intros Hv Hp. pose proof (unpack_pack_value v payload [] Hv Hp) as Hu.
  rewrite app_nil_r in Hu. apply unpack_obj_scalar in Hu.
  unfold RecordPy.from_bytes, unpackb. rewrite Hu. cbn [mbind result_bind].
  destruct v; reflexivity.
Qed.

Lemma from_bytes_of_scalar_payload_witness :
  RecordPy.from_bytes true [b8 0xa2; b8 104; b8 105] = Ok [VStr [104]; VStr [105]].
Proof.
  apply (from_bytes_of_scalar_payload true (VStr [104; 105])).
  - exact I.
  - reflexivity.
Defined.

Lemma to_bytes_inv (r : Row) (d : bytes) :
  RecordPy.to_bytes r = Ok d ->
  exists payload,
    packb r = Ok payload /\ len payload < 2 ^ 32 /\
    d = [x00] ++ be_bytes 4 (len payload) ++ payload.
Proof.
  unfold RecordPy.to_bytes. intros H.
  destruct (packb r) as [payload|] eqn:Hp; [|discriminate].
  cbn [mbind result_bind] in H. cbv zeta in H. unfold int_to_bytes4 in H.
  destruct (Z.leb_spec 0 (len payload)); destruct (Z.ltb_spec (len payload) (2 ^ 32));
    cbn [andb mbind result_bind] in H; try discriminate.
  apply Ok_inj in H. exists payload. repeat split; [assumption|]. symmetry. exact H.
Qed.

(** X21.  The frames that [Row.to_bytes] makes are self-delimiting: if the
    frames of two rows, each followed by arbitrary bytes, give the same
    byte string, the rows are equal and so are the bytes that follow.  A
    file of such frames can be cut into its records in one way only. *)
Theorem to_bytes_frames_prefix_free (r1 r2 : Row) (d1 d2 x y : bytes) :
  Forall value_ok r1 -> Forall value_ok r2 ->
  RecordPy.to_bytes r1 = Ok d1 -> RecordPy.to_bytes r2 = Ok d2 ->
  d1 ++ x = d2 ++ y ->
  r1 = r2 /\ d1 = d2 /\ x = y.
Proof.
  intros Hv1 Hv2 H1 H2 He.
  destruct (to_bytes_inv r1 d1 H1) as (p1 & Hp1 & Hl1 & ->).
  destruct (to_bytes_inv r2 d2 H2) as (p2 & Hp2 & Hl2 & ->).
  assert (He' : ([x00] ++ be_bytes 4 (len p1)) ++ (p1 ++ x)
                = ([x00] ++ be_bytes 4 (len p2)) ++ (p2 ++ y))
    by (rewrite <- !app_assoc in He |- *; exact He).
  clear He. apply app_inj_1 in He' as [_ He];
    [|rewrite !length_app, !length_be_bytes; reflexivity].
  pose proof (unpack_obj_packb r1 p1 x Hv1 Hp1) as U1.
  pose proof (unpack_obj_packb r2 p2 y Hv2 Hp2) as U2.
  rewrite He, U2 in U1. injection U1 as -> ->.
  apply app_inv_tail in He. subst p2. repeat split; reflexivity.
Qed.

Lemma to_bytes_frames_prefix_free_witness :
  [VInt 1] = [VInt 1] /\
  [x00; x00; x00; x00; x02; b8 0x91; b8 1] = [x00; x00; x00; x00; x02; b8 0x91; b8 1] /\
  [b8 7] = [b8 7].
Proof.
  apply (to_bytes_frames_prefix_free [VInt 1] [VInt 1]
           [x00; x00; x00; x00; x02; b8 0x91; b8 1]
           [x00; x00; x00; x00; x02; b8 0x91; b8 1] [b8 7] [b8 7]).
  - repeat constructor.
  - repeat constructor.
  - reflexivity.
  - reflexivity.
  - reflexivity.
Defined.

(** ** The self-describing codec on truncated input *)

Lemma mp_take_stable (n : Z) (bs : bytes) : ext_stable (mp_take n) bs.
Proof.
  unfold ext_stable, mp_take. destruct (Z.leb_spec n (len bs)) as [H|H].
  - intros ext. rewrite len_app. pose proof (len_nonneg ext).
    destruct (Z.leb_spec n (len bs + len ext)); [|lia].
    rewrite take_app_le, drop_app_le by (unfold len in H; lia). reflexivity.
  - left. reflexivity.
Qed.

Lemma mp_uint_stable (n : Z) (bs : bytes) : ext_stable (mp_uint n) bs.
Proof.
  pose proof (mp_take_stable n bs) as H. unfold ext_stable, mp_uint in *.
  destruct (mp_take n bs) as [[d r]|e]; cbn [mbind result_bind].
  - intros ext. rewrite H. reflexivity.
  - destruct H as [->|[-> H]]; [left; reflexivity|].
    right. split; [reflexivity|]. intros ext. rewrite H. reflexivity.
Qed.

Lemma mp_sint_stable (n : Z) (bs : bytes) : ext_stable (mp_sint n) bs.
Proof.
  pose proof (mp_take_stable n bs) as H. unfold ext_stable, mp_sint in *.
  destruct (mp_take n bs) as [[d r]|e]; cbn [mbind result_bind].
  - intros ext. rewrite H. reflexivity.
  - destruct H as [->|[-> H]]; [left; reflexivity|].
    right. split; [reflexivity|]. intros ext. rewrite H. reflexivity.
Qed.

Lemma mp_str_stable (n : Z) (bs : bytes) : ext_stable (mp_str n) bs.
Proof.
  pose proof (mp_take_stable n bs) as H. unfold ext_stable, mp_str in *.
  destruct (mp_take n bs) as [[d r]|e]; cbn [mbind result_bind].
  - destruct (utf8_decode d) as [s|e] eqn:Ed.
    + intros ext. rewrite H. cbn [mbind result_bind]. rewrite Ed. reflexivity.
    + left. reflexivity.
  - destruct H as [->|[-> H]]; [left; reflexivity|].
    right. split; [reflexivity|]. intros ext. rewrite H. reflexivity.
Qed.

(** Composition: a decoder followed by another on what is left. *)
Lemma ext_stable_bind {A B : Type} (f : bytes -> result (A * bytes))
    (g : A -> bytes -> result (B * bytes)) (p : bytes) :
  ext_stable f p -> (forall a r, ext_stable (g a) r) ->
  ext_stable (fun bs => '(a, r) ← f bs; g a r) p.
Proof.
  intros Hf Hg. unfold ext_stable in *.
  destruct (f p) as [[a r]|e] eqn:Ef; cbn [mbind result_bind].
  - specialize (Hg a r). destruct (g a r) as [[b r']|e] eqn:Eg.
    + intros ext. rewrite Hf. cbn [mbind result_bind]. apply Hg.
    + destruct Hg as [->|[-> Hg]]; [left; reflexivity|].
      right. split; [reflexivity|]. intros ext. rewrite Hf.
      cbn [mbind result_bind]. apply Hg.
  - destruct Hf as [->|[-> Hf]]; [left; reflexivity|].
    right. split; [reflexivity|]. intros ext. rewrite Hf. reflexivity.
Qed.

Lemma ext_stable_ret {A : Type} (a : A) (p : bytes) :
  ext_stable (fun bs => Ok (a, bs)) p.
Proof. unfold ext_stable. reflexivity. Qed.

Lemma ext_stable_cons {A : Type} (f : bytes -> result (A * bytes))
    (g : bytes -> result (A * bytes)) (t : byte) (r : bytes) :
  (forall bs, f (t :: bs) = g bs) -> ext_stable g r -> ext_stable f (t :: r).
Proof.
  intros Hfg Hg. unfold ext_stable in *. rewrite Hfg.
  destruct (g r) as [[a r']|e].
  - intros ext. rewrite <- app_comm_cons, Hfg. apply Hg.
  - destruct Hg as [->|[-> Hg]]; [left; reflexivity|].
    right. split; [reflexivity|]. intros ext. rewrite <- app_comm_cons, Hfg. apply Hg.
Qed.

Lemma ext_stable_fail {A : Type} (f : bytes -> result (A * bytes)) (p : bytes) :
  f p = Raise MsgpackDecodeError -> ext_stable f p.
Proof. intros H. unfold ext_stable. rewrite H. left. reflexivity. Qed.

Lemma ext_stable_outside {A : Type} (p : bytes) :
  ext_stable (fun _ : bytes => @Raise (A * bytes) OutsideModel) p.
Proof. unfold ext_stable. right. split; reflexivity. Qed.

Lemma ext_stable_decode_error {A : Type} (p : bytes) :
  ext_stable (fun _ : bytes => @Raise (A * bytes) MsgpackDecodeError) p.
Proof. unfold ext_stable. left. reflexivity. Qed.

Lemma unpack_value_stable (bs : bytes) : ext_stable unpack_value bs.
Proof.
  destruct bs as [|t r]; [apply ext_stable_fail; reflexivity|].
  set (x := u8 t).
  apply (ext_stable_cons unpack_value
           (fun r =>
              if x <? 0x80 then Ok (VInt x, r)
              else if x <? 0xa0 then Raise OutsideModel
              else if x <? 0xc0 then mp_str (x - 0xa0) r
              else if x =? 0xc0 then Ok (VNone, r)
              else if x =? 0xc1 then Raise MsgpackDecodeError
              else if x =? 0xc2 then Ok (VBool false, r)
              else if x =? 0xc3 then Ok (VBool true, r)
              else if x <? 0xcb then Raise OutsideModel
              else if x =? 0xcb then '(z, r') ← mp_uint 8 r; Ok (VFloat z, r')
              else if x =? 0xcc then '(z, r') ← mp_uint 1 r; Ok (VInt z, r')
              else if x =? 0xcd then '(z, r') ← mp_uint 2 r; Ok (VInt z, r')
              else if x =? 0xce then '(z, r') ← mp_uint 4 r; Ok (VInt z, r')
              else if x =? 0xcf then '(z, r') ← mp_uint 8 r; Ok (VInt z, r')
              else if x =? 0xd0 then '(z, r') ← mp_sint 1 r; Ok (VInt z, r')
              else if x =? 0xd1 then '(z, r') ← mp_sint 2 r; Ok (VInt z, r')
              else if x =? 0xd2 then '(z, r') ← mp_sint 4 r; Ok (VInt z, r')
              else if x =? 0xd3 then '(z, r') ← mp_sint 8 r; Ok (VInt z, r')
              else if x <? 0xd9 then Raise OutsideModel
              else if x =? 0xd9 then '(n, r') ← mp_uint 1 r; mp_str n r'
              else if x =? 0xda then '(n, r') ← mp_uint 2 r; mp_str n r'
              else if x =? 0xdb then '(n, r') ← mp_uint 4 r; mp_str n r'
              else if x <? 0xe0 then Raise OutsideModel
              else Ok (VInt (x - 256), r)));
    [intros bs; reflexivity|].
  repeat match goal with
  | |- context [if ?c then _ else _] => destruct c
  end;
    first [ apply ext_stable_ret
          | apply ext_stable_outside
          | apply ext_stable_decode_error
          | apply mp_str_stable
          | apply (ext_stable_bind (mp_uint _) (fun z r' => Ok (VFloat z, r')));
            [apply mp_uint_stable | intros; apply ext_stable_ret]
          | apply (ext_stable_bind (mp_uint _) (fun z r' => Ok (VInt z, r')));
            [apply mp_uint_stable | intros; apply ext_stable_ret]
          | apply (ext_stable_bind (mp_sint _) (fun z r' => Ok (VInt z, r')));
            [apply mp_sint_stable | intros; apply ext_stable_ret]
          | apply (ext_stable_bind (mp_uint _) (fun n r' => mp_str n r'));
            [apply mp_uint_stable | intros; apply mp_str_stable] ].
Qed.

Lemma unpack_values_stable (n : nat) : forall bs, ext_stable (unpack_values n) bs.
Proof.
  induction n as [|k IH]; intros bs; [apply ext_stable_ret|].
  change (unpack_values (S k))
    with (fun bs => '(v, r) ← unpack_value bs;
                    (fun v r => '(vs, r') ← unpack_values k r; Ok (v :: vs, r')) v r).
  apply (ext_stable_bind unpack_value
           (fun v r => '(vs, r') ← unpack_values k r; Ok (v :: vs, r')));
    [apply unpack_value_stable|].
  intros v r.
  apply (ext_stable_bind (unpack_values k) (fun vs r' => Ok (v :: vs, r')));
    [apply IH | intros; apply ext_stable_ret].
Qed.

Lemma ext_stable_uncons {A : Type} (f : bytes -> result (A * bytes))
    (t : byte) (r : bytes) :
  ext_stable f (t :: r) -> ext_stable (fun bs => f (t :: bs)) r.
Proof. intros H. exact H. Qed.

Lemma unpack_obj_stable (bs : bytes) : ext_stable unpack_obj bs.
Proof.
  destruct bs as [|t r]; [apply ext_stable_fail; reflexivity|].
  set (x := u8 t).
  apply (ext_stable_cons unpack_obj
           (fun r =>
              if (0x90 <=? x) && (x <? 0xa0) then
                '(vs, r') ← unpack_values (Z.to_nat (x - 0x90)) r; Ok (OArray vs, r')
              else if x =? 0xdc then
                '(n, r') ← mp_uint 2 r;
                '(vs, r'') ← unpack_values (Z.to_nat n) r'; Ok (OArray vs, r'')
              else if x =? 0xdd then
                '(n, r') ← mp_uint 4 r;
                '(vs, r'') ← unpack_values (Z.to_nat n) r'; Ok (OArray vs, r'')
              else
                '(v, r') ← unpack_value (t :: r); Ok (OScalar v, r')));
    [intros bs; reflexivity|].
  destruct ((0x90 <=? x) && (x <? 0xa0)).
  { apply (ext_stable_bind (unpack_values _) (fun vs r' => Ok (OArray vs, r')));
      [apply unpack_values_stable | intros; apply ext_stable_ret]. }
  destruct (x =? 0xdc).
  { apply (ext_stable_bind (mp_uint 2)
             (fun n r' => '(vs, r'') ← unpack_values (Z.to_nat n) r';
                          Ok (OArray vs, r'')));
      [apply mp_uint_stable|]. intros n r'.
    apply (ext_stable_bind (unpack_values _) (fun vs r' => Ok (OArray vs, r')));
      [apply unpack_values_stable | intros; apply ext_stable_ret]. }
  destruct (x =? 0xdd).
  { apply (ext_stable_bind (mp_uint 4)
             (fun n r' => '(vs, r'') ← unpack_values (Z.to_nat n) r';
                          Ok (OArray vs, r'')));
      [apply mp_uint_stable|]. intros n r'.
    apply (ext_stable_bind (unpack_values _) (fun vs r' => Ok (OArray vs, r')));
      [apply unpack_values_stable | intros; apply ext_stable_ret]. }
  apply (ext_stable_bind (fun bs => unpack_value (t :: bs))
           (fun v r' => Ok (OScalar v, r')));
    [apply ext_stable_uncons, unpack_value_stable | intros; apply ext_stable_ret].
Qed.

Lemma unpack_obj_truncated (t : Row) (payload : bytes) (n : nat) :
  Forall value_ok t -> packb t = Ok payload -> (n < length payload)%nat ->
  unpack_obj (take n payload) = Raise MsgpackDecodeError.
Proof.
  intros Hv Hp Hn. pose proof (unpack_obj_packb t payload [] Hv Hp) as Hfull.
  rewrite app_nil_r in Hfull.
  pose proof (unpack_obj_stable (take n payload)) as Hs. unfold ext_stable in Hs.
  destruct (unpack_obj (take n payload)) as [[o r]|e].
  - specialize (Hs (drop n payload)). rewrite take_drop, Hfull in Hs.
    apply Ok_inj in Hs. injection Hs as _ Hr. symmetry in Hr.
    apply app_eq_nil in Hr as [_ Hr].
    apply (f_equal (@length byte)) in Hr. rewrite length_drop in Hr.
    cbn [length] in Hr. lia.
  - destruct Hs as [->|[-> Hs]]; [reflexivity|].
    specialize (Hs (drop n payload)). rewrite take_drop, Hfull in Hs. discriminate.
Qed.

Lemma from_bytes_truncated_aux (strict : bool) (t : Row) (payload : bytes) (n : nat) :
  Forall value_ok t -> packb t = Ok payload -> (n < length payload)%nat ->
  RecordPy.from_bytes strict (take n payload) = Raise MsgpackDecodeError.
Proof.
  intros Hv Hp Hn. unfold RecordPy.from_bytes, unpackb.
  rewrite (unpack_obj_truncated t payload n Hv Hp Hn). reflexivity.
Qed.

(** X22.  [Row.from_bytes] rejects every proper prefix of the payload that
    [packb] made of a row: a payload cut short never decodes, to the row or
    to any other, it raises the decoder's error. *)
Theorem from_bytes_payload_truncated (strict : bool) (t : Row) (payload : bytes)
    (n : nat) :
  Forall value_ok t -> packb t = Ok payload -> (n < length payload)%nat ->
  RecordPy.from_bytes strict (take n payload) = Raise MsgpackDecodeError.
Proof. apply from_bytes_truncated_aux. Qed.

Lemma from_bytes_payload_truncated_witness :
  RecordPy.from_bytes true (take 3 [b8 0x92; b8 0xa2; b8 104; b8 105; b8 7])
  = Raise MsgpackDecodeError.
Proof.
  apply (from_bytes_payload_truncated true [VStr [104; 105]; VInt 7]).
  - repeat constructor.
  - reflexivity.
  - simpl. lia.
Defined.

(** X23.  A torn last write is never taken for a record.  When the file
    holds well-formed frames and then a proper, non-empty prefix of the
    frame that [append] writes for a row, the frames and the whole of that
    frame within the read buffer, [scan] yields the rows of the frames
    before it and raises: [struct.error] when the file ends inside the
    header, the decoder's error when it ends inside the payload. *)
Theorem scan_detects_torn_append (strict : bool) (block_size : Z) (fuel : nat)
    (frames : list (Z * bytes)) (t : Row) (payload : bytes) (n : nat)
    (self : Engine.HadroDB) :
  Engine.file self = log_of frames ++ take n (frame_bytes (0, payload)) ->
  Forall (frame_ok strict) frames ->
  Forall value_ok t -> packb t = Ok payload -> len payload < 2 ^ 32 ->
  (0 < n < length (frame_bytes (0%Z, payload)))%nat ->
  (length frames < fuel)%nat ->
  len (log_of frames) + 5 + len payload <= block_size ->
  Engine.scan_with block_size fuel strict self
  = (live_rows strict frames,
     Engine.Raises (if (n <? 5)%nat then StructError else MsgpackDecodeError)).
Proof.
  intros Hfile Hok Hv Hp Hl32 Hn Hfuel Hfit.
  assert (Hfuel' : (length frames <= fuel - 1)%nat) by lia.
  destruct (fuel_split _ _ Hfuel') as [k Hk].
  replace fuel with (length frames + S k)%nat by lia.
  pose proof (len_nonneg (log_of frames)) as Hnn.
  pose proof (packb_nonempty t payload Hp) as Hpos.
  unfold frame_bytes in Hfile, Hn. cbn [fst snd] in Hfile, Hn.
  assert (Hh : length (b8 0 :: be_bytes 4 (len payload)) = 5%nat)
    by (cbn [length]; rewrite length_be_bytes; reflexivity).
  rewrite app_comm_cons, length_app, Hh in Hn.
  rewrite app_comm_cons in Hfile.
  assert (Htail : take n ((b8 0 :: be_bytes 4 (len payload)) ++ payload) <> []).
  { intros E. apply (f_equal (@length byte)) in E.
    rewrite length_take, length_app, Hh in E. cbn [length] in E. lia. }
  rewrite (scan_with_then strict block_size _ frames (S k) self Hfile);
    [| right; exact Htail | exact Hok | lia].
  unfold next_record. destruct (Nat.ltb_spec n 5) as [Hlt|Hge].
  - rewrite take_app_le by lia.
    assert (Hlen : len (take n (b8 0 :: be_bytes 4 (len payload))) = Z.of_nat n)
      by (unfold len at 1; rewrite length_take, Hh; lia).
    rewrite buffer_read_all by lia. rewrite Hlen.
    destruct (Z.eqb_spec (Z.of_nat n) 0); [lia|].
    rewrite unpack_BI_short by (rewrite length_take, Hh; lia).
    cbn [fst snd]. rewrite app_nil_r. reflexivity.
  - rewrite take_app_ge by lia. rewrite Hh.
    rewrite (buffer_read_header _ _ (len_frame_header 0 (len payload))).
    rewrite len_frame_header. change (5 =? 0) with false. cbv beta iota.
    rewrite unpack_BI_header by lia.
    rewrite scan_loop_unfold. destruct (Z.gtb_spec (len payload) 0); [|lia].
    unfold Engine.read_record.
    destruct (Z.gtb_spec (len (log_of frames) + 5 + len payload) block_size); [lia|].
    rewrite buffer_read_all
      by (unfold len at 1; rewrite length_take; unfold len; lia).
    cbv zeta beta iota.
    change (Z.land 0 Engine.DELETED_FLAG =? 0) with true. cbv beta iota.
    rewrite (from_bytes_truncated_aux strict t payload (n - 5) Hv Hp) by lia.
    cbn [fst snd]. rewrite app_nil_r. reflexivity.
Qed.

Lemma scan_detects_torn_append_witness :
  Engine.scan_with 64 2 true
    (Engine.opened (log_of [(0, [b8 0x91; b8 1])]
                    ++ take 6 (frame_bytes (0, [b8 0x91; b8 2]))))
  = ([[VInt 1]], Engine.Raises MsgpackDecodeError).
Proof.
  apply (scan_detects_torn_append true 64 2 [(0, [b8 0x91; b8 1])] [VInt 2]
           [b8 0x91; b8 2] 6).
  - reflexivity.
  - repeat constructor; cbn; try lia; try discriminate; reflexivity.
  - repeat constructor.
  - reflexivity.
  - vm_compute. reflexivity.
  - simpl. lia.
  - simpl. lia.
  - vm_compute. discriminate.
Defined.
